(** * TelePrompter: the layout-and-scroll engine of [teleprompter.py]

    A shallow embedding of the engine part of [src/teleprompter.py]
    (module constants, [_line_x], [_word_xs] and the scrolling, layout
    and painting methods of [TeleprompterWindow], with the [ControlPanel]
    slots that write into it), followed by the properties of the engine.

    Conventions of the embedding.
    - Python [int] is [Z]; Python [float] is an exact rational [Q]: the
      model has no rounding error, so an equation between floats is an
      equation [==] between rationals.  [int(x)] on a float truncates
      toward zero ([py_int]).
    - Python [str] is [string] (code points below 256).
    - [set] and [dict] are stdpp's [gset] and [gmap]; the empty tuple [()]
      used as "no key" is [None].
    - [QFontMetrics] is an external collaborator: it is a variable of the
      section holding the engine. *)

From Stdlib Require Import ZArith QArith Qminmax Qround Qabs Lia Lqa Ascii String.
From stdpp Require Import gmap strings list sorting.

Open Scope Z_scope.

(** ** Numbers *)

(** [int(x)] for a float [x]: truncation toward zero. *)
Definition py_int (x : Q) : Z := Z.quot (Qnum x) (Z.pos (Qden x)).

(** Python's [round(x)] with one argument: nearest integer, ties to even. *)
Definition py_round (x : Q) : Z :=
  let f := Qfloor x in
  let r := (x - inject_Z f)%Q in
  match (r ?= 1 # 2)%Q with
  | Lt => f
  | Gt => f + 1
  | Eq => if Z.even f then f else f + 1
  end.

(** ** Module constants *)

Definition _PAUSE_TAG : string := "[PAUSE]".

(** [_ALPHA_LUT = [max(0, 255 - int(d * 0.75)) for d in range(512)]] *)
Definition _ALPHA_LUT : list Z :=
  map (fun d : nat => Z.max 0 (255 - py_int (inject_Z (Z.of_nat d) * 0.75)%Q))
      (seq 0 512).

(** The table entry the specification describes, with [round] where the
    source has [int]. *)
Definition spec_alpha_entry (d : Z) : Z :=
  Z.max 0 (255 - py_round (inject_Z d * 0.75)%Q).

(** ** Strings *)

Definition ord (c : ascii) : N := N_of_ascii c.

(** [str.isspace] on one code point below 256. *)
Definition is_space (c : ascii) : bool :=
  let n := ord c in
  ((9 <=? n) && (n <=? 13) || (28 <=? n) && (n <=? 32)
   || (n =? 133) || (n =? 160))%N.

Definition is_newline (c : ascii) : bool := (ord c =? 10)%N.

Definition is_empty (s : string) : bool :=
  match s with EmptyString => true | String _ _ => false end.

Fixpoint lstrip (s : string) : string :=
  match s with
  | EmptyString => EmptyString
  | String c s' => if is_space c then lstrip s' else s
  end.

Fixpoint rstrip (s : string) : string :=
  match s with
  | EmptyString => EmptyString
  | String c s' =>
      let r := rstrip s' in
      if is_space c && is_empty r then EmptyString else String c r
  end.

(** [s.strip()] *)
Definition strip (s : string) : string := rstrip (lstrip s).

Definition starts_word (s : string) : bool :=
  match s with
  | EmptyString => false
  | String c _ => negb (is_space c)
  end.

(** [s.split()]: the maximal runs of non-whitespace, in order. *)
Fixpoint split_ws (s : string) : list string :=
  match s with
  | EmptyString => []
  | String c s' =>
      if is_space c then split_ws s'
      else if starts_word s' then
        match split_ws s' with
        | w :: ws => String c w :: ws
        | [] => [String c EmptyString]
        end
      else String c EmptyString :: split_ws s'
  end.

(** [s.split('\n')] *)
Fixpoint split_nl (s : string) : list string :=
  match s with
  | EmptyString => [EmptyString]
  | String c s' =>
      if is_newline c then EmptyString :: split_nl s'
      else match split_nl s' with
           | l :: ls => String c l :: ls
           | [] => [String c EmptyString]
           end
  end.

(** [' '.join(ws)] *)
Fixpoint join_sp (ws : list string) : string :=
  match ws with
  | [] => EmptyString
  | [w] => w
  | w :: ws' => w +:+ " " +:+ join_sp ws'
  end.

Fixpoint drop_str (n : nat) (s : string) : string :=
  match n, s with
  | O, _ => s
  | S n', String _ s' => drop_str n' s'
  | S _, EmptyString => EmptyString
  end.

(** *** The note pattern [_NOTE_RE = \[\[(.+?)\]\]]

    [lazy_group s] reads [s], the text after an opening [[[]: the lazy
    group [(.+?)] takes one character that is not a newline, then as few
    more as are needed for ["]]"] to follow.  The result is the group and
    the text after the closing brackets. *)
Fixpoint lazy_group (s : string) : option (string * string) :=
  match s with
  | EmptyString => None
  | String c s' =>
      if is_newline c then None
      else if String.prefix "]]" s' then Some (String c EmptyString, drop_str 2 s')
      else match lazy_group s' with
           | Some (g, r) => Some (String c g, r)
           | None => None
           end
  end.

(** A match of the pattern that starts at the head of [s]. *)
Definition note_match (s : string) : option (string * string) :=
  match s with
  | String "[" (String "[" r) => lazy_group r
  | _ => None
  end.

(** [_NOTE_RE.search(s)], as the text of group 1 of the leftmost match. *)
Fixpoint note_search (s : string) : option string :=
  match note_match s with
  | Some (g, _) => Some g
  | None =>
      match s with
      | EmptyString => None
      | String _ s' => note_search s'
      end
  end.

(** [_NOTE_RE.sub('', s)]: every match, left to right and without
    overlap, is cut out.  [skip] counts the characters of the current
    match that are still to be dropped. *)
Fixpoint note_sub_from (skip : nat) (s : string) : string :=
  match s with
  | EmptyString => EmptyString
  | String c s' =>
      match skip with
      | S k => note_sub_from k s'
      | O =>
          match note_match s with
          | Some (g, _) => note_sub_from (String.length g + 3) s'
          | None => String c (note_sub_from 0 s')
          end
      end
  end.

Definition note_sub (s : string) : string := note_sub_from 0 s.


(** ** Qt collaborators *)

(** What the engine reads from a [QFontMetrics] object. *)
Record FontMetrics : Type := mkFontMetrics {
  horizontalAdvance : string -> Z;
  lineSpacing : Z;
  ascent : Z
}.

(** The three values [text_align] takes ([ControlPanel._on_align]). *)
Inductive Align : Type := AlignLeft | AlignHCenter | AlignRight.

Definition Align_eqb (a b : Align) : bool :=
  match a, b with
  | AlignLeft, AlignLeft | AlignHCenter, AlignHCenter
  | AlignRight, AlignRight => true
  | _, _ => false
  end.

(** The keys that need handling in [keyPressEvent]; [Key_Other] stands
    for every key the method ignores. *)
Inductive Key : Type :=
  | Key_Space | Key_Return | Key_Up | Key_Down | Key_Left | Key_Right
  | Key_R | Key_Escape | Key_Other.

(** [QAbstractSlider.setValue] and [QSpinBox.setValue] keep the value
    inside the range given to [setRange]. *)
Definition bounded (lo hi v : Z) : Z := Z.max lo (Z.min hi v).

(** ** Cache keys *)

(** [(font_family, font_size, line_spacing_factor)] *)
Definition FontKey : Type := (string * Z * Q)%type.

(** [(text, W, _font_key, text_align)] *)
Definition LayoutKey : Type := (string * Z * option FontKey * Align)%type.

Definition FontKey_eqb (a b : FontKey) : bool :=
  let '(fa, sa, la) := a in
  let '(fb, sb, lb) := b in
  String.eqb fa fb && (sa =? sb) && Qeq_bool la lb.

(** [key == self._font_key]: a 3-tuple never equals the empty tuple. *)
Definition font_key_hit (key : FontKey) (cached : option FontKey) : bool :=
  match cached with
  | Some k => FontKey_eqb key k
  | None => false
  end.

Definition opt_FontKey_eqb (a b : option FontKey) : bool :=
  match a, b with
  | Some x, Some y => FontKey_eqb x y
  | None, None => true
  | _, _ => false
  end.

Definition LayoutKey_eqb (a b : LayoutKey) : bool :=
  let '(ta, wa, fa, aa) := a in
  let '(tb, wb, fb, ab) := b in
  String.eqb ta tb && (wa =? wb) && opt_FontKey_eqb fa fb && Align_eqb aa ab.

(** [key == self._layout_key] *)
Definition layout_key_hit (key : LayoutKey) (cached : option LayoutKey) : bool :=
  match cached with
  | Some k => LayoutKey_eqb key k
  | None => false
  end.

(** ** Presenter notes window: what the engine hands to it *)

Record NotesWindow : Type := mkNotesWindow {
  _cur : option string;          (* argument of the last [set_current] *)
  _all : gmap Z string           (* note map of the last [set_all] *)
}.

Definition set_current (note : option string) (n : NotesWindow) : NotesWindow :=
  mkNotesWindow note (_all n).

Definition set_all (note_map : gmap Z string) (n : NotesWindow) : NotesWindow :=
  mkNotesWindow (_cur n) note_map.

(** ** Window state

    The attributes of [TeleprompterWindow] the engine reads or writes.
    [_cd_timer] and [_scroll_timer] hold whether the timer is running;
    [_mic_stream] holds the threshold the running audio callback has
    captured; [width] and [height] are the widget's geometry. *)

Record TeleprompterWindow : Type := mkWindow {
  text : string;
  scroll_y : Q;
  is_playing : bool;
  speed : Q;
  font_family : string;
  font_size : Z;
  word_highlight : bool;
  line_spacing_factor : Q;
  focus_ratio : Q;
  text_align : Align;
  countdown_secs : Z;
  _cd_val : option Z;
  _cd_timer : bool;
  _scroll_timer : bool;
  auto_speed_enabled : bool;
  mic_threshold : Q;
  _mic_smooth : Q;
  _mic_target : Q;
  _mic_stream : option Q;
  _font_key : option FontKey;
  _f_fm : option FontMetrics;
  _f_asc : Z;
  _f_line_h : Z;
  _f_sp_w : Z;
  _layout_key : option LayoutKey;
  _l_lines : list string;
  _l_word_xs : list (list (string * Z));
  _l_pause : gset Z;
  _l_notes : gmap Z string;
  _l_total : Q;
  _prog_frame : Z;
  _last_fl : Z;
  notes_window : NotesWindow;
  width : Z;
  height : Z
}.

Definition set_text (v : string) (w : TeleprompterWindow) : TeleprompterWindow :=
  mkWindow v (scroll_y w) (is_playing w) (speed w) (font_family w)
    (font_size w) (word_highlight w) (line_spacing_factor w) (focus_ratio w)
    (text_align w) (countdown_secs w) (_cd_val w) (_cd_timer w)
    (_scroll_timer w) (auto_speed_enabled w) (mic_threshold w) (_mic_smooth
    w) (_mic_target w) (_mic_stream w) (_font_key w) (_f_fm w) (_f_asc w)
    (_f_line_h w) (_f_sp_w w) (_layout_key w) (_l_lines w) (_l_word_xs w)
    (_l_pause w) (_l_notes w) (_l_total w) (_prog_frame w) (_last_fl w)
    (notes_window w) (width w) (height w).

Definition set_scroll_y (v : Q) (w : TeleprompterWindow) : TeleprompterWindow :=
  mkWindow (text w) v (is_playing w) (speed w) (font_family w) (font_size w)
    (word_highlight w) (line_spacing_factor w) (focus_ratio w) (text_align
    w) (countdown_secs w) (_cd_val w) (_cd_timer w) (_scroll_timer w)
    (auto_speed_enabled w) (mic_threshold w) (_mic_smooth w) (_mic_target w)
    (_mic_stream w) (_font_key w) (_f_fm w) (_f_asc w) (_f_line_h w)
    (_f_sp_w w) (_layout_key w) (_l_lines w) (_l_word_xs w) (_l_pause w)
    (_l_notes w) (_l_total w) (_prog_frame w) (_last_fl w) (notes_window w)
    (width w) (height w).

Definition set_is_playing (v : bool) (w : TeleprompterWindow) : TeleprompterWindow :=
  mkWindow (text w) (scroll_y w) v (speed w) (font_family w) (font_size w)
    (word_highlight w) (line_spacing_factor w) (focus_ratio w) (text_align
    w) (countdown_secs w) (_cd_val w) (_cd_timer w) (_scroll_timer w)
    (auto_speed_enabled w) (mic_threshold w) (_mic_smooth w) (_mic_target w)
    (_mic_stream w) (_font_key w) (_f_fm w) (_f_asc w) (_f_line_h w)
    (_f_sp_w w) (_layout_key w) (_l_lines w) (_l_word_xs w) (_l_pause w)
    (_l_notes w) (_l_total w) (_prog_frame w) (_last_fl w) (notes_window w)
    (width w) (height w).

Definition set_speed (v : Q) (w : TeleprompterWindow) : TeleprompterWindow :=
  mkWindow (text w) (scroll_y w) (is_playing w) v (font_family w) (font_size
    w) (word_highlight w) (line_spacing_factor w) (focus_ratio w)
    (text_align w) (countdown_secs w) (_cd_val w) (_cd_timer w)
    (_scroll_timer w) (auto_speed_enabled w) (mic_threshold w) (_mic_smooth
    w) (_mic_target w) (_mic_stream w) (_font_key w) (_f_fm w) (_f_asc w)
    (_f_line_h w) (_f_sp_w w) (_layout_key w) (_l_lines w) (_l_word_xs w)
    (_l_pause w) (_l_notes w) (_l_total w) (_prog_frame w) (_last_fl w)
    (notes_window w) (width w) (height w).

Definition set_font_family (v : string) (w : TeleprompterWindow) : TeleprompterWindow :=
  mkWindow (text w) (scroll_y w) (is_playing w) (speed w) v (font_size w)
    (word_highlight w) (line_spacing_factor w) (focus_ratio w) (text_align
    w) (countdown_secs w) (_cd_val w) (_cd_timer w) (_scroll_timer w)
    (auto_speed_enabled w) (mic_threshold w) (_mic_smooth w) (_mic_target w)
    (_mic_stream w) (_font_key w) (_f_fm w) (_f_asc w) (_f_line_h w)
    (_f_sp_w w) (_layout_key w) (_l_lines w) (_l_word_xs w) (_l_pause w)
    (_l_notes w) (_l_total w) (_prog_frame w) (_last_fl w) (notes_window w)
    (width w) (height w).

Definition set_font_size (v : Z) (w : TeleprompterWindow) : TeleprompterWindow :=
  mkWindow (text w) (scroll_y w) (is_playing w) (speed w) (font_family w) v
    (word_highlight w) (line_spacing_factor w) (focus_ratio w) (text_align
    w) (countdown_secs w) (_cd_val w) (_cd_timer w) (_scroll_timer w)
    (auto_speed_enabled w) (mic_threshold w) (_mic_smooth w) (_mic_target w)
    (_mic_stream w) (_font_key w) (_f_fm w) (_f_asc w) (_f_line_h w)
    (_f_sp_w w) (_layout_key w) (_l_lines w) (_l_word_xs w) (_l_pause w)
    (_l_notes w) (_l_total w) (_prog_frame w) (_last_fl w) (notes_window w)
    (width w) (height w).

Definition set_word_highlight (v : bool) (w : TeleprompterWindow) : TeleprompterWindow :=
  mkWindow (text w) (scroll_y w) (is_playing w) (speed w) (font_family w)
    (font_size w) v (line_spacing_factor w) (focus_ratio w) (text_align w)
    (countdown_secs w) (_cd_val w) (_cd_timer w) (_scroll_timer w)
    (auto_speed_enabled w) (mic_threshold w) (_mic_smooth w) (_mic_target w)
    (_mic_stream w) (_font_key w) (_f_fm w) (_f_asc w) (_f_line_h w)
    (_f_sp_w w) (_layout_key w) (_l_lines w) (_l_word_xs w) (_l_pause w)
    (_l_notes w) (_l_total w) (_prog_frame w) (_last_fl w) (notes_window w)
    (width w) (height w).

Definition set_line_spacing_factor (v : Q) (w : TeleprompterWindow) : TeleprompterWindow :=
  mkWindow (text w) (scroll_y w) (is_playing w) (speed w) (font_family w)
    (font_size w) (word_highlight w) v (focus_ratio w) (text_align w)
    (countdown_secs w) (_cd_val w) (_cd_timer w) (_scroll_timer w)
    (auto_speed_enabled w) (mic_threshold w) (_mic_smooth w) (_mic_target w)
    (_mic_stream w) (_font_key w) (_f_fm w) (_f_asc w) (_f_line_h w)
    (_f_sp_w w) (_layout_key w) (_l_lines w) (_l_word_xs w) (_l_pause w)
    (_l_notes w) (_l_total w) (_prog_frame w) (_last_fl w) (notes_window w)
    (width w) (height w).

Definition set_focus_ratio (v : Q) (w : TeleprompterWindow) : TeleprompterWindow :=
  mkWindow (text w) (scroll_y w) (is_playing w) (speed w) (font_family w)
    (font_size w) (word_highlight w) (line_spacing_factor w) v (text_align
    w) (countdown_secs w) (_cd_val w) (_cd_timer w) (_scroll_timer w)
    (auto_speed_enabled w) (mic_threshold w) (_mic_smooth w) (_mic_target w)
    (_mic_stream w) (_font_key w) (_f_fm w) (_f_asc w) (_f_line_h w)
    (_f_sp_w w) (_layout_key w) (_l_lines w) (_l_word_xs w) (_l_pause w)
    (_l_notes w) (_l_total w) (_prog_frame w) (_last_fl w) (notes_window w)
    (width w) (height w).

Definition set_text_align (v : Align) (w : TeleprompterWindow) : TeleprompterWindow :=
  mkWindow (text w) (scroll_y w) (is_playing w) (speed w) (font_family w)
    (font_size w) (word_highlight w) (line_spacing_factor w) (focus_ratio w)
    v (countdown_secs w) (_cd_val w) (_cd_timer w) (_scroll_timer w)
    (auto_speed_enabled w) (mic_threshold w) (_mic_smooth w) (_mic_target w)
    (_mic_stream w) (_font_key w) (_f_fm w) (_f_asc w) (_f_line_h w)
    (_f_sp_w w) (_layout_key w) (_l_lines w) (_l_word_xs w) (_l_pause w)
    (_l_notes w) (_l_total w) (_prog_frame w) (_last_fl w) (notes_window w)
    (width w) (height w).

Definition set_countdown_secs (v : Z) (w : TeleprompterWindow) : TeleprompterWindow :=
  mkWindow (text w) (scroll_y w) (is_playing w) (speed w) (font_family w)
    (font_size w) (word_highlight w) (line_spacing_factor w) (focus_ratio w)
    (text_align w) v (_cd_val w) (_cd_timer w) (_scroll_timer w)
    (auto_speed_enabled w) (mic_threshold w) (_mic_smooth w) (_mic_target w)
    (_mic_stream w) (_font_key w) (_f_fm w) (_f_asc w) (_f_line_h w)
    (_f_sp_w w) (_layout_key w) (_l_lines w) (_l_word_xs w) (_l_pause w)
    (_l_notes w) (_l_total w) (_prog_frame w) (_last_fl w) (notes_window w)
    (width w) (height w).

Definition set_cd_val (v : option Z) (w : TeleprompterWindow) : TeleprompterWindow :=
  mkWindow (text w) (scroll_y w) (is_playing w) (speed w) (font_family w)
    (font_size w) (word_highlight w) (line_spacing_factor w) (focus_ratio w)
    (text_align w) (countdown_secs w) v (_cd_timer w) (_scroll_timer w)
    (auto_speed_enabled w) (mic_threshold w) (_mic_smooth w) (_mic_target w)
    (_mic_stream w) (_font_key w) (_f_fm w) (_f_asc w) (_f_line_h w)
    (_f_sp_w w) (_layout_key w) (_l_lines w) (_l_word_xs w) (_l_pause w)
    (_l_notes w) (_l_total w) (_prog_frame w) (_last_fl w) (notes_window w)
    (width w) (height w).

Definition set_cd_timer (v : bool) (w : TeleprompterWindow) : TeleprompterWindow :=
  mkWindow (text w) (scroll_y w) (is_playing w) (speed w) (font_family w)
    (font_size w) (word_highlight w) (line_spacing_factor w) (focus_ratio w)
    (text_align w) (countdown_secs w) (_cd_val w) v (_scroll_timer w)
    (auto_speed_enabled w) (mic_threshold w) (_mic_smooth w) (_mic_target w)
    (_mic_stream w) (_font_key w) (_f_fm w) (_f_asc w) (_f_line_h w)
    (_f_sp_w w) (_layout_key w) (_l_lines w) (_l_word_xs w) (_l_pause w)
    (_l_notes w) (_l_total w) (_prog_frame w) (_last_fl w) (notes_window w)
    (width w) (height w).

Definition set_scroll_timer (v : bool) (w : TeleprompterWindow) : TeleprompterWindow :=
  mkWindow (text w) (scroll_y w) (is_playing w) (speed w) (font_family w)
    (font_size w) (word_highlight w) (line_spacing_factor w) (focus_ratio w)
    (text_align w) (countdown_secs w) (_cd_val w) (_cd_timer w) v
    (auto_speed_enabled w) (mic_threshold w) (_mic_smooth w) (_mic_target w)
    (_mic_stream w) (_font_key w) (_f_fm w) (_f_asc w) (_f_line_h w)
    (_f_sp_w w) (_layout_key w) (_l_lines w) (_l_word_xs w) (_l_pause w)
    (_l_notes w) (_l_total w) (_prog_frame w) (_last_fl w) (notes_window w)
    (width w) (height w).

Definition set_auto_speed_enabled (v : bool) (w : TeleprompterWindow) : TeleprompterWindow :=
  mkWindow (text w) (scroll_y w) (is_playing w) (speed w) (font_family w)
    (font_size w) (word_highlight w) (line_spacing_factor w) (focus_ratio w)
    (text_align w) (countdown_secs w) (_cd_val w) (_cd_timer w)
    (_scroll_timer w) v (mic_threshold w) (_mic_smooth w) (_mic_target w)
    (_mic_stream w) (_font_key w) (_f_fm w) (_f_asc w) (_f_line_h w)
    (_f_sp_w w) (_layout_key w) (_l_lines w) (_l_word_xs w) (_l_pause w)
    (_l_notes w) (_l_total w) (_prog_frame w) (_last_fl w) (notes_window w)
    (width w) (height w).

Definition set_mic_threshold (v : Q) (w : TeleprompterWindow) : TeleprompterWindow :=
  mkWindow (text w) (scroll_y w) (is_playing w) (speed w) (font_family w)
    (font_size w) (word_highlight w) (line_spacing_factor w) (focus_ratio w)
    (text_align w) (countdown_secs w) (_cd_val w) (_cd_timer w)
    (_scroll_timer w) (auto_speed_enabled w) v (_mic_smooth w) (_mic_target
    w) (_mic_stream w) (_font_key w) (_f_fm w) (_f_asc w) (_f_line_h w)
    (_f_sp_w w) (_layout_key w) (_l_lines w) (_l_word_xs w) (_l_pause w)
    (_l_notes w) (_l_total w) (_prog_frame w) (_last_fl w) (notes_window w)
    (width w) (height w).

Definition set_mic_smooth (v : Q) (w : TeleprompterWindow) : TeleprompterWindow :=
  mkWindow (text w) (scroll_y w) (is_playing w) (speed w) (font_family w)
    (font_size w) (word_highlight w) (line_spacing_factor w) (focus_ratio w)
    (text_align w) (countdown_secs w) (_cd_val w) (_cd_timer w)
    (_scroll_timer w) (auto_speed_enabled w) (mic_threshold w) v
    (_mic_target w) (_mic_stream w) (_font_key w) (_f_fm w) (_f_asc w)
    (_f_line_h w) (_f_sp_w w) (_layout_key w) (_l_lines w) (_l_word_xs w)
    (_l_pause w) (_l_notes w) (_l_total w) (_prog_frame w) (_last_fl w)
    (notes_window w) (width w) (height w).

Definition set_mic_target (v : Q) (w : TeleprompterWindow) : TeleprompterWindow :=
  mkWindow (text w) (scroll_y w) (is_playing w) (speed w) (font_family w)
    (font_size w) (word_highlight w) (line_spacing_factor w) (focus_ratio w)
    (text_align w) (countdown_secs w) (_cd_val w) (_cd_timer w)
    (_scroll_timer w) (auto_speed_enabled w) (mic_threshold w) (_mic_smooth
    w) v (_mic_stream w) (_font_key w) (_f_fm w) (_f_asc w) (_f_line_h w)
    (_f_sp_w w) (_layout_key w) (_l_lines w) (_l_word_xs w) (_l_pause w)
    (_l_notes w) (_l_total w) (_prog_frame w) (_last_fl w) (notes_window w)
    (width w) (height w).

Definition set_mic_stream (v : option Q) (w : TeleprompterWindow) : TeleprompterWindow :=
  mkWindow (text w) (scroll_y w) (is_playing w) (speed w) (font_family w)
    (font_size w) (word_highlight w) (line_spacing_factor w) (focus_ratio w)
    (text_align w) (countdown_secs w) (_cd_val w) (_cd_timer w)
    (_scroll_timer w) (auto_speed_enabled w) (mic_threshold w) (_mic_smooth
    w) (_mic_target w) v (_font_key w) (_f_fm w) (_f_asc w) (_f_line_h w)
    (_f_sp_w w) (_layout_key w) (_l_lines w) (_l_word_xs w) (_l_pause w)
    (_l_notes w) (_l_total w) (_prog_frame w) (_last_fl w) (notes_window w)
    (width w) (height w).

Definition set_font_key (v : option FontKey) (w : TeleprompterWindow) : TeleprompterWindow :=
  mkWindow (text w) (scroll_y w) (is_playing w) (speed w) (font_family w)
    (font_size w) (word_highlight w) (line_spacing_factor w) (focus_ratio w)
    (text_align w) (countdown_secs w) (_cd_val w) (_cd_timer w)
    (_scroll_timer w) (auto_speed_enabled w) (mic_threshold w) (_mic_smooth
    w) (_mic_target w) (_mic_stream w) v (_f_fm w) (_f_asc w) (_f_line_h w)
    (_f_sp_w w) (_layout_key w) (_l_lines w) (_l_word_xs w) (_l_pause w)
    (_l_notes w) (_l_total w) (_prog_frame w) (_last_fl w) (notes_window w)
    (width w) (height w).

Definition set_f_fm (v : option FontMetrics) (w : TeleprompterWindow) : TeleprompterWindow :=
  mkWindow (text w) (scroll_y w) (is_playing w) (speed w) (font_family w)
    (font_size w) (word_highlight w) (line_spacing_factor w) (focus_ratio w)
    (text_align w) (countdown_secs w) (_cd_val w) (_cd_timer w)
    (_scroll_timer w) (auto_speed_enabled w) (mic_threshold w) (_mic_smooth
    w) (_mic_target w) (_mic_stream w) (_font_key w) v (_f_asc w) (_f_line_h
    w) (_f_sp_w w) (_layout_key w) (_l_lines w) (_l_word_xs w) (_l_pause w)
    (_l_notes w) (_l_total w) (_prog_frame w) (_last_fl w) (notes_window w)
    (width w) (height w).

Definition set_f_asc (v : Z) (w : TeleprompterWindow) : TeleprompterWindow :=
  mkWindow (text w) (scroll_y w) (is_playing w) (speed w) (font_family w)
    (font_size w) (word_highlight w) (line_spacing_factor w) (focus_ratio w)
    (text_align w) (countdown_secs w) (_cd_val w) (_cd_timer w)
    (_scroll_timer w) (auto_speed_enabled w) (mic_threshold w) (_mic_smooth
    w) (_mic_target w) (_mic_stream w) (_font_key w) (_f_fm w) v (_f_line_h
    w) (_f_sp_w w) (_layout_key w) (_l_lines w) (_l_word_xs w) (_l_pause w)
    (_l_notes w) (_l_total w) (_prog_frame w) (_last_fl w) (notes_window w)
    (width w) (height w).

Definition set_f_line_h (v : Z) (w : TeleprompterWindow) : TeleprompterWindow :=
  mkWindow (text w) (scroll_y w) (is_playing w) (speed w) (font_family w)
    (font_size w) (word_highlight w) (line_spacing_factor w) (focus_ratio w)
    (text_align w) (countdown_secs w) (_cd_val w) (_cd_timer w)
    (_scroll_timer w) (auto_speed_enabled w) (mic_threshold w) (_mic_smooth
    w) (_mic_target w) (_mic_stream w) (_font_key w) (_f_fm w) (_f_asc w) v
    (_f_sp_w w) (_layout_key w) (_l_lines w) (_l_word_xs w) (_l_pause w)
    (_l_notes w) (_l_total w) (_prog_frame w) (_last_fl w) (notes_window w)
    (width w) (height w).

Definition set_f_sp_w (v : Z) (w : TeleprompterWindow) : TeleprompterWindow :=
  mkWindow (text w) (scroll_y w) (is_playing w) (speed w) (font_family w)
    (font_size w) (word_highlight w) (line_spacing_factor w) (focus_ratio w)
    (text_align w) (countdown_secs w) (_cd_val w) (_cd_timer w)
    (_scroll_timer w) (auto_speed_enabled w) (mic_threshold w) (_mic_smooth
    w) (_mic_target w) (_mic_stream w) (_font_key w) (_f_fm w) (_f_asc w)
    (_f_line_h w) v (_layout_key w) (_l_lines w) (_l_word_xs w) (_l_pause w)
    (_l_notes w) (_l_total w) (_prog_frame w) (_last_fl w) (notes_window w)
    (width w) (height w).

Definition set_layout_key (v : option LayoutKey) (w : TeleprompterWindow) : TeleprompterWindow :=
  mkWindow (text w) (scroll_y w) (is_playing w) (speed w) (font_family w)
    (font_size w) (word_highlight w) (line_spacing_factor w) (focus_ratio w)
    (text_align w) (countdown_secs w) (_cd_val w) (_cd_timer w)
    (_scroll_timer w) (auto_speed_enabled w) (mic_threshold w) (_mic_smooth
    w) (_mic_target w) (_mic_stream w) (_font_key w) (_f_fm w) (_f_asc w)
    (_f_line_h w) (_f_sp_w w) v (_l_lines w) (_l_word_xs w) (_l_pause w)
    (_l_notes w) (_l_total w) (_prog_frame w) (_last_fl w) (notes_window w)
    (width w) (height w).

Definition set_l_lines (v : list string) (w : TeleprompterWindow) : TeleprompterWindow :=
  mkWindow (text w) (scroll_y w) (is_playing w) (speed w) (font_family w)
    (font_size w) (word_highlight w) (line_spacing_factor w) (focus_ratio w)
    (text_align w) (countdown_secs w) (_cd_val w) (_cd_timer w)
    (_scroll_timer w) (auto_speed_enabled w) (mic_threshold w) (_mic_smooth
    w) (_mic_target w) (_mic_stream w) (_font_key w) (_f_fm w) (_f_asc w)
    (_f_line_h w) (_f_sp_w w) (_layout_key w) v (_l_word_xs w) (_l_pause w)
    (_l_notes w) (_l_total w) (_prog_frame w) (_last_fl w) (notes_window w)
    (width w) (height w).

Definition set_l_word_xs (v : list (list (string * Z))) (w : TeleprompterWindow) : TeleprompterWindow :=
  mkWindow (text w) (scroll_y w) (is_playing w) (speed w) (font_family w)
    (font_size w) (word_highlight w) (line_spacing_factor w) (focus_ratio w)
    (text_align w) (countdown_secs w) (_cd_val w) (_cd_timer w)
    (_scroll_timer w) (auto_speed_enabled w) (mic_threshold w) (_mic_smooth
    w) (_mic_target w) (_mic_stream w) (_font_key w) (_f_fm w) (_f_asc w)
    (_f_line_h w) (_f_sp_w w) (_layout_key w) (_l_lines w) v (_l_pause w)
    (_l_notes w) (_l_total w) (_prog_frame w) (_last_fl w) (notes_window w)
    (width w) (height w).

Definition set_l_pause (v : gset Z) (w : TeleprompterWindow) : TeleprompterWindow :=
  mkWindow (text w) (scroll_y w) (is_playing w) (speed w) (font_family w)
    (font_size w) (word_highlight w) (line_spacing_factor w) (focus_ratio w)
    (text_align w) (countdown_secs w) (_cd_val w) (_cd_timer w)
    (_scroll_timer w) (auto_speed_enabled w) (mic_threshold w) (_mic_smooth
    w) (_mic_target w) (_mic_stream w) (_font_key w) (_f_fm w) (_f_asc w)
    (_f_line_h w) (_f_sp_w w) (_layout_key w) (_l_lines w) (_l_word_xs w) v
    (_l_notes w) (_l_total w) (_prog_frame w) (_last_fl w) (notes_window w)
    (width w) (height w).

Definition set_l_notes (v : gmap Z string) (w : TeleprompterWindow) : TeleprompterWindow :=
  mkWindow (text w) (scroll_y w) (is_playing w) (speed w) (font_family w)
    (font_size w) (word_highlight w) (line_spacing_factor w) (focus_ratio w)
    (text_align w) (countdown_secs w) (_cd_val w) (_cd_timer w)
    (_scroll_timer w) (auto_speed_enabled w) (mic_threshold w) (_mic_smooth
    w) (_mic_target w) (_mic_stream w) (_font_key w) (_f_fm w) (_f_asc w)
    (_f_line_h w) (_f_sp_w w) (_layout_key w) (_l_lines w) (_l_word_xs w)
    (_l_pause w) v (_l_total w) (_prog_frame w) (_last_fl w) (notes_window
    w) (width w) (height w).

Definition set_l_total (v : Q) (w : TeleprompterWindow) : TeleprompterWindow :=
  mkWindow (text w) (scroll_y w) (is_playing w) (speed w) (font_family w)
    (font_size w) (word_highlight w) (line_spacing_factor w) (focus_ratio w)
    (text_align w) (countdown_secs w) (_cd_val w) (_cd_timer w)
    (_scroll_timer w) (auto_speed_enabled w) (mic_threshold w) (_mic_smooth
    w) (_mic_target w) (_mic_stream w) (_font_key w) (_f_fm w) (_f_asc w)
    (_f_line_h w) (_f_sp_w w) (_layout_key w) (_l_lines w) (_l_word_xs w)
    (_l_pause w) (_l_notes w) v (_prog_frame w) (_last_fl w) (notes_window
    w) (width w) (height w).

Definition set_prog_frame (v : Z) (w : TeleprompterWindow) : TeleprompterWindow :=
  mkWindow (text w) (scroll_y w) (is_playing w) (speed w) (font_family w)
    (font_size w) (word_highlight w) (line_spacing_factor w) (focus_ratio w)
    (text_align w) (countdown_secs w) (_cd_val w) (_cd_timer w)
    (_scroll_timer w) (auto_speed_enabled w) (mic_threshold w) (_mic_smooth
    w) (_mic_target w) (_mic_stream w) (_font_key w) (_f_fm w) (_f_asc w)
    (_f_line_h w) (_f_sp_w w) (_layout_key w) (_l_lines w) (_l_word_xs w)
    (_l_pause w) (_l_notes w) (_l_total w) v (_last_fl w) (notes_window w)
    (width w) (height w).

Definition set_last_fl (v : Z) (w : TeleprompterWindow) : TeleprompterWindow :=
  mkWindow (text w) (scroll_y w) (is_playing w) (speed w) (font_family w)
    (font_size w) (word_highlight w) (line_spacing_factor w) (focus_ratio w)
    (text_align w) (countdown_secs w) (_cd_val w) (_cd_timer w)
    (_scroll_timer w) (auto_speed_enabled w) (mic_threshold w) (_mic_smooth
    w) (_mic_target w) (_mic_stream w) (_font_key w) (_f_fm w) (_f_asc w)
    (_f_line_h w) (_f_sp_w w) (_layout_key w) (_l_lines w) (_l_word_xs w)
    (_l_pause w) (_l_notes w) (_l_total w) (_prog_frame w) v (notes_window
    w) (width w) (height w).

Definition set_notes_window (v : NotesWindow) (w : TeleprompterWindow) : TeleprompterWindow :=
  mkWindow (text w) (scroll_y w) (is_playing w) (speed w) (font_family w)
    (font_size w) (word_highlight w) (line_spacing_factor w) (focus_ratio w)
    (text_align w) (countdown_secs w) (_cd_val w) (_cd_timer w)
    (_scroll_timer w) (auto_speed_enabled w) (mic_threshold w) (_mic_smooth
    w) (_mic_target w) (_mic_stream w) (_font_key w) (_f_fm w) (_f_asc w)
    (_f_line_h w) (_f_sp_w w) (_layout_key w) (_l_lines w) (_l_word_xs w)
    (_l_pause w) (_l_notes w) (_l_total w) (_prog_frame w) (_last_fl w) v
    (width w) (height w).

Definition set_width (v : Z) (w : TeleprompterWindow) : TeleprompterWindow :=
  mkWindow (text w) (scroll_y w) (is_playing w) (speed w) (font_family w)
    (font_size w) (word_highlight w) (line_spacing_factor w) (focus_ratio w)
    (text_align w) (countdown_secs w) (_cd_val w) (_cd_timer w)
    (_scroll_timer w) (auto_speed_enabled w) (mic_threshold w) (_mic_smooth
    w) (_mic_target w) (_mic_stream w) (_font_key w) (_f_fm w) (_f_asc w)
    (_f_line_h w) (_f_sp_w w) (_layout_key w) (_l_lines w) (_l_word_xs w)
    (_l_pause w) (_l_notes w) (_l_total w) (_prog_frame w) (_last_fl w)
    (notes_window w) v (height w).

Definition set_height (v : Z) (w : TeleprompterWindow) : TeleprompterWindow :=
  mkWindow (text w) (scroll_y w) (is_playing w) (speed w) (font_family w)
    (font_size w) (word_highlight w) (line_spacing_factor w) (focus_ratio w)
    (text_align w) (countdown_secs w) (_cd_val w) (_cd_timer w)
    (_scroll_timer w) (auto_speed_enabled w) (mic_threshold w) (_mic_smooth
    w) (_mic_target w) (_mic_stream w) (_font_key w) (_f_fm w) (_f_asc w)
    (_f_line_h w) (_f_sp_w w) (_layout_key w) (_l_lines w) (_l_word_xs w)
    (_l_pause w) (_l_notes w) (_l_total w) (_prog_frame w) (_last_fl w)
    (notes_window w) (width w) v.

(** ** Line geometry: [_line_x] and [_word_xs] *)

(** [_line_x(line_w, align, win_w, margin=40)] *)
Definition _line_x (line_w : Z) (align : Align) (win_w : Z) (margin : Z) : Z :=
  match align with
  | AlignHCenter => Z.max 0 (Z.shiftr (win_w - line_w) 1)
  | AlignRight => Z.max 0 (win_w - margin - line_w)
  | AlignLeft => margin
  end.

(** [sum(fm.horizontalAdvance(w) for w in words)] *)
Definition sum_advance (adv : string -> Z) (words : list string) : Z :=
  foldr Z.add 0 (map adv words).

(** The loop of [_word_xs]: each word at [x], then [x] moves on by the
    word and one space. *)
Fixpoint word_xs_from (adv : string -> Z) (sp_w x : Z) (words : list string)
  : list (string * Z) :=
  match words with
  | [] => []
  | w :: ws => (w, x) :: word_xs_from adv sp_w (x + adv w + sp_w) ws
  end.

Definition _word_xs (words : list string) (adv : string -> Z)
    (sp_w : Z) (align : Align) (win_w : Z) : list (string * Z) :=
  let total := sum_advance adv words + sp_w * (Z.of_nat (length words) - 1) in
  let x0 := _line_x total align win_w 40 in
  word_xs_from adv sp_w x0 words.

(** ** The greedy wrapper (inner loop of [_ensure_layout])

    [wrap_words adv sp_w mw cur_ws cur_w words] runs the loop
    [for word in para.split()] from the accumulator [(cur_ws, cur_w)] and
    returns the word lists flushed, the last one by the [if cur_ws] after
    the loop. *)
Definition flush (cur_ws : list string) : list (list string) :=
  match cur_ws with
  | [] => []
  | _ :: _ => [cur_ws]
  end.

Fixpoint wrap_words (adv : string -> Z) (sp_w mw : Z)
    (cur_ws : list string) (cur_w : Z) (words : list string)
  : list (list string) :=
  match words with
  | [] => flush cur_ws
  | word :: rest =>
      let ww := adv word in
      let needed := match cur_ws with [] => ww | _ :: _ => sp_w + ww end in
      if cur_w + needed <=? mw
      then wrap_words adv sp_w mw (cur_ws ++ [word]) (cur_w + needed) rest
      else flush cur_ws ++ wrap_words adv sp_w mw [word] ww rest
  end.

(** The content width of a line of words: the words and the spaces
    between them. *)
Definition line_width (adv : string -> Z) (sp_w : Z) (ws : list string) : Z :=
  sum_advance adv ws + sp_w * (Z.of_nat (length ws) - 1).

(** ** Layout of a script *)

(** The four locals [lines], [wxs], [pauses], [notes] of the rebuild. *)
Record Layout : Type := mkLayout {
  lines : list string;
  wxs : list (list (string * Z));
  pauses : gset Z;
  notes : gmap Z string
}.

Definition empty_layout : Layout := mkLayout [] [] ∅ ∅.

(** [fm.horizontalAdvance] on the cached metrics. *)
Definition advance_of (fm : option FontMetrics) (s : string) : Z :=
  match fm with
  | Some m => horizontalAdvance m s
  | None => 0
  end.

(** One turn of [for raw in self.text.split('\n')]. *)
Definition layout_para (adv : string -> Z) (sp_w : Z) (align : Align) (W : Z)
    (acc : Layout) (raw : string) : Layout :=
  let mw := W - 80 in
  let note := strip <$> note_search raw in
  let para := strip (note_sub raw) in
  let fi := Z.of_nat (length (lines acc)) in
  let acc' :=
    if is_empty para then
      mkLayout (lines acc ++ [EmptyString]) (wxs acc ++ [[]])
               (pauses acc) (notes acc)
    else if String.eqb para _PAUSE_TAG then
      mkLayout (lines acc ++ [_PAUSE_TAG]) (wxs acc ++ [[]])
               ({[ fi ]} ∪ pauses acc) (notes acc)
    else
      let flushed := wrap_words adv sp_w mw [] 0 (split_ws para) in
      mkLayout (lines acc ++ map join_sp flushed)
               (wxs acc ++ map (fun ws => _word_xs ws adv sp_w align W) flushed)
               (pauses acc) (notes acc)
  in
  match note with
  | Some n => mkLayout (lines acc') (wxs acc') (pauses acc') (<[ fi := n ]> (notes acc'))
  | None => acc'
  end.

Definition layout_paras (adv : string -> Z) (sp_w : Z) (align : Align) (W : Z)
    (acc : Layout) (raws : list string) : Layout :=
  fold_left (layout_para adv sp_w align W) raws acc.

Definition build_layout (adv : string -> Z) (sp_w : Z) (align : Align) (W : Z)
    (text : string) : Layout :=
  layout_paras adv sp_w align W empty_layout (split_nl text).

(** ** Example collaborator

    A fixed-pitch font for the worked examples: every character advances
    10 pixels, lines are 50 pixels apart (60 with the initial spacing
    factor 1.2), the ascent is 40. *)
Definition fixed10 : FontMetrics :=
  mkFontMetrics (fun s => 10 * Z.of_nat (String.length s)) 50 40.

Definition QFontMetrics10 (family : string) (size : Z) : FontMetrics := fixed10.

(** ** The engine *)

Section Engine.

(** [QFontMetrics(QFont(family, size, QFont.Bold))] *)
Variable QFontMetrics : string -> Z -> FontMetrics.

(** The attributes as [__init__] leaves them, for a widget of the given
    size. *)
Definition init (W H : Z) : TeleprompterWindow :=
  {| text := EmptyString; scroll_y := 0; is_playing := false; speed := 2;
     font_family := "Arial"; font_size := 48; word_highlight := true;
     line_spacing_factor := 1.2; focus_ratio := 0.5;
     text_align := AlignLeft;
     countdown_secs := 3; _cd_val := None; _cd_timer := false;
     _scroll_timer := false;
     auto_speed_enabled := false; mic_threshold := 0.025;
     _mic_smooth := 0; _mic_target := 0; _mic_stream := None;
     _font_key := None; _f_fm := None; _f_asc := 0; _f_line_h := 1;
     _f_sp_w := 8;
     _layout_key := None; _l_lines := []; _l_word_xs := [];
     _l_pause := ∅; _l_notes := ∅; _l_total := 0;
     _prog_frame := 0; _last_fl := -1;
     notes_window := mkNotesWindow None ∅;
     width := W; height := H |}.

(** *** Font and layout caches *)

Definition font_key_of (w : TeleprompterWindow) : FontKey :=
  (font_family w, font_size w, line_spacing_factor w).

Definition _ensure_font (w : TeleprompterWindow) : TeleprompterWindow :=
  let key := font_key_of w in
  if font_key_hit key (_font_key w) then w
  else
    let fm := QFontMetrics (font_family w) (font_size w) in
    let lh := Z.max 1 (py_int (inject_Z (lineSpacing fm) * line_spacing_factor w)) in
    let w := set_f_fm (Some fm) w in
    let w := set_f_asc (ascent fm) w in
    let w := set_f_line_h lh w in
    let w := set_f_sp_w (horizontalAdvance fm " ") w in
    let w := set_font_key (Some key) w in
    set_layout_key None w.

(** The key [_ensure_layout] computes, once the font cache is current. *)
Definition layout_key_of (w : TeleprompterWindow) : LayoutKey :=
  (text w, width w, _font_key w, text_align w).

(** The part of [_ensure_layout] after the cache check. *)
Definition rebuild_layout (w : TeleprompterWindow) : TeleprompterWindow :=
  let key := layout_key_of w in
  let lh := _f_line_h w in
  let l := build_layout (advance_of (_f_fm w)) (_f_sp_w w)
                        (text_align w) (width w) (text w) in
  let w := set_l_lines (lines l) w in
  let w := set_l_word_xs (wxs l) w in
  let w := set_l_pause (pauses l) w in
  let w := set_l_notes (notes l) w in
  let w := set_l_total (inject_Z (Z.of_nat (length (lines l)) * lh)) w in
  let w := set_layout_key (Some key) w in
  set_notes_window (set_all (notes l) (notes_window w)) w.

Definition _ensure_layout (w : TeleprompterWindow) : TeleprompterWindow :=
  let w := _ensure_font w in
  if layout_key_hit (layout_key_of w) (_layout_key w) then w
  else rebuild_layout w.

(** Whether a call of [_ensure_layout] finds both caches current and so
    returns without re-wrapping. *)
Definition layout_cache_hit (w : TeleprompterWindow) : bool :=
  font_key_hit (font_key_of w) (_font_key w)
  && layout_key_hit (layout_key_of w) (_layout_key w).

Definition invalidate_layout (w : TeleprompterWindow) : TeleprompterWindow :=
  let w := set_font_key None w in
  set_layout_key None w.

(** *** Speed buttons *)

Definition _speed_up (w : TeleprompterWindow) : TeleprompterWindow :=
  set_speed (Qmin (speed w + 0.5) 20) w.

Definition _speed_dn (w : TeleprompterWindow) : TeleprompterWindow :=
  set_speed (Qmax (speed w - 0.5) 0.5) w.

(** *** Public API and countdown *)

Definition set_text_ (t : string) (w : TeleprompterWindow) : TeleprompterWindow :=
  let w := set_text t w in
  let w := set_scroll_y 0 w in
  set_layout_key None w.

Definition _start_countdown (w : TeleprompterWindow) : TeleprompterWindow :=
  let w := set_cd_val (Some (countdown_secs w)) w in
  set_cd_timer true w.

Definition _begin_play (w : TeleprompterWindow) : TeleprompterWindow :=
  let w := set_is_playing true w in
  set_scroll_timer true w.

Definition _do_pause (w : TeleprompterWindow) : TeleprompterWindow :=
  let w := set_is_playing false w in
  set_scroll_timer false w.

Definition toggle_play (w : TeleprompterWindow) : TeleprompterWindow :=
  match _cd_val w with
  | Some _ =>
      let w := set_cd_timer false w in
      set_cd_val None w
  | None =>
      if negb (is_playing w) then
        if 0 <? countdown_secs w then _start_countdown w else _begin_play w
      else _do_pause w
  end.

Definition reset (w : TeleprompterWindow) : TeleprompterWindow :=
  let w := set_cd_timer false w in
  let w := set_cd_val None w in
  let w := set_scroll_y 0 w in
  let w := set_is_playing false w in
  let w := set_last_fl (-1) w in
  set_scroll_timer false w.

(** [_cd_tick]; the timer that calls it runs only while [_cd_val] holds
    a number. *)
Definition _cd_tick (w : TeleprompterWindow) : TeleprompterWindow :=
  match _cd_val w with
  | None => w
  | Some n =>
      let n := n - 1 in
      let w := set_cd_val (Some n) w in
      if n <=? 0 then
        let w := set_cd_timer false w in
        let w := set_cd_val None w in
        _begin_play w
      else w
  end.

(** *** The scroll step

    [_scroll_step] in its two halves: [scroll_advance] is the code up to
    and including the call of [_ensure_layout], [scroll_check] is the rest.
    [elapsed] is what [self._elapsed.restart()] returns. *)

Definition scroll_advance (elapsed : Z) (w : TeleprompterWindow)
  : TeleprompterWindow :=
  let dt_ms := Z.max 1 (Z.min elapsed 100) in
  let w :=
    if auto_speed_enabled w
    then set_mic_smooth
           (_mic_smooth w + 0.10 * (_mic_target w - _mic_smooth w))%Q w
    else w in
  let eff := if auto_speed_enabled w then Qmax 0 (_mic_smooth w) else speed w in
  let w := set_scroll_y (scroll_y w + (eff / 16.667) * inject_Z dt_ms)%Q w in
  _ensure_layout w.

(** [fl = int(self.scroll_y / lh)] *)
Definition focus_line (w : TeleprompterWindow) : Z :=
  py_int (scroll_y w / inject_Z (_f_line_h w))%Q.

(** [lh > 0] and [fl != self._last_fl] *)
Definition focus_changed (w : TeleprompterWindow) : bool :=
  (0 <? _f_line_h w) && negb (focus_line w =? _last_fl w).

(** The focus line has changed and the new one is a pause line. *)
Definition pause_hit (w : TeleprompterWindow) : bool :=
  focus_changed w && bool_decide (focus_line w ∈ _l_pause w).

(** [self.scroll_y >= total] *)
Definition at_end (w : TeleprompterWindow) : bool :=
  Qle_bool (_l_total w) (scroll_y w).

Definition scroll_check (w : TeleprompterWindow) : TeleprompterWindow :=
  let lh := _f_line_h w in
  let total := _l_total w in
  let fl := focus_line w in
  if pause_hit w then
    let w := set_last_fl fl w in
    let w := set_scroll_y (inject_Z (fl * lh)) w in
    _do_pause w
  else
    let w :=
      if focus_changed w then
        let w := set_last_fl fl w in
        set_notes_window (set_current (_l_notes w !! fl) (notes_window w)) w
      else w in
    let w :=
      if at_end w then
        let w := set_scroll_y total w in
        let w := set_is_playing false w in
        set_scroll_timer false w
      else w in
    let w := set_prog_frame (_prog_frame w + 1) w in
    if 8 <=? _prog_frame w then set_prog_frame 0 w else w.

Definition _scroll_step (elapsed : Z) (w : TeleprompterWindow)
  : TeleprompterWindow :=
  scroll_check (scroll_advance elapsed w).

(** *** Microphone *)

(** Whether [sounddevice] and [numpy] could be imported. *)
Variable MIC_OK : bool.

(** [start_mic], with the input stream opening without an exception;
    the stream is represented by the threshold its callback captured. *)
Definition start_mic (w : TeleprompterWindow) : TeleprompterWindow :=
  if negb MIC_OK || bool_decide (is_Some (_mic_stream w)) then w
  else set_mic_stream (Some (mic_threshold w)) w.

Definition stop_mic (w : TeleprompterWindow) : TeleprompterWindow :=
  set_mic_stream None w.

(** The callback [cb] of [start_mic], on a block of amplitude [rms]. *)
Definition mic_callback (rms : Q) (w : TeleprompterWindow) : TeleprompterWindow :=
  match _mic_stream w with
  | Some thr =>
      set_mic_target (if negb (Qle_bool rms thr) then speed w else 0) w
  | None => w
  end.

(** *** Keyboard, wheel and resize *)

Definition keyPressEvent (k : Key) (w : TeleprompterWindow) : TeleprompterWindow :=
  match k with
  | Key_Space | Key_Return => toggle_play w
  | Key_Up => _speed_up w
  | Key_Down => _speed_dn w
  | Key_Left => set_scroll_y (Qmax 0 (scroll_y w - 80)) w
  | Key_Right => set_scroll_y (scroll_y w + 80)%Q w
  | Key_R | Key_Escape => reset w
  | Key_Other => w
  end.

Definition wheelEvent (dy : Z) (w : TeleprompterWindow) : TeleprompterWindow :=
  if 0 <? dy then _speed_up w else _speed_dn w.

(** Qt stores the new geometry, then calls [resizeEvent]. *)
Definition resizeEvent (W H : Z) (w : TeleprompterWindow) : TeleprompterWindow :=
  let w := set_width W w in
  let w := set_height H w in
  set_layout_key None w.

(** *** Slots of the control panel *)

Definition _on_speed (v : Z) (w : TeleprompterWindow) : TeleprompterWindow :=
  set_speed (inject_Z v / 2) w.

Definition _on_font (v : Z) (w : TeleprompterWindow) : TeleprompterWindow :=
  invalidate_layout (set_font_size v w).

Definition _on_ls (v : Z) (w : TeleprompterWindow) : TeleprompterWindow :=
  invalidate_layout (set_line_spacing_factor (inject_Z v / 10) w).

Definition _on_align (idx : nat) (w : TeleprompterWindow) : TeleprompterWindow :=
  match [AlignLeft; AlignHCenter; AlignRight] !! idx with
  | Some a => set_layout_key None (set_text_align a w)
  | None => w
  end.

Definition _on_mic (v : bool) (w : TeleprompterWindow) : TeleprompterWindow :=
  let w := set_auto_speed_enabled v w in
  if v then start_mic w else stop_mic w.

Definition on_font_family (f : string) (w : TeleprompterWindow) : TeleprompterWindow :=
  invalidate_layout (set_font_family f w).

Definition on_focus_zone (i : nat) (w : TeleprompterWindow) : TeleprompterWindow :=
  match [0.25; 0.5; 0.75]%Q !! i with
  | Some r => set_focus_ratio r w
  | None => w
  end.

(** *** Painting

    [paintEvent] as the list of draw calls it issues for script lines.
    [None] stands for a Python exception ([IndexError] of a list access,
    [ZeroDivisionError] of [//]). *)

Inductive DrawCmd : Type :=
  | DrawPause (i : Z) (alpha : Z)            (* the dashed PAUSE marker *)
  | DrawLine (i : Z) (alpha : Z)             (* fast path: the whole line *)
  | DrawWords (i : Z) (whi : Z) (alpha : Z). (* word-highlight path *)

(** [range(a, b)] *)
Definition py_range (a b : Z) : list Z :=
  map (fun k : nat => a + Z.of_nat k) (seq 0 (Z.to_nat (b - a))).

(** The body of [for i in range(first_i, last_i)] for one [i >= 0];
    [Some None] is [continue] without a draw call. *)
Definition paint_line (w : TeleprompterWindow) (focus_y start_y fl_idx : Z)
    (fl_frac : Q) (i : Z) : option (option DrawCmd) :=
  match _l_lines w !! Z.to_nat i with
  | None => None
  | Some line =>
      let y := start_y + i * _f_line_h w in
      let ay := y + _f_asc w in
      let dist := Z.abs (ay - focus_y) in
      match _ALPHA_LUT !! Z.to_nat (Z.min dist 511) with
      | None => None
      | Some alpha =>
          if alpha <? 8 then Some None
          else if bool_decide (i ∈ _l_pause w) then Some (Some (DrawPause i alpha))
          else if word_highlight w && (i =? fl_idx) then
            match _l_word_xs w !! Z.to_nat i with
            | None => None
            | Some [] => Some (Some (DrawLine i alpha))
            | Some wxl =>
                let n := Z.of_nat (length wxl) in
                let whi := Z.min (py_int (fl_frac * inject_Z n)) (n - 1) in
                Some (Some (DrawWords i whi alpha))
            end
          else Some (Some (DrawLine i alpha))
      end
  end.

Fixpoint paint_lines (w : TeleprompterWindow) (focus_y start_y fl_idx : Z)
    (fl_frac : Q) (idxs : list Z) : option (list DrawCmd) :=
  match idxs with
  | [] => Some []
  | i :: rest =>
      match paint_line w focus_y start_y fl_idx fl_frac i with
      | None => None
      | Some c =>
          match paint_lines w focus_y start_y fl_idx fl_frac rest with
          | None => None
          | Some cs => Some (match c with Some d => d :: cs | None => cs end)
          end
      end
  end.

(** The lines [paintEvent] visits, for a window whose layout is current. *)
Definition visible_range (w : TeleprompterWindow) : list Z :=
  let lh := _f_line_h w in
  let focus_y := py_int (inject_Z (height w) * focus_ratio w) in
  let start_y := focus_y - py_int (scroll_y w) in
  let first_i := Z.max 0 ((- start_y - lh * 2) / lh) in
  let last_i := Z.min (Z.of_nat (length (_l_lines w)))
                      (first_i + (height w + lh * 4) / lh + 1) in
  py_range first_i last_i.

Definition paintEvent (w : TeleprompterWindow)
  : TeleprompterWindow * option (list DrawCmd) :=
  let H := height w in
  let focus_y := py_int (inject_Z H * focus_ratio w) in
  match _cd_val w with
  | Some _ => (_ensure_font w, Some [])
  | None =>
      if is_empty (text w) then (w, Some [])
      else
        let w := _ensure_layout w in
        let lh := _f_line_h w in
        let frac := if lh =? 0 then 0%Q else (scroll_y w / inject_Z lh)%Q in
        let fl_idx := py_int frac in
        let fl_frac := (frac - inject_Z fl_idx)%Q in
        let start_y := focus_y - py_int (scroll_y w) in
        if lh =? 0 then (w, None)
        else (w, paint_lines w focus_y start_y fl_idx fl_frac (visible_range w))
  end.

(** *** Events

    What the Qt event loop can deliver to the window.  Timers fire only
    while they run; sliders and spin boxes deliver values of their range
    ([setRange] in [ControlPanel._build_ui], [_tab_display], [_tab_mic]);
    the window is never narrower than [setMinimumSize(640, 420)]; the
    microphone controls exist only when [MIC_OK]. *)

Inductive Event : Type :=
  | EvSetText (t : string)
  | EvTogglePlay
  | EvReset
  | EvCdTimeout
  | EvScrollTimeout (elapsed : Z)
  | EvKey (k : Key)
  | EvWheel (dy : Z)
  | EvResize (W H : Z)
  | EvPaint
  | EvSpeedSlider (v : Z)
  | EvCountdownSpin (v : Z)
  | EvFontSlider (v : Z)
  | EvLineSpacingSlider (v : Z)
  | EvFontFamily (f : string)
  | EvAlign (idx : nat)
  | EvFocusZone (i : nat)
  | EvWordHighlight (b : bool)
  | EvMic (b : bool)
  | EvThresholdSlider (v : Z)
  | EvAudio (rms : Q).

Definition handle (e : Event) (w : TeleprompterWindow) : TeleprompterWindow :=
  match e with
  | EvSetText t => set_text_ t w
  | EvTogglePlay => toggle_play w
  | EvReset => reset w
  | EvCdTimeout => if _cd_timer w then _cd_tick w else w
  | EvScrollTimeout elapsed =>
      if _scroll_timer w then _scroll_step elapsed w else w
  | EvKey k => keyPressEvent k w
  | EvWheel dy => wheelEvent dy w
  | EvResize W H => resizeEvent (Z.max 640 W) (Z.max 420 H) w
  | EvPaint => fst (paintEvent w)
  | EvSpeedSlider v => _on_speed (bounded 1 40 v) w
  | EvCountdownSpin v => set_countdown_secs (bounded 0 10 v) w
  | EvFontSlider v => _on_font (bounded 16 120 v) w
  | EvLineSpacingSlider v => _on_ls (bounded 10 30 v) w
  | EvFontFamily f => on_font_family f w
  | EvAlign idx => _on_align idx w
  | EvFocusZone i => on_focus_zone i w
  | EvWordHighlight b => set_word_highlight b w
  | EvMic b => if MIC_OK then _on_mic b w else w
  | EvThresholdSlider v =>
      if MIC_OK then set_mic_threshold (inject_Z (bounded 1 20 v) / 200) w else w
  | EvAudio rms => mic_callback rms w
  end.

(** The window after a sequence of events, oldest first. *)
Definition run (es : list Event) (w : TeleprompterWindow) : TeleprompterWindow :=
  fold_left (fun w e => handle e w) es w.

(** A state the window can be in: some events after [__init__]. *)
Definition reachable (w : TeleprompterWindow) : Prop :=
  exists W H es, w = run es (init (Z.max 640 W) (Z.max 420 H)).


(** ** Predicates used in the statements *)

(** The wrap invariant of one line of words, for maximum width [mw]:
    two or more words fit in [mw], and a line wider than [mw] is one word
    that is itself wider than [mw]. *)
Definition wrap_invariant (adv : string -> Z) (sp_w mw : Z) (ws : list string)
  : Prop :=
  ((2 <= length ws)%nat -> line_width adv sp_w ws <= mw)
  /\ (ws <> [] -> mw < line_width adv sp_w ws ->
      exists w, ws = [w] /\ mw < adv w).

(** The three layout tables fit together: one word-offset list per
    line, an empty one for every pause line and for every empty line. *)
Definition layout_ok (ls : list string) (xs : list (list (string * Z)))
    (ps : gset Z) : Prop :=
  length ls = length xs
  /\ (forall i : Z, i ∈ ps -> 0 <= i /\ xs !! Z.to_nat i = Some [])
  /\ (forall i : nat, ls !! i = Some EmptyString -> xs !! i = Some []).

(** What holds of the window in every state it can be in. *)
Definition engine_inv (w : TeleprompterWindow) : Prop :=
  (0 <= scroll_y w)%Q
  /\ (0.5 <= speed w <= 20)%Q
  /\ 1 <= _f_line_h w
  /\ (0 <= _l_total w)%Q
  /\ is_playing w = _scroll_timer w
  /\ layout_ok (_l_lines w) (_l_word_xs w) (_l_pause w).

(** While the layout cache is current, the cached total height is the
    number of lines times the line height. *)
Definition total_current (w : TeleprompterWindow) : Prop :=
  layout_cache_hit w = true ->
  _l_total w = inject_Z (Z.of_nat (length (_l_lines w)) * _f_line_h w).

(** A draw call of the word-highlight path is in order when its line is
    neither a pause line nor an empty line and has word offsets. *)
Definition highlight_ok (w : TeleprompterWindow) (d : DrawCmd) : Prop :=
  match d with
  | DrawWords i _ _ =>
      (i ∉ _l_pause w)
      /\ _l_lines w !! Z.to_nat i <> Some EmptyString
      /\ exists wxl, _l_word_xs w !! Z.to_nat i = Some wxl /\ wxl <> []
  | _ => True
  end.

(** Text without brackets and newlines: what stands around and inside
    the brackets of a line with exactly one note directive. *)
Definition is_bracket (c : ascii) : bool :=
  ((ord c =? 91) || (ord c =? 93) || (ord c =? 10))%N.

Fixpoint plain (s : string) : bool :=
  match s with
  | EmptyString => true
  | String c s' => negb (is_bracket c) && plain s'
  end.

(** The script of end-to-end scenario 2; the line break is inside the
    literal. *)
Definition scenario2 : string := "Note here [[remember this]]
more text".

(** The accumulator of the loop: empty with width 0, or a line in
    progress whose width is its content width and which fits when it has
    two words or more. *)
Definition acc_ok (adv : string -> Z) (sp_w mw : Z)
    (cur_ws : list string) (cur_w : Z) : Prop :=
  match cur_ws with
  | [] => cur_w = 0
  | _ :: _ =>
      cur_w = line_width adv sp_w cur_ws
      /\ ((2 <= length cur_ws)%nat -> cur_w <= mw)
  end.

(** ** Example runs

    Scenario 1 of the specification, with no countdown and the speed
    slider at 20 (10 px per frame): after one tick of 100 ms the window is
    playing just above the pause line. *)
Definition scenario1 : string := "Hello world
[PAUSE]
Goodbye".

Definition before_pause_events : list Event :=
  [EvSetText scenario1; EvCountdownSpin 0; EvSpeedSlider 20; EvTogglePlay;
   EvScrollTimeout 100].


(** A script without pause lines, playing at the initial speed. *)
Definition plain_play_events : list Event :=
  [EvSetText "one two three
four five six
seven eight nine"; EvCountdownSpin 0; EvTogglePlay; EvScrollTimeout 16].

(** A one-line script is laid out, then the Right key is pressed. *)
Definition key_right_events : list Event :=
  [EvSetText "Hi"; EvPaint; EvKey Key_Right].

(** The microphone is switched on and hears a loud block. *)
Definition mic_events : list Event := [EvMic true; EvAudio 1].

(** ** Further predicates: words and lines *)

(** A string without whitespace. *)
Fixpoint spaceless (s : string) : bool :=
  match s with
  | EmptyString => true
  | String c s' => negb (is_space c) && spaceless s'
  end.

(** The words one script line contributes to the word-offset table: none
    for a pause line, else the words of the line without its notes. *)
Definition para_words (raw : string) : list string :=
  let para := strip (note_sub raw) in
  if String.eqb para _PAUSE_TAG then [] else split_ws para.

(** How a display line and its word-offset list go together: an empty
    line, a pause line, or a wrapped line whose text splits into the
    words of the list. *)
Definition line_matches (ps : gset Z) (i : nat) (line : string)
    (e : list (string * Z)) : Prop :=
  (line = EmptyString /\ e = [])
  \/ (line = _PAUSE_TAG /\ e = [] /\ Z.of_nat i ∈ ps)
  \/ (split_ws line = map fst e /\ e <> [] /\ line = join_sp (map fst e)).

Definition lines_match (l : Layout) : Prop :=
  forall (i : nat) (line : string) (e : list (string * Z)),
    lines l !! i = Some line -> wxs l !! i = Some e ->
    line_matches (pauses l) i line e.

(** The indices a layout stores point at its lines: notes at existing
    lines, pause indices at lines that hold the pause tag. *)
Definition indices_ok (l : Layout) : Prop :=
  (forall (k : Z) (v : string), notes l !! k = Some v ->
      0 <= k < Z.of_nat (length (lines l)))
  /\ (forall k : Z, k ∈ pauses l ->
        0 <= k /\ lines l !! Z.to_nat k = Some _PAUSE_TAG).

(** ** Further predicates: caches and playback *)

(** The font cache holds the metrics of the font its key names. *)
Definition font_cache_ok (w : TeleprompterWindow) : Prop :=
  forall (fam : string) (size : Z) (fac : Q),
    _font_key w = Some (fam, size, fac) ->
    _f_fm w = Some (QFontMetrics fam size)
    /\ _f_asc w = ascent (QFontMetrics fam size)
    /\ _f_line_h w
       = Z.max 1 (py_int (inject_Z (lineSpacing (QFontMetrics fam size)) * fac))
    /\ _f_sp_w w = horizontalAdvance (QFontMetrics fam size) " ".

(** The layout cache holds the layout of the text, width and alignment
    its key names, built with the cached metrics. *)
Definition layout_cache_ok (w : TeleprompterWindow) : Prop :=
  forall (t : string) (W : Z) (fk : option FontKey) (al : Align),
    _layout_key w = Some (t, W, fk, al) ->
    let l := build_layout (advance_of (_f_fm w)) (_f_sp_w w) al W t in
    _l_lines w = lines l
    /\ _l_word_xs w = wxs l
    /\ _l_pause w = pauses l
    /\ _l_notes w = notes l
    /\ _l_total w = inject_Z (Z.of_nat (length (lines l)) * _f_line_h w).

Definition caches_ok (w : TeleprompterWindow) : Prop :=
  font_cache_ok w /\ layout_cache_ok w.

(** The playback state is one of: counting down (timer running, 1 to 10
    seconds left, not playing), or not counting (timer stopped). *)
Definition playback_ok (w : TeleprompterWindow) : Prop :=
  0 <= countdown_secs w <= 10
  /\ match _cd_val w with
     | Some n => _cd_timer w = true /\ 1 <= n <= 10 /\ is_playing w = false
     | None => _cd_timer w = false
     end.

(** Target and smoothed speed of the auto-speed stay in the range of the
    manual speed. *)
Definition mic_ok (w : TeleprompterWindow) : Prop :=
  (0 <= _mic_target w <= 20)%Q /\ (0 <= _mic_smooth w <= 20)%Q.

(** [n] timeouts of the countdown timer. *)
Definition cd_timeouts (n : nat) (w : TeleprompterWindow) : TeleprompterWindow :=
  Nat.iter n (handle EvCdTimeout) w.

(** ** Further predicates: draw calls *)










(** ** The list of all notes ([NotesWindow.set_all])

    [set_all] writes one block of text per note, in the order of
    [sorted(note_map)].  An entry here is the content of one block: the
    line number shown ([idx + 1]), the context ([Some p] for [p] followed
    by the ellipsis, [None] for the empty context of an index past the
    lines) and the note. *)

Record NoteEntry : Type := mkNoteEntry {
  ne_line : Z;
  ne_ctx : option string;
  ne_note : string
}.

(** [l[i]] for a Python list: a negative index counts from the end;
    [None] is [IndexError]. *)
Definition py_getitem {A : Type} (l : list A) (i : Z) : option A :=
  if 0 <=? i then l !! Z.to_nat i
  else if - Z.of_nat (length l) <=? i
       then l !! Z.to_nat (Z.of_nat (length l) + i)
       else None.

(** [s[:n]] *)
Fixpoint take_str (n : nat) (s : string) : string :=
  match n, s with
  | S n', String c s' => String c (take_str n' s')
  | _, _ => EmptyString
  end.

(** [sorted(note_map)] *)
Definition sorted_keys (note_map : gmap Z string) : list Z :=
  merge_sort Z.le (map_to_list note_map).*1.

(** One turn of [for idx in sorted(note_map)]; [None] is an exception
    ([IndexError] of [lines[idx]], [KeyError] of [note_map[idx]]). *)
Definition note_entry (note_map : gmap Z string) (lines : list string)
    (idx : Z) : option NoteEntry :=
  let ctx :=
    if idx <? Z.of_nat (length lines)
    then match py_getitem lines idx with
         | Some line => Some (Some (take_str 55 line))
         | None => None
         end
    else Some None in
  match ctx, note_map !! idx with
  | Some c, Some n => Some (mkNoteEntry (idx + 1) c n)
  | _, _ => None
  end.

(** The blocks [set_all] writes; none for an empty note map, where the
    source writes its placeholder text instead. *)
Definition set_all_parts (note_map : gmap Z string) (lines : list string)
  : option (list NoteEntry) :=
  mapM (note_entry note_map lines) (sorted_keys note_map).

(** ** Telemetry: [_calc_wpm] and the sync callbacks of the control panel *)

(** [c in s] *)
Fixpoint has_char (c : ascii) (s : string) : bool :=
  match s with
  | EmptyString => false
  | String a s' => Ascii.eqb a c || has_char c s'
  end.

(** [len([w for w in self.text.split() if w and '[' not in w])] *)
Definition wpm_words (t : string) : Z :=
  Z.of_nat (length (List.filter
                      (fun w => negb (is_empty w) && negb (has_char "[" w))
                      (split_ws t))).

Definition _calc_wpm (total_px : Q) (w : TeleprompterWindow) : Z :=
  if Qle_bool total_px 0 then 0
  else py_int ((speed w * 60 / 16.667 * 60)
               * (inject_Z (wpm_words (text w)) / total_px))%Q.

(** [ControlPanel._sync_progress(sy, total)]: the value handed to the
    progress bar and the minutes and seconds of the time label; [None]
    when the method returns without touching either. *)
Definition _sync_progress (sy total : Q) (w : TeleprompterWindow)
  : option (Z * Z * Z) :=
  if Qle_bool total 0 then None
  else
    let v := py_int (Qmin (sy / total) 1 * 1000)%Q in
    let secs := if Qeq_bool (speed w) 0 then 0%Q
                else ((total - sy) / (speed w * 60))%Q in
    let t := py_int secs in
    Some (v, t / 60, t mod 60).

(** The value [_sync_play_btn] hands to the speed slider,
    [v = int(p.speed * 2)], and the value the slider then holds. *)
Definition sync_slider_request (w : TeleprompterWindow) : Z :=
  py_int (speed w * 2)%Q.

Definition sync_slider_value (w : TeleprompterWindow) : Z :=
  bounded 1 40 (sync_slider_request w).

(** The manual speed is a whole number of half units of the slider. *)
Definition half_step (w : TeleprompterWindow) : Prop :=
  exists k : Z, 1 <= k <= 40 /\ (speed w == inject_Z k / 2)%Q.

(** ** Script slots of the control panel *)

(** A Python [dict] from slot names to scripts, in insertion order. *)
Definition Slots : Type := list (string * string).

Definition dict_get (k : string) (d : Slots) : option string :=
  snd <$> List.find (fun kv => String.eqb (fst kv) k) d.

Definition dict_in (k : string) (d : Slots) : bool :=
  existsb (fun kv => String.eqb (fst kv) k) d.

(** [d[k] = v]: an existing key keeps its place. *)
Fixpoint dict_set (k v : string) (d : Slots) : Slots :=
  match d with
  | [] => [(k, v)]
  | (k', v') :: d' =>
      if String.eqb k' k then (k', v) :: d' else (k', v') :: dict_set k v d'
  end.

(** [del d[k]] *)
Definition dict_del (k : string) (d : Slots) : Slots :=
  List.filter (fun kv => negb (String.eqb (fst kv) k)) d.

Definition dict_keys (d : Slots) : list string := map fst d.

(** The slot selector: its items and its current index, -1 when no item
    is current. *)
Record QComboBox : Type := mkCombo {
  cb_items : list string;
  cb_index : Z;
}.

Definition cb_clear : QComboBox := mkCombo [] (-1).

(** [addItem] appends; the first item of an empty box becomes current. *)
Definition cb_addItem (n : string) (cb : QComboBox) : QComboBox :=
  mkCombo (cb_items cb ++ [n])
          (match cb_items cb with [] => 0 | _ :: _ => cb_index cb end).

Fixpoint find_index (n : string) (l : list string) (i : Z) : Z :=
  match l with
  | [] => -1
  | x :: l' => if String.eqb x n then i else find_index n l' (i + 1)
  end.

(** [findText]: the index of the first item equal to [n], or -1. *)
Definition cb_findText (n : string) (cb : QComboBox) : Z :=
  find_index n (cb_items cb) 0.

Definition cb_setCurrentIndex (i : Z) (cb : QComboBox) : QComboBox :=
  mkCombo (cb_items cb) i.

(** [currentText]: the current item, or the empty string. *)
Definition cb_currentText (cb : QComboBox) : string :=
  if cb_index cb <? 0 then EmptyString
  else default EmptyString (cb_items cb !! Z.to_nat (cb_index cb)).

(** The part of [ControlPanel] the slot helpers work on: the ["slots"]
    entry of [_save_data] ([None] when the key is missing), the slot
    selector and the text of the editor. *)
Record ControlPanel : Type := mkPanel {
  _save_data : option Slots;
  _slot_cb : QComboBox;
  _editor : string;
}.

(** [self._save_data.get("slots", {})] *)
Definition slots_of (p : ControlPanel) : Slots := default [] (_save_data p).

Definition _refresh_slots (p : ControlPanel) : ControlPanel :=
  mkPanel (_save_data p)
          (fold_left (fun cb n => cb_addItem n cb) (dict_keys (slots_of p))
                     cb_clear)
          (_editor p).

(** [_save_slot], for the answer [(name, ok)] of the input dialog.
    [write_ok] tells whether [_write_save] returns; when it raises, the
    rest of the method is not run. *)
Definition _save_slot (name : string) (ok write_ok : bool) (p : ControlPanel)
  : ControlPanel :=
  if ok && negb (is_empty (strip name)) then
    let p1 := mkPanel (Some (dict_set (strip name) (_editor p) (slots_of p)))
                      (_slot_cb p) (_editor p) in
    if write_ok then
      let p2 := _refresh_slots p1 in
      let idx := cb_findText (strip name) (_slot_cb p2) in
      if 0 <=? idx
      then mkPanel (_save_data p2) (cb_setCurrentIndex idx (_slot_cb p2))
                   (_editor p2)
      else p2
    else p1
  else p.

Definition _load_slot (p : ControlPanel) : ControlPanel :=
  match dict_get (cb_currentText (_slot_cb p)) (slots_of p) with
  | Some t => mkPanel (_save_data p) (_slot_cb p) t
  | None => p
  end.

Definition _del_slot (write_ok : bool) (p : ControlPanel) : ControlPanel :=
  let n := cb_currentText (_slot_cb p) in
  if dict_in n (slots_of p) then
    let p1 := mkPanel (dict_del n <$> _save_data p) (_slot_cb p) (_editor p) in
    if write_ok then _refresh_slots p1 else p1
  else p.

(** The selector lists the slot names, each once, and its current item
    is the first one unless another was chosen. *)
Definition slots_synced (p : ControlPanel) : Prop :=
  NoDup (dict_keys (slots_of p))
  /\ cb_items (_slot_cb p) = dict_keys (slots_of p).

(** ** PDF export *)

(** The printer page and the three fonts of [_export_pdf]: body
    (Arial 36), title (Arial 52 bold) and pause label (Arial 24). *)
Record Printer : Type := mkPrinter {
  PW : Z;
  PH : Z;
  bfm : FontMetrics;
  tfm : FontMetrics;
  pfm : FontMetrics;
}.

Definition Color : Type := (Z * Z * Z)%type.

Definition title_pen : Color := (30, 30, 30).
Definition rule_pen : Color := (120, 120, 120).
Definition pause_pen : Color := (200, 100, 0).
Definition text_pen : Color := (20, 20, 20).

Inductive PdfFont : Type := TitleFont | BodyFont.

(** What the painter is asked to draw, with the page and the pen colour
    current at the call.  [PdfPauseLabel] is the [drawText] of the pause
    label in the small font. *)
Inductive PdfCmd : Type :=
| PdfText (page : nat) (font : PdfFont) (pen : Color) (x y : Z) (s : string)
| PdfLine (page : nat) (pen : Color) (x1 y1 x2 y2 : Z)
| PdfPauseLabel (page : nat) (pen : Color) (x y : Z).

(** The locals the loop of [_export_pdf] threads: page count, [y], the
    painter's pen and the drawing done so far. *)
Record Pdf : Type := mkPdf {
  pdf_page : nat;
  pdf_y : Z;
  pdf_pen : Color;
  pdf_out : list PdfCmd;
}.

(** [marg = int(PW * 0.09)], [mw = PW - 2 * marg],
    [lh = bfm.lineSpacing() + 10] *)
Definition pdf_marg (pr : Printer) : Z := py_int (inject_Z (PW pr) * 0.09)%Q.
Definition pdf_mw (pr : Printer) : Z := PW pr - 2 * pdf_marg pr.
Definition pdf_lh (pr : Printer) : Z := lineSpacing (bfm pr) + 10.

(** [if y + need > PH - marg: printer.newPage(); y = marg] *)
Definition pdf_break (pr : Printer) (need : Z) (s : Pdf) : Pdf :=
  if PH pr - pdf_marg pr <? pdf_y s + need
  then mkPdf (S (pdf_page s)) (pdf_marg pr) (pdf_pen s) (pdf_out s)
  else s.

Definition pdf_set_pen (c : Color) (s : Pdf) : Pdf :=
  mkPdf (pdf_page s) (pdf_y s) c (pdf_out s).

(** [pnt.drawText(marg, y + bfm.ascent(), txt); y += lh] *)
Definition pdf_draw_text (pr : Printer) (txt : string) (s : Pdf) : Pdf :=
  mkPdf (pdf_page s) (pdf_y s + pdf_lh pr) (pdf_pen s)
        (pdf_out s ++ [PdfText (pdf_page s) BodyFont (pdf_pen s) (pdf_marg pr)
                               (pdf_y s + ascent (bfm pr)) txt]).

(** One turn of [for word in para.split()]. *)
Definition pdf_word (pr : Printer) (sp_w : Z)
    (st : list string * Z * Pdf) (word : string) : list string * Z * Pdf :=
  let '(cur, cur_w, s) := st in
  let ww := horizontalAdvance (bfm pr) word in
  let needed := match cur with [] => ww | _ :: _ => sp_w + ww end in
  if cur_w + needed <=? pdf_mw pr then (cur ++ [word], cur_w + needed, s)
  else
    ([word], ww,
     match cur with
     | [] => s
     | _ :: _ =>
         pdf_draw_text pr (join_sp cur)
           (pdf_set_pen text_pen (pdf_break pr (pdf_lh pr) s))
     end).

(** One turn of [for raw in clean.split('\n')]. *)
Definition pdf_para (pr : Printer) (sp_w : Z) (s : Pdf) (raw : string) : Pdf :=
  let para := strip raw in
  if is_empty para then
    mkPdf (pdf_page s) (pdf_y s + pdf_lh pr / 2) (pdf_pen s) (pdf_out s)
  else
    let s1 := pdf_break pr (pdf_lh pr * 2) s in
    if String.eqb para _PAUSE_TAG then
      let mid := pdf_y s1 + pdf_lh pr / 2 in
      mkPdf (pdf_page s1) (pdf_y s1 + pdf_lh pr) pause_pen
            (pdf_out s1
             ++ [PdfLine (pdf_page s1) pause_pen
                         (pdf_marg pr) mid (PW pr - pdf_marg pr) mid;
                 PdfPauseLabel (pdf_page s1) pause_pen
                               (PW pr / 2 - 38) (mid + ascent (pfm pr) / 2)])
    else
      let '(cur, _, s2) :=
        fold_left (pdf_word pr sp_w) (split_ws para) ([], 0, s1) in
      match cur with
      | [] => s2
      | _ :: _ => pdf_draw_text pr (join_sp cur) (pdf_break pr (pdf_lh pr) s2)
      end.

(** The painter state after the heading and its rule. *)
Definition pdf_heading (pr : Printer) : Pdf :=
  let marg := pdf_marg pr in
  let lh := pdf_lh pr in
  let y1 := marg + lineSpacing (tfm pr) + lh / 2 in
  mkPdf 0 (y1 + lh) rule_pen
        [PdfText 0 TitleFont title_pen marg (marg + ascent (tfm pr)) "Script";
         PdfLine 0 rule_pen marg y1 (PW pr - marg) y1].

Definition pdf_body (pr : Printer) (editor_text : string) : Pdf :=
  let sp_w := horizontalAdvance (bfm pr) " " in
  let clean := note_sub editor_text in
  fold_left (pdf_para pr sp_w) (split_nl clean) (pdf_heading pr).

(** [_export_pdf]: [None] when it returns before drawing (no print
    support, dialog cancelled, or the painter does not start). *)
Definition _export_pdf (PDF_PRINT_OK : bool) (path : string) (begin_ok : bool)
    (pr : Printer) (editor_text : string) : option (list PdfCmd) :=
  if negb PDF_PRINT_OK then None
  else if is_empty path then None
  else if negb begin_ok then None
  else Some (pdf_out (pdf_body pr editor_text)).

(** What a paragraph of the script contributes to the page: nothing for
    a blank one, a pause mark ([None]) for a pause tag, else its wrapped
    lines. *)
Definition para_items (adv : string -> Z) (sp_w mw : Z) (raw : string)
  : list (option string) :=
  let para := strip (note_sub raw) in
  if is_empty para then []
  else if String.eqb para _PAUSE_TAG then [None]
  else map (fun ws => Some (join_sp ws))
           (wrap_words adv sp_w mw [] 0 (split_ws para)).

(** The body text lines and pause marks of a drawing, in drawing order. *)
Definition pdf_item (c : PdfCmd) : list (option string) :=
  match c with
  | PdfText _ BodyFont _ _ _ s => [Some s]
  | PdfPauseLabel _ _ _ _ => [None]
  | _ => []
  end.

Definition pdf_items (out : list PdfCmd) : list (option string) :=
  concat (map pdf_item out).

Definition cmd_page (c : PdfCmd) : nat :=
  match c with
  | PdfText p _ _ _ _ _ => p
  | PdfLine p _ _ _ _ _ => p
  | PdfPauseLabel p _ _ _ => p
  end.

(** A body command lies on the page: a text line's band
    [[y - ascent, y - ascent + lh]], a pause rule's height, and the left
    edge at the margin. *)
Definition cmd_on_page (pr : Printer) (c : PdfCmd) : Prop :=
  match c with
  | PdfText _ BodyFont _ x y _ =>
      x = pdf_marg pr
      /\ pdf_marg pr <= y - ascent (bfm pr)
      /\ y - ascent (bfm pr) + pdf_lh pr <= PH pr - pdf_marg pr
  | PdfText _ TitleFont _ x y _ =>
      x = pdf_marg pr /\ y = pdf_marg pr + ascent (tfm pr)
  | PdfLine _ _ x1 y1 x2 y2 =>
      x1 = pdf_marg pr /\ x2 = PW pr - pdf_marg pr /\ y1 = y2
      /\ pdf_marg pr <= y1 <= PH pr - pdf_marg pr
  | PdfPauseLabel _ _ x y => x = PW pr / 2 - 38
  end.


(** A line flushed inside the word loop, and a run of them. *)
Definition pdf_flush_line (pr : Printer) (s : Pdf) (ws : list string) : Pdf :=
  pdf_draw_text pr (join_sp ws)
    (pdf_set_pen text_pen (pdf_break pr (pdf_lh pr) s)).

Definition pdf_flush_lines (pr : Printer) (s : Pdf) (ls : list (list string))
  : Pdf :=
  fold_left (pdf_flush_line pr) ls s.

(** The line flushed after the word loop: the pen is not set. *)
Definition pdf_last_line (pr : Printer) (s : Pdf) (cur : list string) : Pdf :=
  match cur with
  | [] => s
  | _ :: _ => pdf_draw_text pr (join_sp cur) (pdf_break pr (pdf_lh pr) s)
  end.

Definition cmd_pen (c : PdfCmd) : Color :=
  match c with
  | PdfText _ _ pen _ _ _ => pen
  | PdfLine _ pen _ _ _ _ => pen
  | PdfPauseLabel _ pen _ _ => pen
  end.

(** The drawing so far extends [base] by commands that lie on the page,
    [y] is not above the top margin, and pages only go forward. *)
Definition pdf_inv (pr : Printer) (base : list PdfCmd) (s : Pdf) : Prop :=
  pdf_marg pr <= pdf_y s
  /\ (exists body, pdf_out s = base ++ body /\ Forall (cmd_on_page pr) body)
  /\ Forall (fun c => (cmd_page c <= pdf_page s)%nat) (pdf_out s)
  /\ StronglySorted le (map cmd_page (pdf_out s)).

(** No newline among the first [n] characters. *)
Fixpoint skip_ok (n : nat) (s : string) : bool :=
  match n, s with
  | O, _ => true
  | S _, EmptyString => true
  | S k, String c s' => negb (is_newline c) && skip_ok k s'
  end.

Definition head_line (s : string) : string := hd EmptyString (split_nl s).


(** The threshold stays in the range of its slider, and an open input
    stream holds a threshold of that range. *)
Definition stream_ok (w : TeleprompterWindow) : Prop :=
  (1 / 200 <= mic_threshold w <= 1 / 10)%Q
  /\ forall thr, _mic_stream w = Some thr ->
       MIC_OK = true /\ (1 / 200 <= thr <= 1 / 10)%Q.


(** ** Window placement *)

Record QRect : Type := mkRect { r_x : Z; r_y : Z; r_w : Z; r_h : Z }.

(** [_arrange_windows]: the geometry asked for the panel and for the
    prompter, from the available geometry of the primary screen ([None]
    when there is no screen) and the size of the panel after
    [adjustSize]. *)
Definition _arrange_windows (screen : option QRect) (panel_w panel_h : Z)
  : option (QRect * QRect) :=
  match screen with
  | None => None
  | Some sg =>
      let pw := panel_w in
      let ph := Z.min panel_h (r_h sg - 40) in
      let px_pos := r_x sg + 20 in
      let py_pos := r_y sg + (r_h sg - ph) / 2 in
      let gap := 12 in
      let tx := px_pos + pw + gap in
      let ty := py_pos in
      let tw := Z.max 640 (r_x sg + r_w sg - tx - 20) in
      let th := Z.min 560 (r_h sg - 40) in
      Some (mkRect px_pos py_pos pw ph, mkRect tx ty tw th)
  end.

(** ** Colours and opacity *)

Record Theme : Type := mkTheme {
  th_bg : Color;
  th_text : Color;
  th_opacity : Q;
}.

Definition THEMES : list (string * Theme) :=
  [ ("Dark",          mkTheme (0, 0, 0)       (255, 255, 255) 0.70%Q);
    ("Light",         mkTheme (235, 235, 230) (18, 18, 18)    0.92%Q);
    ("High Contrast", mkTheme (0, 0, 0)       (255, 255, 0)   0.97%Q);
    ("Solarized",     mkTheme (0, 43, 54)     (253, 246, 227) 0.88%Q);
    ("Cinema Blue",   mkTheme (5, 10, 30)     (180, 215, 255) 0.85%Q) ].

Definition theme_get (name : string) : option Theme :=
  snd <$> List.find (fun kv => String.eqb (fst kv) name) THEMES.

(** The colour settings of the prompter, its cached background colour
    (the colour and the alpha given to [setAlphaF]), and the opacity
    slider and label of the control panel. *)
Record Display : Type := mkDisplay {
  text_color : Color;
  bg_color : Color;
  bg_opacity : Q;
  _c_bg : Color * Q;
  _opa_sl : Z;
  _opa_lbl : Z;
}.

Definition init_display : Display :=
  mkDisplay (255, 255, 255) (0, 0, 0) 0.70%Q ((0, 0, 0), 0.70%Q) 70 70.

Definition _rebuild_color_cache (d : Display) : Display :=
  mkDisplay (text_color d) (bg_color d) (bg_opacity d)
            (bg_color d, bg_opacity d) (_opa_sl d) (_opa_lbl d).

Definition _on_opacity (v : Z) (d : Display) : Display :=
  _rebuild_color_cache
    (mkDisplay (text_color d) (bg_color d) (inject_Z v / 100)%Q (_c_bg d)
               (_opa_sl d) v).

Definition _apply_theme (name : string) (d : Display) : Display :=
  match theme_get name with
  | None => d
  | Some t =>
      let v := py_int (th_opacity t * 100)%Q in
      _rebuild_color_cache
        (mkDisplay (th_text t) (th_bg t) (th_opacity t) (_c_bg d)
                   (bounded 0 95 v) v)
  end.

(** The colour dialogs, [None] for a cancelled dialog. *)
Definition _pick_text_color (c : option Color) (d : Display) : Display :=
  match c with
  | Some c => mkDisplay c (bg_color d) (bg_opacity d) (_c_bg d)
                        (_opa_sl d) (_opa_lbl d)
  | None => d
  end.

Definition _pick_bg_color (c : option Color) (d : Display) : Display :=
  match c with
  | Some c => _rebuild_color_cache
                (mkDisplay (text_color d) c (bg_opacity d) (_c_bg d)
                           (_opa_sl d) (_opa_lbl d))
  | None => d
  end.

Inductive DisplayEvent : Type :=
  | DispOpacitySlider (v : Z)
  | DispTheme (name : string)
  | DispPickText (c : option Color)
  | DispPickBg (c : option Color)
  | DispInvalidate.

(** The opacity slider has the range 0..95 and calls [_on_opacity] when
    its value changes; [invalidate_layout] rebuilds the colour cache. *)
Definition handle_display (e : DisplayEvent) (d : Display) : Display :=
  match e with
  | DispOpacitySlider v =>
      let v' := bounded 0 95 v in
      if v' =? _opa_sl d then d
      else _on_opacity v'
             (mkDisplay (text_color d) (bg_color d) (bg_opacity d) (_c_bg d)
                        v' (_opa_lbl d))
  | DispTheme name => _apply_theme name d
  | DispPickText c => _pick_text_color c d
  | DispPickBg c => _pick_bg_color c d
  | DispInvalidate => _rebuild_color_cache d
  end.

Definition run_display (es : list DisplayEvent) : Display :=
  fold_left (fun d e => handle_display e d) es init_display.

(** The cache holds the background colour at the current opacity, the
    label shows the opacity in percent, and the slider shows the same
    unless that is beyond its range. *)
Definition display_ok (d : Display) : Prop :=
  _c_bg d = (bg_color d, bg_opacity d)
  /\ (0 <= bg_opacity d <= 0.97)%Q
  /\ (inject_Z (_opa_lbl d) == bg_opacity d * 100)%Q
  /\ _opa_sl d = Z.min 95 (_opa_lbl d).

(** * Properties *)

(** ** Numbers *)

Lemma py_int_nonneg (x : Q) : (0 <= x)%Q -> py_int x = Qfloor x.
Proof.
  destruct x as [n d]. unfold Qle, py_int, Qfloor. simpl. intros H.
  apply Z.quot_div_nonneg; lia.
Qed.

Lemma py_int_ge0 (x : Q) : (0 <= x)%Q -> 0 <= py_int x.
Proof.
  intros H. rewrite py_int_nonneg by assumption.
  change 0 with (Qfloor 0). now apply Qfloor_resp_le.
Qed.

Lemma py_int_le (x : Q) : (0 <= x)%Q -> (inject_Z (py_int x) <= x)%Q.
Proof. intros H. rewrite py_int_nonneg by assumption. apply Qfloor_le. Qed.

(** ** The alpha fade table *)

Lemma alpha_lut_length : length _ALPHA_LUT = 512%nat.
Proof. reflexivity. Qed.

Lemma alpha_lut_check :
  forallb (fun d : nat =>
             match _ALPHA_LUT !! d with
             | Some a =>
                 (a =? Z.max 0 (255 - 3 * Z.of_nat d / 4))
                 && ((Z.of_nat d <? 340) || (a =? 0))
             | None => false
             end) (seq 0 512) = true.
Proof. vm_compute. reflexivity. Qed.

(** C2, as the source has it: for every distance [d] in [[0, 512)] the
    entry of the alpha fade table at [d] is
    [max(0, 255 - floor(3 d / 4))] (the source truncates with [int]
    where the claim rounds), and the entry is 0 for every [d] from 340 up
    to the end of the table. *)
Theorem alpha_lut_floor (d : Z) :
  0 <= d < 512 ->
  _ALPHA_LUT !! Z.to_nat d = Some (Z.max 0 (255 - 3 * d / 4))
  /\ (340 <= d -> _ALPHA_LUT !! Z.to_nat d = Some 0).
Proof.
  intros Hd.
  pose proof alpha_lut_check as H.
  rewrite forallb_forall in H.
  specialize (H (Z.to_nat d)).
  assert (Hin : In (Z.to_nat d) (seq 0 512)) by (apply in_seq; lia).
  apply H in Hin. clear H.
  rewrite Z2Nat.id in Hin by lia.
  destruct (_ALPHA_LUT !! Z.to_nat d) as [a|]; [|discriminate].
  apply andb_prop in Hin as [Ha Hz].
  apply Z.eqb_eq in Ha. subst a. split; [reflexivity|].
  intros H340. apply orb_prop in Hz as [Hz|Hz].
  - apply Z.ltb_lt in Hz. lia.
  - apply Z.eqb_eq in Hz. now rewrite Hz.
Qed.

Lemma alpha_lut_floor_witness :
  _ALPHA_LUT !! Z.to_nat 400 = Some (Z.max 0 (255 - 3 * 400 / 4))
  /\ (340 <= 400 -> _ALPHA_LUT !! Z.to_nat 400 = Some 0).
Proof. apply (alpha_lut_floor 400). lia. Defined.

(** C2, as the claim has it, fails at distance 1: the table holds
    [255 - int(0.75) = 255], the claim's formula gives
    [255 - round(0.75) = 254]. *)
Lemma alpha_lut_round_fails :
  _ALPHA_LUT !! 1%nat = Some 255
  /\ spec_alpha_entry 1 = 254
  /\ ~ (forall d, 0 <= d < 512 ->
          _ALPHA_LUT !! Z.to_nat d = Some (spec_alpha_entry d)).
Proof.
  split; [reflexivity|]. split; [reflexivity|].
  intros H. specialize (H 1 ltac:(lia)). vm_compute in H. discriminate.
Qed.

(** ** Manual speed *)

Lemma bounded_range (lo hi v : Z) : lo <= hi -> lo <= bounded lo hi v <= hi.
Proof. unfold bounded. lia. Qed.

Lemma inject_Z_half_range (v : Z) :
  1 <= v <= 40 -> (0.5 <= inject_Z v / 2 <= 20)%Q.
Proof.
  intros [H1 H2]. unfold Qdiv, Qle, Qmult, Qinv, inject_Z. simpl. lia.
Qed.

Lemma speed_up_range (w : TeleprompterWindow) :
  (0.5 <= speed w <= 20)%Q -> (0.5 <= speed (_speed_up w) <= 20)%Q.
Proof.
  intros [H1 H2]. unfold _speed_up. simpl.
  destruct (Q.min_spec (speed w + 0.5) 20) as [[L E]|[L E]]; rewrite E; lra.
Qed.

Lemma speed_dn_range (w : TeleprompterWindow) :
  (0.5 <= speed w <= 20)%Q -> (0.5 <= speed (_speed_dn w) <= 20)%Q.
Proof.
  intros [H1 H2]. unfold _speed_dn. simpl.
  destruct (Q.max_spec (speed w - 0.5) 0.5) as [[L E]|[L E]]; rewrite E; lra.
Qed.

Lemma on_speed_range (v : Z) (w : TeleprompterWindow) :
  (0.5 <= speed (_on_speed (bounded 1 40 v) w) <= 20)%Q.
Proof.
  unfold _on_speed. simpl. apply inject_Z_half_range, bounded_range. lia.
Qed.

(** C9: the manual speed stays in [[0.5, 20.0]].  A decrement that would
    go below 0.5 leaves the speed at 0.5, an increment that would go above
    20.0 leaves it at 20.0, both keep a speed of the range in the range,
    and the speed slider, whose range is 1..40 half-units, sets a speed of
    the range: 0.5 for a request below it, 20.0 for one above it. *)
Theorem manual_speed_clamped (w : TeleprompterWindow) :
  ((speed w - 0.5 < 0.5)%Q -> (speed (_speed_dn w) == 0.5)%Q)
  /\ ((20 < speed w + 0.5)%Q -> (speed (_speed_up w) == 20)%Q)
  /\ ((0.5 <= speed w <= 20)%Q ->
      (0.5 <= speed (_speed_up w) <= 20)%Q
      /\ (0.5 <= speed (_speed_dn w) <= 20)%Q)
  /\ (forall v : Z,
        (0.5 <= speed (_on_speed (bounded 1 40 v) w) <= 20)%Q
        /\ (v < 1 -> (speed (_on_speed (bounded 1 40 v) w) == 0.5)%Q)
        /\ (40 < v -> (speed (_on_speed (bounded 1 40 v) w) == 20)%Q)).
Proof.
  split; [|split; [|split; [|intros v; split; [|split]]]].
  - intros H. unfold _speed_dn. simpl.
    destruct (Q.max_spec (speed w - 0.5) 0.5) as [[_ E]|[L E]];
      rewrite E; [reflexivity | lra].
  - intros H. unfold _speed_up. simpl.
    destruct (Q.min_spec (speed w + 0.5) 20) as [[L E]|[_ E]];
      rewrite E; [lra | reflexivity].
  - intros H. split; [now apply speed_up_range | now apply speed_dn_range].
  - apply on_speed_range.
  - intros Hv. replace (bounded 1 40 v) with 1 by (unfold bounded; lia).
    reflexivity.
  - intros Hv. replace (bounded 1 40 v) with 40 by (unfold bounded; lia).
    reflexivity.
Qed.

(** ** The greedy wrapper *)

Lemma sum_advance_app (adv : string -> Z) (xs ys : list string) :
  sum_advance adv (xs ++ ys) = sum_advance adv xs + sum_advance adv ys.
Proof.
  unfold sum_advance. induction xs as [|x xs IH]; simpl; [reflexivity|].
  rewrite IH. lia.
Qed.

Lemma line_width_single (adv : string -> Z) (sp_w : Z) (w : string) :
  line_width adv sp_w [w] = adv w.
Proof. unfold line_width, sum_advance. simpl. lia. Qed.

Lemma line_width_snoc (adv : string -> Z) (sp_w : Z) (ws : list string) (w : string) :
  ws <> [] ->
  line_width adv sp_w (ws ++ [w]) = line_width adv sp_w ws + (sp_w + adv w).
Proof.
  intros _. unfold line_width. rewrite sum_advance_app, length_app.
  unfold sum_advance. simpl. lia.
Qed.

Lemma wrap_invariant_of_fit (adv : string -> Z) (sp_w mw : Z) (ws : list string) :
  ws <> [] ->
  ((2 <= length ws)%nat -> line_width adv sp_w ws <= mw) ->
  wrap_invariant adv sp_w mw ws.
Proof.
  intros Hne Hfit. split; [exact Hfit|].
  intros _ Hwide. destruct ws as [|a [|b ws]].
  - congruence.
  - exists a. split; [reflexivity|]. now rewrite line_width_single in Hwide.
  - simpl in Hfit. lia.
Qed.

Lemma flush_ok (adv : string -> Z) (sp_w mw : Z) (cur_ws : list string) (cur_w : Z) :
  acc_ok adv sp_w mw cur_ws cur_w ->
  Forall (fun ws => ws <> [] /\ wrap_invariant adv sp_w mw ws) (flush cur_ws).
Proof.
  destruct cur_ws as [|a l]; simpl; intros H; constructor; [|constructor].
  destruct H as [E F]. split; [discriminate|].
  apply wrap_invariant_of_fit; [discriminate|]. intros L. rewrite <- E. auto.
Qed.

Lemma wrap_words_ok (adv : string -> Z) (sp_w mw : Z) (words : list string) :
  forall cur_ws cur_w,
    acc_ok adv sp_w mw cur_ws cur_w ->
    Forall (fun ws => ws <> [] /\ wrap_invariant adv sp_w mw ws)
           (wrap_words adv sp_w mw cur_ws cur_w words).
Proof.
  induction words as [|word rest IH]; intros cur_ws cur_w Hacc; simpl.
  - eapply flush_ok; eassumption.
  - destruct (Z.leb_spec (cur_w + match cur_ws with
                                   | [] => adv word
                                   | _ :: _ => sp_w + adv word
                                   end) mw) as [Hfit|Hover].
    + apply IH. destruct cur_ws as [|a l]; simpl in *.
      * subst cur_w. split; [now rewrite line_width_single | lia].
      * destruct Hacc as [E F]. split.
        -- change (a :: l ++ [word]) with ((a :: l) ++ [word]).
           rewrite line_width_snoc by discriminate. lia.
        -- intros _. lia.
    + apply Forall_app. split.
      * eapply flush_ok; eassumption.
      * apply IH. simpl. split; [now rewrite line_width_single | simpl; lia].
Qed.

Lemma map_fst_word_xs_from (adv : string -> Z) (sp_w : Z) (ws : list string) :
  forall x, map fst (word_xs_from adv sp_w x ws) = ws.
Proof. induction ws as [|w ws IH]; intros x; simpl; [|rewrite IH]; reflexivity. Qed.

Lemma map_fst_word_xs (ws : list string) (adv : string -> Z) (sp_w : Z)
    (align : Align) (W : Z) :
  map fst (_word_xs ws adv sp_w align W) = ws.
Proof. apply map_fst_word_xs_from. Qed.

(** What one paragraph adds to the word-offset table. *)
Lemma layout_para_wxs (adv : string -> Z) (sp_w : Z) (align : Align) (W : Z)
    (acc : Layout) (raw : string) :
  wxs (layout_para adv sp_w align W acc raw) = wxs acc ++ [[]]
  \/ wxs (layout_para adv sp_w align W acc raw)
     = wxs acc ++ map (fun ws => _word_xs ws adv sp_w align W)
                      (wrap_words adv sp_w (W - 80) [] 0
                                  (split_ws (strip (note_sub raw)))).
Proof.
  unfold layout_para.
  destruct (is_empty (strip (note_sub raw)));
    [|destruct (String.eqb (strip (note_sub raw)) _PAUSE_TAG)];
    destruct (strip <$> note_search raw); simpl; auto.
Qed.

Lemma layout_paras_wxs_Forall (adv : string -> Z) (sp_w : Z) (align : Align)
    (W : Z) (P : list (string * Z) -> Prop) (raws : list string) :
  P [] ->
  (forall words ws,
      In ws (wrap_words adv sp_w (W - 80) [] 0 words) ->
      P (_word_xs ws adv sp_w align W)) ->
  forall acc, Forall P (wxs acc) ->
              Forall P (wxs (layout_paras adv sp_w align W acc raws)).
Proof.
  intros Hnil Hwrap. unfold layout_paras.
  induction raws as [|raw raws IH]; intros acc Hacc; simpl; [exact Hacc|].
  apply IH.
  destruct (layout_para_wxs adv sp_w align W acc raw) as [E|E]; rewrite E;
    apply Forall_app; split; auto.
  apply Forall_forall. intros e He. apply list_elem_of_In, in_map_iff in He as [ws [<- Hin]].
  eapply Hwrap; eassumption.
Qed.

(** C5: every line the greedy wrapper produces for maximum width
    [mw = W - 80] holds at least one word; when it holds two words or more
    its word widths plus the spaces between them are at most [mw]; and a
    line wider than [mw] is a single word that is wider than [mw] by
    itself.  The same holds for the words of every entry of the word-offset
    table of a whole layout. *)
Theorem wrap_invariant_holds (adv : string -> Z) (sp_w W : Z) :
  (forall words : list string,
      Forall (fun ws => ws <> [] /\ wrap_invariant adv sp_w (W - 80) ws)
             (wrap_words adv sp_w (W - 80) [] 0 words))
  /\ (forall (align : Align) (text : string),
         Forall (fun e => wrap_invariant adv sp_w (W - 80) (map fst e))
                (wxs (build_layout adv sp_w align W text))).
Proof.
  split.
  - intros words. apply wrap_words_ok. reflexivity.
  - intros align text. unfold build_layout.
    apply layout_paras_wxs_Forall.
    + split; simpl; [lia | congruence].
    + intros words ws Hin. rewrite map_fst_word_xs.
      pose proof (wrap_words_ok adv sp_w (W - 80) words [] 0 eq_refl) as H.
      rewrite Forall_forall in H. apply (H ws). now apply list_elem_of_In.
    + constructor.
Qed.

(** ** The layout cache *)

Lemma FontKey_eqb_refl (k : FontKey) : FontKey_eqb k k = true.
Proof.
  destruct k as [[f s] l]. unfold FontKey_eqb.
  rewrite String.eqb_refl, Z.eqb_refl. simpl. apply Qeq_bool_iff. reflexivity.
Qed.

Lemma Align_eqb_refl (a : Align) : Align_eqb a a = true.
Proof. destruct a; reflexivity. Qed.

Lemma LayoutKey_eqb_refl (k : LayoutKey) : LayoutKey_eqb k k = true.
Proof.
  destruct k as [[[t wd] f] a]. unfold LayoutKey_eqb.
  rewrite String.eqb_refl, Z.eqb_refl, Align_eqb_refl.
  destruct f as [f|]; simpl; [rewrite FontKey_eqb_refl|]; reflexivity.
Qed.

Lemma ensure_font_hit (w : TeleprompterWindow) :
  font_key_hit (font_key_of w) (_font_key w) = true -> _ensure_font w = w.
Proof. unfold _ensure_font. intros ->. reflexivity. Qed.

Lemma ensure_font_current (w : TeleprompterWindow) :
  font_key_hit (font_key_of (_ensure_font w)) (_font_key (_ensure_font w)) = true.
Proof.
  unfold _ensure_font.
  destruct (font_key_hit (font_key_of w) (_font_key w)) eqn:E; [exact E|].
  exact (FontKey_eqb_refl (font_key_of w)).
Qed.

Lemma rebuild_layout_current (w : TeleprompterWindow) :
  font_key_hit (font_key_of w) (_font_key w) = true ->
  layout_cache_hit (rebuild_layout w) = true.
Proof.
  intros H. unfold layout_cache_hit. apply andb_true_intro. split.
  - exact H.
  - exact (LayoutKey_eqb_refl (layout_key_of w)).
Qed.

Lemma ensure_layout_hit (w : TeleprompterWindow) :
  layout_cache_hit w = true -> _ensure_layout w = w.
Proof.
  unfold layout_cache_hit. intros H. apply andb_prop in H as [Hf Hl].
  unfold _ensure_layout. rewrite (ensure_font_hit w Hf), Hl.
  reflexivity.
Qed.

Lemma ensure_layout_current (w : TeleprompterWindow) :
  layout_cache_hit (_ensure_layout w) = true.
Proof.
  unfold _ensure_layout.
  pose proof (ensure_font_current w) as Hf.
  destruct (layout_key_hit (layout_key_of (_ensure_font w))
                           (_layout_key (_ensure_font w))) eqn:E.
  - unfold layout_cache_hit. now rewrite Hf, E.
  - now apply rebuild_layout_current.
Qed.

(** C6: [_ensure_layout] is idempotent.  In a state whose font key and
    layout key equal the cached ones it returns the state as it is, so
    lines, word offsets, pause set, note map and total height are
    unchanged; after any call both keys are current, so a second call in
    succession is a cache hit and rebuilds nothing; hence calling twice
    gives what calling once gives. *)
Theorem ensure_layout_idempotent (w : TeleprompterWindow) :
  (layout_cache_hit w = true -> _ensure_layout w = w)
  /\ layout_cache_hit (_ensure_layout w) = true
  /\ _ensure_layout (_ensure_layout w) = _ensure_layout w.
Proof.
  split; [apply ensure_layout_hit|]. split; [apply ensure_layout_current|].
  apply ensure_layout_hit, ensure_layout_current.
Qed.

(** ** What the cache checks and the scroll check leave alone *)

Ltac split_ifs :=
  repeat match goal with
         | |- context [if ?b then _ else _] => destruct b
         end.

Ltac keeps :=
  intros;
  unfold scroll_check, _ensure_layout, rebuild_layout, _ensure_font, _do_pause;
  split_ifs; reflexivity.

Lemma ensure_layout_scroll_y w : scroll_y (_ensure_layout w) = scroll_y w.
Proof. keeps. Qed.

Lemma ensure_layout_speed w : speed (_ensure_layout w) = speed w.
Proof. keeps. Qed.


Lemma ensure_layout_playing w : is_playing (_ensure_layout w) = is_playing w.
Proof. keeps. Qed.

Lemma ensure_layout_timer w : _scroll_timer (_ensure_layout w) = _scroll_timer w.
Proof. keeps. Qed.

Lemma ensure_layout_auto w :
  auto_speed_enabled (_ensure_layout w) = auto_speed_enabled w.
Proof. keeps. Qed.

Lemma ensure_layout_target w : _mic_target (_ensure_layout w) = _mic_target w.
Proof. keeps. Qed.

Lemma ensure_layout_smooth w : _mic_smooth (_ensure_layout w) = _mic_smooth w.
Proof. keeps. Qed.

Lemma scroll_check_speed w : speed (scroll_check w) = speed w.
Proof. keeps. Qed.

Lemma scroll_check_auto w :
  auto_speed_enabled (scroll_check w) = auto_speed_enabled w.
Proof. keeps. Qed.

Lemma scroll_check_target w : _mic_target (scroll_check w) = _mic_target w.
Proof. keeps. Qed.

Lemma scroll_check_smooth w : _mic_smooth (scroll_check w) = _mic_smooth w.
Proof. keeps. Qed.

Lemma scroll_step_speed e w : speed (_scroll_step e w) = speed w.
Proof.
  unfold _scroll_step, scroll_advance.
  rewrite scroll_check_speed, ensure_layout_speed.
  destruct (auto_speed_enabled w) eqn:E; simpl; rewrite ?E; reflexivity.
Qed.

Lemma scroll_step_auto e w :
  auto_speed_enabled (_scroll_step e w) = auto_speed_enabled w.
Proof.
  unfold _scroll_step, scroll_advance.
  rewrite scroll_check_auto, ensure_layout_auto.
  destruct (auto_speed_enabled w) eqn:E; simpl; rewrite ?E; reflexivity.
Qed.

Lemma scroll_step_target e w : _mic_target (_scroll_step e w) = _mic_target w.
Proof.
  unfold _scroll_step, scroll_advance.
  rewrite scroll_check_target, ensure_layout_target.
  destruct (auto_speed_enabled w) eqn:E; simpl; rewrite ?E; reflexivity.
Qed.

Lemma scroll_step_smooth e w :
  _mic_smooth (_scroll_step e w)
  = if auto_speed_enabled w
    then (_mic_smooth w + 0.10 * (_mic_target w - _mic_smooth w))%Q
    else _mic_smooth w.
Proof.
  unfold _scroll_step, scroll_advance.
  rewrite scroll_check_smooth, ensure_layout_smooth.
  destruct (auto_speed_enabled w) eqn:E; simpl; rewrite ?E; reflexivity.
Qed.

(** The offset after the first half of the step: the old offset plus the
    effective speed times [dt / 16.667]. *)
Lemma scroll_advance_scroll_y e w :
  scroll_y (scroll_advance e w)
  = (scroll_y w
     + ((if auto_speed_enabled w
         then Qmax 0 (_mic_smooth w + 0.10 * (_mic_target w - _mic_smooth w))
         else speed w) / 16.667) * inject_Z (Z.max 1 (Z.min e 100)))%Q.
Proof.
  unfold scroll_advance. rewrite ensure_layout_scroll_y.
  destruct (auto_speed_enabled w) eqn:E; simpl; rewrite E; reflexivity.
Qed.

Lemma scroll_check_l_total w : _l_total (scroll_check w) = _l_total w.
Proof. keeps. Qed.

(** Without a pause hit the step keeps the advanced offset, or clamps it
    to the total height at the end of the content. *)
Lemma scroll_check_no_pause w :
  pause_hit w = false ->
  scroll_y (scroll_check w) = if at_end w then _l_total w else scroll_y w.
Proof.
  intros Hp. unfold scroll_check. rewrite Hp.
  assert (He : at_end (if focus_changed w
                       then set_notes_window
                              (set_current (_l_notes (set_last_fl (focus_line w) w)
                                              !! focus_line w)
                                 (notes_window (set_last_fl (focus_line w) w)))
                              (set_last_fl (focus_line w) w)
                       else w) = at_end w)
    by (destruct (focus_changed w); reflexivity).
  rewrite He. destruct (at_end w), (focus_changed w); split_ifs; reflexivity.
Qed.

(** A step that neither hits a pause line nor reaches the end keeps the
    advanced offset. *)
Lemma scroll_check_plain w :
  pause_hit w = false -> at_end w = false ->
  scroll_y (scroll_check w) = scroll_y w.
Proof. intros Hp He. now rewrite scroll_check_no_pause, He. Qed.

(** ** Auto-speed smoothing *)






(** ** Frame-rate independence *)

(** C3: with auto-speed disabled (the effective speed is the manual speed,
    which ticks do not change), when none of the ticks involved hits a
    pause line or reaches the end of the content, one tick with
    [dt = 32] ms leaves the same scroll offset as two ticks with
    [dt = 16] ms each (an equation between rationals: the model has no
    rounding). *)
Theorem frame_rate_independent (w : TeleprompterWindow) :
  auto_speed_enabled w = false ->
  pause_hit (scroll_advance 32 w) = false ->
  at_end (scroll_advance 32 w) = false ->
  pause_hit (scroll_advance 16 w) = false ->
  at_end (scroll_advance 16 w) = false ->
  pause_hit (scroll_advance 16 (_scroll_step 16 w)) = false ->
  at_end (scroll_advance 16 (_scroll_step 16 w)) = false ->
  (scroll_y (_scroll_step 32 w)
   == scroll_y (_scroll_step 16 (_scroll_step 16 w)))%Q.
Proof.
  intros Ha P32 E32 P16 E16 P16' E16'.
  unfold _scroll_step at 1 2.
  rewrite (scroll_check_plain _ P32 E32), (scroll_check_plain _ P16' E16').
  rewrite !scroll_advance_scroll_y, scroll_step_auto, scroll_step_speed, Ha.
  unfold _scroll_step.
  rewrite (scroll_check_plain _ P16 E16), scroll_advance_scroll_y, Ha.
  change (Z.max 1 (Z.min 32 100)) with 32.
  change (Z.max 1 (Z.min 16 100)) with 16.
  change (inject_Z 32) with (inject_Z 16 + inject_Z 16)%Q at 1.
  ring.
Qed.

(** ** The layout tables fit together *)

Lemma split_ws_nonempty (s : string) :
  Forall (fun w => w <> EmptyString) (split_ws s).
Proof.
  induction s as [|c s IH]; simpl; [constructor|].
  destruct (is_space c); [exact IH|].
  destruct (starts_word s).
  - destruct (split_ws s) as [|w ws]; constructor; try discriminate.
    + constructor.
    + now inversion IH.
  - constructor; [discriminate | exact IH].
Qed.

Lemma join_sp_nonempty (ws : list string) :
  ws <> [] -> Forall (fun w => w <> EmptyString) ws -> join_sp ws <> EmptyString.
Proof.
  destruct ws as [|w ws]; [congruence|]. intros _ H. inversion H as [|? ? Hw _]; subst.
  destruct w as [|c w]; [congruence|].
  destruct ws; simpl; discriminate.
Qed.

Lemma wrap_words_members (adv : string -> Z) (sp_w mw : Z) (P : string -> Prop)
    (words : list string) :
  forall cur_ws cur_w,
    Forall P cur_ws -> Forall P words ->
    Forall (fun ws => ws <> [] /\ Forall P ws)
           (wrap_words adv sp_w mw cur_ws cur_w words).
Proof.
  induction words as [|word rest IH]; intros cur_ws cur_w Hc Hw; simpl.
  - destruct cur_ws; simpl; repeat constructor; [discriminate | now inversion Hc
                                                 | now inversion Hc].
  - inversion Hw as [|? ? Hword Hrest]; subst.
    destruct (_ <=? mw).
    + apply IH; [|assumption]. apply Forall_app. split; [assumption|].
      now constructor.
    + apply Forall_app. split.
      * destruct cur_ws; simpl; repeat constructor;
          [discriminate | now inversion Hc | now inversion Hc].
      * apply IH; [|assumption]. now constructor.
Qed.

Lemma wrapped_lines_nonempty (adv : string -> Z) (sp_w mw : Z) (s : string) :
  Forall (fun l => l <> EmptyString)
         (map join_sp (wrap_words adv sp_w mw [] 0 (split_ws s))).
Proof.
  apply Forall_fmap.
  eapply Forall_impl.
  - apply (wrap_words_members adv sp_w mw (fun w => w <> EmptyString));
      [constructor | apply split_ws_nonempty].
  - intros ws [Hne Hall]. now apply join_sp_nonempty.
Qed.

Lemma layout_ok_snoc_blank ls xs ps (l : string) :
  layout_ok ls xs ps -> layout_ok (ls ++ [l]) (xs ++ [[]]) ps.
Proof.
  intros (Hlen & Hp & He). split; [|split].
  - rewrite !length_app, Hlen. reflexivity.
  - intros i Hi. destruct (Hp i Hi) as [H0 Hx]. split; [assumption|].
    rewrite lookup_app_l; [assumption|]. eapply lookup_lt_Some; eassumption.
  - intros i Hi. destruct (decide (i < length ls)%nat) as [Hlt|Hge].
    + rewrite lookup_app_l in Hi by assumption.
      rewrite lookup_app_l by (rewrite <- Hlen; assumption). auto.
    + assert (i = length ls).
      { apply lookup_lt_Some in Hi. rewrite length_app in Hi. simpl in Hi. lia. }
      subst i. rewrite Hlen. rewrite lookup_app_r by lia.
      now rewrite Nat.sub_diag.
Qed.

Lemma layout_ok_snoc_pause ls xs ps (l : string) :
  layout_ok ls xs ps ->
  layout_ok (ls ++ [l]) (xs ++ [[]]) ({[ Z.of_nat (length ls) ]} ∪ ps).
Proof.
  intros H. pose proof (layout_ok_snoc_blank ls xs ps l H) as (Hlen & Hp & He).
  split; [assumption|]. split; [|assumption].
  intros i Hi. apply elem_of_union in Hi as [Hi|Hi]; [|auto].
  apply elem_of_singleton in Hi. subst i. split; [lia|].
  rewrite Nat2Z.id. destruct H as (Hl & _). rewrite Hl.
  rewrite lookup_app_r by lia. now rewrite Nat.sub_diag.
Qed.

Lemma layout_ok_app ls xs ps (ls' : list string) (xs' : list (list (string * Z))) :
  length ls' = length xs' ->
  Forall (fun l => l <> EmptyString) ls' ->
  layout_ok ls xs ps -> layout_ok (ls ++ ls') (xs ++ xs') ps.
Proof.
  intros Hlen' Hne (Hlen & Hp & He). split; [|split].
  - rewrite !length_app. lia.
  - intros i Hi. destruct (Hp i Hi) as [H0 Hx]. split; [assumption|].
    rewrite lookup_app_l; [assumption|]. eapply lookup_lt_Some; eassumption.
  - intros i Hi. destruct (decide (i < length ls)%nat) as [Hlt|Hge].
    + rewrite lookup_app_l in Hi by assumption.
      rewrite lookup_app_l by (rewrite <- Hlen; assumption). auto.
    + rewrite lookup_app_r in Hi by lia.
      apply list_elem_of_lookup_2 in Hi.
      rewrite Forall_forall in Hne. now apply Hne in Hi.
Qed.

Lemma layout_para_ok adv sp_w align W (acc : Layout) (raw : string) :
  layout_ok (lines acc) (wxs acc) (pauses acc) ->
  layout_ok (lines (layout_para adv sp_w align W acc raw))
            (wxs (layout_para adv sp_w align W acc raw))
            (pauses (layout_para adv sp_w align W acc raw)).
Proof.
  intros H. unfold layout_para.
  destruct (is_empty (strip (note_sub raw)));
    [|destruct (String.eqb (strip (note_sub raw)) _PAUSE_TAG)];
    destruct (strip <$> note_search raw); simpl;
    try (now apply layout_ok_snoc_blank);
    try (now apply layout_ok_snoc_pause);
    (apply layout_ok_app;
     [now rewrite !length_map | apply wrapped_lines_nonempty | assumption]).
Qed.

Lemma build_layout_ok adv sp_w align W (t : string) :
  let l := build_layout adv sp_w align W t in
  layout_ok (lines l) (wxs l) (pauses l).
Proof.
  unfold build_layout, layout_paras.
  assert (H : layout_ok (lines empty_layout) (wxs empty_layout) (pauses empty_layout)).
  { split; [reflexivity|]. split; [|intros i Hi; discriminate].
    intros i Hi. simpl in Hi. set_solver. }
  revert H. generalize empty_layout.
  induction (split_nl t) as [|raw raws IH]; intros acc H; simpl; [exact H|].
  apply IH. now apply layout_para_ok.
Qed.

(** ** The invariant of the engine *)

Ltac inv_simple :=
  let Hy := fresh "Hy" in
  let Hs := fresh "Hs" in
  intros (Hy & Hs & ? & ? & ? & ?);
  unfold engine_inv; simpl;
  repeat match goal with |- _ /\ _ => split end;
  try assumption; try reflexivity; try lra.

Lemma engine_inv_init (W H : Z) : engine_inv (init W H).
Proof.
  unfold engine_inv, init, layout_ok. simpl.
  repeat match goal with |- _ /\ _ => split end;
    try reflexivity; try lra; try lia; try discriminate.
Qed.

Lemma ensure_font_inv w : engine_inv w -> engine_inv (_ensure_font w).
Proof.
  unfold _ensure_font. destruct (font_key_hit _ _); [auto|].
  inv_simple. lia.
Qed.

Lemma rebuild_layout_inv w : engine_inv w -> engine_inv (rebuild_layout w).
Proof.
  unfold rebuild_layout. inv_simple.
  - change 0%Q with (inject_Z 0). rewrite <- Zle_Qle. nia.
  - apply build_layout_ok.
Qed.

Lemma ensure_layout_inv w : engine_inv w -> engine_inv (_ensure_layout w).
Proof.
  intros H. unfold _ensure_layout. apply ensure_font_inv in H.
  destruct (layout_key_hit _ _); [assumption|]. now apply rebuild_layout_inv.
Qed.

Lemma advance_nonneg (y eff : Q) (dt : Z) :
  (0 <= y)%Q -> (0 <= eff)%Q -> 0 <= dt ->
  (0 <= y + eff / 16.667 * inject_Z dt)%Q.
Proof.
  intros Hy He Hd.
  assert (0 <= eff / 16.667 * inject_Z dt)%Q; [|lra].
  apply Qmult_le_0_compat.
  - apply Qle_shift_div_l; [reflexivity | lra].
  - change 0%Q with (inject_Z 0). now rewrite <- Zle_Qle.
Qed.

Lemma scroll_advance_inv e w : engine_inv w -> engine_inv (scroll_advance e w).
Proof.
  intros H. unfold scroll_advance. apply ensure_layout_inv.
  destruct H as (Hy & Hs & Hl & Ht & Hp & Hk).
  destruct (auto_speed_enabled w) eqn:E; unfold engine_inv; simpl; rewrite ?E;
    repeat match goal with |- _ /\ _ => split end;
    try assumption; try lra; apply advance_nonneg; try assumption; try lia.
  - apply Q.le_max_l.
  - lra.
Qed.

Lemma focus_line_nonneg w :
  (0 <= scroll_y w)%Q -> 1 <= _f_line_h w -> 0 <= focus_line w.
Proof.
  intros Hy Hl. unfold focus_line. apply py_int_ge0.
  apply Qle_shift_div_l.
  - change 0%Q with (inject_Z 0). rewrite <- Zlt_Qlt. lia.
  - lra.
Qed.


Lemma scroll_check_inv w : engine_inv w -> engine_inv (scroll_check w).
Proof.
  intros H. pose proof H as (Hy & Hs & Hl & Ht & Hp & Hk).
  unfold scroll_check, _do_pause.
  destruct (pause_hit w).
  - unfold engine_inv; simpl.
    repeat match goal with |- _ /\ _ => split end; try assumption; try lra.
    change 0%Q with (inject_Z 0). rewrite <- Zle_Qle.
    pose proof (focus_line_nonneg w Hy Hl). nia.
  - destruct (focus_changed w), (at_end w) eqn:E; simpl; rewrite ?E; simpl;
      split_ifs; unfold engine_inv; simpl;
      repeat match goal with |- _ /\ _ => split end;
      try assumption; try reflexivity; try lra.
Qed.

Lemma scroll_step_inv e w : engine_inv w -> engine_inv (_scroll_step e w).
Proof. intros H. now apply scroll_check_inv, scroll_advance_inv. Qed.

Lemma paint_inv w : engine_inv w -> engine_inv (fst (paintEvent w)).
Proof.
  intros H. unfold paintEvent.
  destruct (_cd_val w); [now apply ensure_font_inv|].
  destruct (is_empty (text w)); [assumption|].
  destruct (_f_line_h (_ensure_layout w) =? 0); now apply ensure_layout_inv.
Qed.

Lemma speed_up_inv w : engine_inv w -> engine_inv (_speed_up w).
Proof.
  intros H. pose proof H as (Hy & Hs & _).
  destruct (speed_up_range w Hs) as [Hu1 Hu2]. unfold _speed_up in *.
  simpl in Hu1, Hu2. revert H. inv_simple.
Qed.

Lemma speed_dn_inv w : engine_inv w -> engine_inv (_speed_dn w).
Proof.
  intros H. pose proof H as (Hy & Hs & _).
  destruct (speed_dn_range w Hs) as [Hd1 Hd2]. unfold _speed_dn in *.
  simpl in Hd1, Hd2. revert H. inv_simple.
Qed.

Lemma toggle_play_inv w : engine_inv w -> engine_inv (toggle_play w).
Proof.
  unfold toggle_play, _start_countdown, _begin_play, _do_pause.
  destruct (_cd_val w); [inv_simple|].
  destruct (is_playing w); simpl; [inv_simple|].
  destruct (0 <? countdown_secs w); inv_simple.
Qed.

Lemma reset_inv w : engine_inv w -> engine_inv (reset w).
Proof. unfold reset. inv_simple. Qed.

Lemma cd_tick_inv w : engine_inv w -> engine_inv (_cd_tick w).
Proof.
  unfold _cd_tick, _begin_play. destruct (_cd_val w); [|auto].
  destruct (_ <=? 0); inv_simple.
Qed.

Lemma key_inv k w : engine_inv w -> engine_inv (keyPressEvent k w).
Proof.
  destruct k; simpl;
    auto using toggle_play_inv, speed_up_inv, speed_dn_inv, reset_inv.
  - inv_simple. apply Q.le_max_l.
  - inv_simple.
Qed.

Lemma handle_inv e w : engine_inv w -> engine_inv (handle e w).
Proof.
  destruct e; simpl.
  - unfold set_text_. inv_simple.
  - apply toggle_play_inv.
  - apply reset_inv.
  - destruct (_cd_timer w); [apply cd_tick_inv | auto].
  - destruct (_scroll_timer w); [apply scroll_step_inv | auto].
  - apply key_inv.
  - unfold wheelEvent. destruct (0 <? dy); [apply speed_up_inv | apply speed_dn_inv].
  - unfold resizeEvent. inv_simple.
  - apply paint_inv.
  - intros H. destruct (on_speed_range v w) as [Hr1 Hr2]. revert H.
    unfold _on_speed in *. simpl in Hr1, Hr2. inv_simple.
  - inv_simple.
  - unfold _on_font, invalidate_layout. inv_simple.
  - unfold _on_ls, invalidate_layout. inv_simple.
  - unfold on_font_family, invalidate_layout. inv_simple.
  - unfold _on_align. destruct (_ !! idx); [inv_simple | auto].
  - unfold on_focus_zone. destruct (_ !! i); [inv_simple | auto].
  - inv_simple.
  - destruct MIC_OK eqn:E; [|auto]. unfold _on_mic, start_mic, stop_mic.
    destruct b; simpl; [destruct (negb _ || _)|]; inv_simple.
  - destruct MIC_OK eqn:E; [inv_simple | auto].
  - unfold mic_callback. destruct (_mic_stream w); [inv_simple | auto].
Qed.

Lemma run_inv es : forall w, engine_inv w -> engine_inv (run es w).
Proof.
  unfold run. induction es as [|e es IH]; intros w H; simpl; [assumption|].
  apply IH, handle_inv, H.
Qed.

Lemma reachable_inv w : reachable w -> engine_inv w.
Proof. intros (W & H & es & ->). apply run_inv, engine_inv_init. Qed.

(** ** The total height follows the layout *)

Ltac stale :=
  let H := fresh "H" in
  intros _ H; unfold layout_cache_hit in H; simpl in H;
  rewrite ?andb_false_r in H; discriminate H.

Ltac same_layout :=
  let J := fresh "J" in
  let H := fresh "H" in
  intros J H; exact (J H).

Lemma ensure_font_total w : total_current w -> total_current (_ensure_font w).
Proof.
  unfold _ensure_font. destruct (font_key_hit _ _); [auto | stale].
Qed.

Lemma rebuild_layout_total w : total_current (rebuild_layout w).
Proof. intros _. reflexivity. Qed.

Lemma ensure_layout_total w : total_current w -> total_current (_ensure_layout w).
Proof.
  intros J. unfold _ensure_layout. apply ensure_font_total in J.
  destruct (layout_key_hit _ _); [assumption | apply rebuild_layout_total].
Qed.

Lemma scroll_check_total w : total_current w -> total_current (scroll_check w).
Proof.
  unfold scroll_check, _do_pause.
  destruct (pause_hit w); [same_layout|].
  destruct (focus_changed w), (at_end w) eqn:E; simpl; rewrite ?E; simpl;
    split_ifs; same_layout.
Qed.

Lemma scroll_step_total e w : total_current w -> total_current (_scroll_step e w).
Proof.
  intros J. apply scroll_check_total. unfold scroll_advance.
  apply ensure_layout_total.
  destruct (auto_speed_enabled w) eqn:E; simpl; rewrite ?E; revert J;
    same_layout.
Qed.

Lemma toggle_play_total w : total_current w -> total_current (toggle_play w).
Proof.
  unfold toggle_play, _start_countdown, _begin_play, _do_pause.
  destruct (_cd_val w); [same_layout|].
  destruct (is_playing w); simpl; [same_layout|].
  destruct (0 <? countdown_secs w); same_layout.
Qed.

Lemma cd_tick_total w : total_current w -> total_current (_cd_tick w).
Proof.
  unfold _cd_tick, _begin_play. destruct (_cd_val w); [|auto].
  destruct (_ <=? 0); same_layout.
Qed.

Lemma key_total k w : total_current w -> total_current (keyPressEvent k w).
Proof.
  destruct k; simpl; auto using toggle_play_total;
    try (unfold _speed_up, _speed_dn, reset; same_layout).
Qed.

Lemma paint_total w : total_current w -> total_current (fst (paintEvent w)).
Proof.
  intros J. unfold paintEvent.
  destruct (_cd_val w); [now apply ensure_font_total|].
  destruct (is_empty (text w)); [assumption|].
  destruct (_f_line_h (_ensure_layout w) =? 0); now apply ensure_layout_total.
Qed.

Lemma handle_total e w : total_current w -> total_current (handle e w).
Proof.
  destruct e; simpl.
  - unfold set_text_. stale.
  - apply toggle_play_total.
  - unfold reset. same_layout.
  - destruct (_cd_timer w); [apply cd_tick_total | auto].
  - destruct (_scroll_timer w); [apply scroll_step_total | auto].
  - apply key_total.
  - unfold wheelEvent, _speed_up, _speed_dn. destruct (0 <? dy); same_layout.
  - unfold resizeEvent. stale.
  - apply paint_total.
  - unfold _on_speed. same_layout.
  - same_layout.
  - unfold _on_font, invalidate_layout. stale.
  - unfold _on_ls, invalidate_layout. stale.
  - unfold on_font_family, invalidate_layout. stale.
  - unfold _on_align. destruct (_ !! idx); [stale | auto].
  - unfold on_focus_zone. destruct (_ !! i); [same_layout | auto].
  - same_layout.
  - destruct MIC_OK eqn:E; [|auto]. unfold _on_mic, start_mic, stop_mic.
    destruct b; simpl; [destruct (negb _ || _)|]; same_layout.
  - destruct MIC_OK eqn:E; [same_layout | auto].
  - unfold mic_callback. destruct (_mic_stream w); [same_layout | auto].
Qed.

Lemma reachable_total w : reachable w -> total_current w.
Proof.
  intros (W & H & es & ->). unfold run.
  assert (J : total_current (init (Z.max 640 W) (Z.max 420 H)))
    by (intros Hhit; discriminate Hhit).
  revert J. generalize (init (Z.max 640 W) (Z.max 420 H)).
  induction es as [|e es IH]; intros w J; simpl; [assumption|].
  apply IH, handle_total, J.
Qed.

Lemma scroll_check_snap w :
  pause_hit w = true ->
  scroll_y (scroll_check w) = inject_Z (focus_line w * _f_line_h w)
  /\ is_playing (scroll_check w) = false
  /\ _scroll_timer (scroll_check w) = false
  /\ _last_fl (scroll_check w) = focus_line w.
Proof. intros H. unfold scroll_check. rewrite H. repeat split. Qed.

(** A tick leaves the offset inside [[0, total]]: it snaps to the top of
    a line of the layout, clamps at the total height, or stays below
    it. *)
Lemma scroll_step_in_range e w :
  reachable w ->
  (0 <= scroll_y (_scroll_step e w) <= _l_total (_scroll_step e w))%Q.
Proof.
  intros Hr.
  pose proof (scroll_advance_inv e w (reachable_inv w Hr)) as Ha.
  pose proof (scroll_step_inv e w (reachable_inv w Hr)) as (Hy & _).
  split; [assumption|].
  assert (Jt : total_current (scroll_advance e w)).
  { unfold scroll_advance. apply ensure_layout_total.
    pose proof (reachable_total w Hr) as J.
    destruct (auto_speed_enabled w) eqn:E; simpl; rewrite ?E; revert J;
      same_layout. }
  assert (Hcur : layout_cache_hit (scroll_advance e w) = true)
    by (unfold scroll_advance; apply ensure_layout_current).
  specialize (Jt Hcur).
  unfold _scroll_step. set (a := scroll_advance e w) in *.
  destruct Ha as (Hya & _ & Hl & _ & _ & (Hlen & Hp & _)).
  rewrite scroll_check_l_total.
  destruct (pause_hit a) eqn:Hhit.
  - destruct (scroll_check_snap a Hhit) as (-> & _).
    rewrite Jt, <- Zle_Qle.
    unfold pause_hit in Hhit. apply andb_prop in Hhit as [_ Hin].
    apply bool_decide_eq_true in Hin. destruct (Hp _ Hin) as [H0 Hx].
    apply lookup_lt_Some in Hx. rewrite <- Hlen in Hx. nia.
  - rewrite (scroll_check_no_pause a Hhit). destruct (at_end a) eqn:E.
    + apply Qle_refl.
    + apply Qlt_le_weak, Qnot_le_lt. intros Hle.
      apply Qle_bool_iff in Hle. unfold at_end in E. congruence.
Qed.

(** ** Snap to a pause line *)



(** ** Painting stays inside the layout tables *)

Lemma py_range_bounds (a b i : Z) : In i (py_range a b) -> a <= i < b.
Proof.
  unfold py_range. intros H. apply in_map_iff in H as [k [<- Hk]].
  apply in_seq in Hk. lia.
Qed.

Lemma alpha_lut_lookup (dist : Z) :
  exists alpha, _ALPHA_LUT !! Z.to_nat (Z.min (Z.abs dist) 511) = Some alpha.
Proof.
  apply lookup_lt_is_Some_2. rewrite alpha_lut_length. lia.
Qed.

Local Opaque _ALPHA_LUT.

Lemma paint_line_ok w (focus_y start_y fl_idx : Z) (fl_frac : Q) (i : Z) :
  layout_ok (_l_lines w) (_l_word_xs w) (_l_pause w) ->
  0 <= i < Z.of_nat (length (_l_lines w)) ->
  exists c, paint_line w focus_y start_y fl_idx fl_frac i = Some c
            /\ match c with Some d => highlight_ok w d | None => True end.
Proof.
  intros (Hlen & Hp & He) Hi. unfold paint_line.
  destruct (lookup_lt_is_Some_2 (_l_lines w) (Z.to_nat i) ltac:(lia)) as [line Hline].
  rewrite Hline.
  destruct (alpha_lut_lookup (start_y + i * _f_line_h w + _f_asc w - focus_y))
    as [alpha Ha].
  rewrite Ha.
  destruct (alpha <? 8); [eexists; split; [reflexivity | exact I]|].
  destruct (bool_decide (i ∈ _l_pause w)) eqn:Hpause;
    [eexists; split; [reflexivity | exact I]|].
  apply bool_decide_eq_false in Hpause.
  destruct (word_highlight w && (i =? fl_idx));
    [|eexists; split; [reflexivity | exact I]].
  destruct (lookup_lt_is_Some_2 (_l_word_xs w) (Z.to_nat i) ltac:(lia)) as [wxl Hwxl].
  rewrite Hwxl.
  destruct wxl as [|x wxl]; [eexists; split; [reflexivity | exact I]|].
  eexists. split; [reflexivity|]. simpl. split; [assumption|]. split.
  - intros Hempty. rewrite (He _ Hempty) in Hwxl. discriminate.
  - eexists. split; [eassumption | discriminate].
Qed.

Lemma paint_lines_ok w (focus_y start_y fl_idx : Z) (fl_frac : Q) (idxs : list Z) :
  layout_ok (_l_lines w) (_l_word_xs w) (_l_pause w) ->
  (forall i, In i idxs -> 0 <= i < Z.of_nat (length (_l_lines w))) ->
  exists cmds, paint_lines w focus_y start_y fl_idx fl_frac idxs = Some cmds
               /\ Forall (highlight_ok w) cmds.
Proof.
  intros Hok. induction idxs as [|i idxs IH]; intros Hall; simpl.
  - exists []. split; [reflexivity | constructor].
  - destruct (paint_line_ok w focus_y start_y fl_idx fl_frac i Hok) as (c & Ec & Hc);
      [apply Hall; now left|].
    destruct IH as (cs & Ecs & Hcs); [intros j Hj; apply Hall; now right|].
    rewrite Ec, Ecs. destruct c as [d|]; eexists; (split; [reflexivity|]).
    + now constructor.
    + assumption.
Qed.

Lemma visible_range_bounds w (i : Z) :
  In i (visible_range w) -> 0 <= i < Z.of_nat (length (_l_lines w)).
Proof. unfold visible_range. intros H. apply py_range_bounds in H. lia. Qed.

(** C10: a layout rebuild leaves as many word-offset lists as display
    lines, with an empty list for every pause line and every empty line;
    this holds in every state the window can be in, and there [paintEvent]
    raises no [IndexError] (every line and word-offset access is in
    bounds) and takes the word-highlight path only on lines that are
    neither pause lines nor empty. *)
Theorem layout_tables_consistent (w : TeleprompterWindow) :
  layout_ok (_l_lines (rebuild_layout w)) (_l_word_xs (rebuild_layout w))
            (_l_pause (rebuild_layout w))
  /\ (reachable w ->
      layout_ok (_l_lines w) (_l_word_xs w) (_l_pause w)
      /\ exists cmds,
          snd (paintEvent w) = Some cmds
          /\ Forall (highlight_ok (fst (paintEvent w))) cmds).
Proof.
  split; [apply build_layout_ok|].
  intros Hr. pose proof (reachable_inv w Hr) as Hinv.
  split; [apply Hinv|].
  unfold paintEvent.
  destruct (_cd_val w); [exists []; split; [reflexivity | constructor]|].
  destruct (is_empty (text w)); [exists []; split; [reflexivity | constructor]|].
  pose proof (ensure_layout_inv w Hinv) as (_ & _ & Hl & _ & _ & Hok).
  destruct (Z.eqb_spec (_f_line_h (_ensure_layout w)) 0) as [E|_]; [lia|].
  simpl. apply paint_lines_ok; [assumption|].
  intros i Hi. now apply visible_range_bounds.
Qed.

(** ** Note directives *)

Lemma not_bracket_no_match (c : ascii) (r : string) :
  is_bracket c = false -> note_match (String c r) = None.
Proof.
  destruct c as [[] [] [] [] [] [] [] []]; intros H; try reflexivity;
    discriminate H.
Qed.

Lemma not_bracket_not_close (c : ascii) (r : string) :
  is_bracket c = false -> String.prefix "]]" (String c r) = false.
Proof.
  destruct c as [[] [] [] [] [] [] [] []]; intros H; try reflexivity;
    discriminate H.
Qed.

Lemma not_bracket_not_newline (c : ascii) :
  is_bracket c = false -> is_newline c = false.
Proof.
  unfold is_bracket, is_newline. intros H.
  apply orb_false_elim in H as [_ H]. exact H.
Qed.

Lemma plain_cons (c : ascii) (s : string) :
  plain (String c s) = true -> is_bracket c = false /\ plain s = true.
Proof.
  simpl. intros H. apply andb_prop in H as [H1 H2].
  now apply negb_true_iff in H1.
Qed.

Lemma close_prefix (b : string) :
  String.prefix "]]" (String "]" (String "]" b)) = true.
Proof. simpl. destruct b; reflexivity. Qed.

Lemma lazy_group_exact (g b : string) :
  plain g = true -> g <> EmptyString ->
  lazy_group (g +:+ "]]" +:+ b) = Some (g, b).
Proof.
  induction g as [|c g IH]; intros Hp Hne; [congruence|].
  apply plain_cons in Hp as [Hc Hg].
  change (String c g +:+ "]]" +:+ b) with (String c (g +:+ "]]" +:+ b)).
  cbn [lazy_group]. rewrite (not_bracket_not_newline c Hc).
  destruct g as [|c' g].
  - change (EmptyString +:+ "]]" +:+ b) with (String "]" (String "]" b)).
    rewrite close_prefix. reflexivity.
  - apply plain_cons in Hg as Hg'. destruct Hg' as [Hc' _].
    change (String c' g +:+ "]]" +:+ b) with (String c' (g +:+ "]]" +:+ b)).
    rewrite (not_bracket_not_close c' _ Hc').
    change (String c' (g +:+ "]]" +:+ b)) with (String c' g +:+ "]]" +:+ b).
    rewrite IH by (assumption || discriminate). reflexivity.
Qed.

Lemma note_sub_skip (x y : string) :
  note_sub_from (String.length x) (x +:+ y) = note_sub_from 0 y.
Proof. induction x as [|c x IH]; [reflexivity | exact IH]. Qed.

Lemma note_sub_plain (b : string) : plain b = true -> note_sub_from 0 b = b.
Proof.
  induction b as [|c b IH]; intros Hp; [reflexivity|].
  apply plain_cons in Hp as [Hc Hb].
  cbn [note_sub_from]. rewrite (not_bracket_no_match c b Hc), IH by assumption.
  reflexivity.
Qed.

Lemma length_append (x y : string) :
  String.length (x +:+ y) = (String.length x + String.length y)%nat.
Proof. induction x as [|c x IH]; simpl; [reflexivity | now rewrite IH]. Qed.

Lemma note_sub_match (c : ascii) (r g rest : string) :
  note_match (String c r) = Some (g, rest) ->
  note_sub_from 0 (String c r) = note_sub_from (String.length g + 3) r.
Proof.
  intros H.
  change (note_sub_from 0 (String c r))
    with (match note_match (String c r) with
          | Some (g, _) => note_sub_from (String.length g + 3) r
          | None => String c (note_sub_from 0 r)
          end).
  now rewrite H.
Qed.

Lemma append_assoc (x y z : string) : (x +:+ y) +:+ z = x +:+ y +:+ z.
Proof.
  induction x as [|c x IH]; [reflexivity|].
  change (String c ((x +:+ y) +:+ z) = String c (x +:+ y +:+ z)).
  now rewrite IH.
Qed.

(** A line with exactly one directive: the search finds its text, the
    substitution leaves what stands around it. *)
Lemma note_one_directive (a g b : string) :
  plain a = true -> plain g = true -> g <> EmptyString -> plain b = true ->
  note_search (a +:+ "[[" +:+ g +:+ "]]" +:+ b) = Some g
  /\ note_sub (a +:+ "[[" +:+ g +:+ "]]" +:+ b) = a +:+ b.
Proof.
  intros Ha Hg Hne Hb. unfold note_sub.
  induction a as [|c a IH].
  - change (EmptyString +:+ "[[" +:+ g +:+ "]]" +:+ b)
      with (String "[" (String "[" (g +:+ "]]" +:+ b))).
    split.
    + cbn [note_search note_match]. now rewrite lazy_group_exact.
    + rewrite (note_sub_match "[" _ g b) by exact (lazy_group_exact g b Hg Hne).
      change (EmptyString +:+ b) with b.
      assert (E1 : (String.length g + 3)%nat
                   = String.length (String "[" (g +:+ "]]")))
        by (cbn [String.length]; rewrite length_append; simpl; lia).
      assert (E2 : String "[" (g +:+ "]]" +:+ b)
                   = String "[" (g +:+ "]]") +:+ b)
        by (change (String "[" (g +:+ "]]") +:+ b)
              with (String "[" ((g +:+ "]]") +:+ b));
            now rewrite append_assoc).
      rewrite E1, E2, note_sub_skip. now apply note_sub_plain.
  - apply plain_cons in Ha as [Hc Ha]. destruct (IH Ha) as [IH1 IH2].
    change (String c a +:+ "[[" +:+ g +:+ "]]" +:+ b)
      with (String c (a +:+ "[[" +:+ g +:+ "]]" +:+ b)).
    split.
    + cbn [note_search]. now rewrite (not_bracket_no_match c _ Hc).
    + cbn [note_sub_from]. rewrite (not_bracket_no_match c _ Hc), IH2.
      reflexivity.
Qed.

(** *** What a paragraph adds to the layout *)

Lemma flush_concat (cur_ws : list string) : concat (flush cur_ws) = cur_ws.
Proof. destruct cur_ws; simpl; [reflexivity | now rewrite app_nil_r]. Qed.

(** The wrapper keeps every word, in order. *)
Lemma wrap_words_concat (adv : string -> Z) (sp_w mw : Z) (words : list string) :
  forall cur_ws cur_w,
    concat (wrap_words adv sp_w mw cur_ws cur_w words) = cur_ws ++ words.
Proof.
  induction words as [|word rest IH]; intros cur_ws cur_w; simpl.
  - now rewrite flush_concat, app_nil_r.
  - destruct (_ <=? mw).
    + rewrite IH, <- app_assoc. reflexivity.
    + rewrite concat_app, flush_concat, IH. reflexivity.
Qed.

Lemma lstrip_head (s : string) :
  lstrip s = EmptyString
  \/ exists c r, lstrip s = String c r /\ is_space c = false.
Proof.
  induction s as [|c s IH]; simpl; [now left|].
  destruct (is_space c) eqn:E; [exact IH|]. right. now exists c, s.
Qed.

Lemma strip_words (s : string) :
  is_empty (strip s) = false -> split_ws (strip s) <> [].
Proof.
  unfold strip. destruct (lstrip_head s) as [->|(c & r & -> & Hc)];
    [discriminate|].
  intros _. simpl. rewrite Hc. simpl. rewrite Hc.
  destruct (starts_word (rstrip r)); [destruct (split_ws (rstrip r))|];
    discriminate.
Qed.

Lemma layout_para_lines adv sp_w align W (acc : Layout) (raw : string) :
  let para := strip (note_sub raw) in
  exists pl,
    pl <> []
    /\ lines (layout_para adv sp_w align W acc raw) = lines acc ++ pl
    /\ ((para = EmptyString /\ pl = [EmptyString])
        \/ (para = _PAUSE_TAG /\ pl = [_PAUSE_TAG])
        \/ (exists flushed,
               pl = map join_sp flushed
               /\ flushed = wrap_words adv sp_w (W - 80) [] 0 (split_ws para)
               /\ concat flushed = split_ws para)).
Proof.
  intros para. unfold layout_para. fold para.
  destruct (is_empty para) eqn:Ee;
    [|destruct (String.eqb_spec para _PAUSE_TAG) as [Ep|Ep]].
  - exists [EmptyString]. split; [discriminate|]. split.
    + destruct (strip <$> note_search raw); reflexivity.
    + left. split; [|reflexivity]. destruct para; [reflexivity | discriminate].
  - exists [_PAUSE_TAG]. split; [discriminate|]. split.
    + destruct (strip <$> note_search raw); reflexivity.
    + right. left. now split.
  - exists (map join_sp (wrap_words adv sp_w (W - 80) [] 0 (split_ws para))).
    pose proof (wrap_words_concat adv sp_w (W - 80) (split_ws para) [] 0) as Hc.
    split; [|split].
    + intros Hnil. apply map_eq_nil in Hnil. rewrite Hnil in Hc. simpl in Hc.
      apply (strip_words (note_sub raw) Ee). now symmetry.
    + destruct (strip <$> note_search raw); reflexivity.
    + right. right. eexists. split; [reflexivity|]. split; [reflexivity|].
      exact Hc.
Qed.

Lemma layout_para_notes adv sp_w align W (acc : Layout) (raw : string) :
  notes (layout_para adv sp_w align W acc raw)
  = match strip <$> note_search raw with
    | Some n => <[ Z.of_nat (length (lines acc)) := n ]> (notes acc)
    | None => notes acc
    end.
Proof.
  unfold layout_para.
  destruct (is_empty _); [|destruct (String.eqb _ _)];
    destruct (strip <$> note_search raw); reflexivity.
Qed.

(** Later paragraphs extend the line list and leave the notes of earlier
    lines alone. *)
Lemma layout_paras_extends adv sp_w align W (raws : list string) :
  forall acc,
    (exists rest, lines (layout_paras adv sp_w align W acc raws)
                  = lines acc ++ rest)
    /\ (forall k : nat, (k < length (lines acc))%nat ->
          notes (layout_paras adv sp_w align W acc raws) !! Z.of_nat k
          = notes acc !! Z.of_nat k).
Proof.
  unfold layout_paras.
  induction raws as [|raw raws IH]; intros acc; simpl.
  - split; [exists []; now rewrite app_nil_r | reflexivity].
  - destruct (IH (layout_para adv sp_w align W acc raw)) as [[rest Hl] Hn].
    destruct (layout_para_lines adv sp_w align W acc raw) as (pl & _ & Hpl & _).
    split.
    + exists (pl ++ rest). now rewrite Hl, Hpl, app_assoc.
    + intros k Hk. rewrite Hn by (rewrite Hpl, length_app; lia).
      rewrite layout_para_notes. destruct (strip <$> note_search raw);
        [|reflexivity].
      apply lookup_insert_ne. lia.
Qed.

Lemma scenario2_first_line (adv : string -> Z) (sp_w mw : Z) :
  adv "Note" + sp_w + adv "here" <= mw ->
  wrap_words adv sp_w mw [] 0 ["Note"; "here"] = [["Note"; "here"]].
Proof.
  intros Hfit. simpl.
  destruct (Z.leb_spec (0 + adv "Note") mw).
  - destruct (Z.leb_spec (0 + adv "Note" + (sp_w + adv "here")) mw);
      [reflexivity | lia].
  - simpl. destruct (Z.leb_spec (adv "Note" + (sp_w + adv "here")) mw);
      [reflexivity | lia].
Qed.

(** C8: for the script ["Note here [[remember this]]\nmore text"] the
    note map is [{0: "remember this"}], whatever the metrics, also in the
    window after [set_text] and [_ensure_layout]; when the two words fit
    in the maximum width, display line 0 is ["Note here"].  In general,
    for a script line that holds exactly one directive [[[g]]] between
    the texts [a] and [b], the note map holds [g], stripped, at the index
    of the first display line of that paragraph, and the display lines of
    the paragraph are the words of [a b], the line without the directive,
    joined by single spaces (one empty line when there are none, the
    pause line when the rest is the pause tag). *)
Theorem note_directive_parsed (adv : string -> Z) (sp_w : Z) (align : Align)
    (W : Z) :
  (notes (build_layout adv sp_w align W scenario2)
   = {[ 0 := "remember this" ]}
   /\ (forall w : TeleprompterWindow,
         _l_notes (_ensure_layout (set_text_ scenario2 w))
         = {[ 0 := "remember this" ]})
   /\ (adv "Note" + sp_w + adv "here" <= W - 80 ->
       lines (build_layout adv sp_w align W scenario2) !! 0%nat
       = Some "Note here"))
  /\ (forall (text : string) (pre post : list string) (a g b : string),
         split_nl text = pre ++ (a +:+ "[[" +:+ g +:+ "]]" +:+ b) :: post ->
         plain a = true -> plain g = true -> g <> EmptyString ->
         plain b = true ->
         let l := build_layout adv sp_w align W text in
         let before := layout_paras adv sp_w align W empty_layout pre in
         let para := strip (a +:+ b) in
         notes l !! Z.of_nat (length (lines before)) = Some (strip g)
         /\ exists pl rest,
             pl <> []
             /\ lines l = lines before ++ pl ++ rest
             /\ ((para = EmptyString /\ pl = [EmptyString])
                 \/ (para = _PAUSE_TAG /\ pl = [_PAUSE_TAG])
                 \/ (exists flushed,
                        pl = map join_sp flushed
                        /\ flushed = wrap_words adv sp_w (W - 80) [] 0
                                                (split_ws para)
                        /\ concat flushed = split_ws para))).
Proof.
  assert (Hnotes : forall adv' sp_w' align' W',
             notes (build_layout adv' sp_w' align' W' scenario2)
             = {[ 0 := "remember this" ]}).
  { intros adv' sp_w' align' W'. unfold build_layout, layout_paras.
    change (split_nl scenario2)
      with ["Note here [[remember this]]"; "more text"].
    cbn [fold_left]. rewrite !layout_para_notes.
    change (strip <$> note_search "more text") with (@None string).
    change (strip <$> note_search "Note here [[remember this]]")
      with (Some "remember this").
    cbn [empty_layout lines notes length]. apply insert_empty. }
  split; [split; [apply Hnotes | split]|].
  - intros w. unfold _ensure_layout.
    assert (E : forall v, _layout_key (_ensure_font (set_text_ scenario2 v)) = None).
    { intros v. unfold _ensure_font. split_ifs; reflexivity. }
    unfold layout_key_hit. rewrite E.
    assert (Et : text (_ensure_font (set_text_ scenario2 w)) = scenario2).
    { unfold _ensure_font. split_ifs; reflexivity. }
    unfold rebuild_layout. cbn [_l_notes set_notes_window set_layout_key
                                 set_l_total set_l_notes].
    rewrite Et. apply Hnotes.
  - intros Hfit. unfold build_layout, layout_paras.
    change (split_nl scenario2)
      with ["Note here [[remember this]]"; "more text"].
    cbn [fold_left].
    destruct (layout_para_lines adv sp_w align W
                (layout_para adv sp_w align W empty_layout
                             "Note here [[remember this]]") "more text")
      as (pl & _ & -> & _).
    unfold layout_para at 1.
    change (strip (note_sub "Note here [[remember this]]")) with "Note here".
    change (is_empty "Note here") with false.
    change (String.eqb "Note here" _PAUSE_TAG) with false.
    change (split_ws "Note here") with ["Note"; "here"].
    rewrite (scenario2_first_line adv sp_w (W - 80) Hfit).
    change (strip <$> note_search "Note here [[remember this]]")
      with (Some "remember this").
    reflexivity.
  - intros text pre post a g b Hsplit Ha Hg Hne Hb l before para.
    destruct (note_one_directive a g b Ha Hg Hne Hb) as [Hsearch Hsub].
    set (raw := a +:+ "[[" +:+ g +:+ "]]" +:+ b) in *.
    assert (El : l = layout_paras adv sp_w align W
                       (layout_para adv sp_w align W before raw) post).
    { unfold l, build_layout, layout_paras. rewrite Hsplit, fold_left_app.
      reflexivity. }
    destruct (layout_paras_extends adv sp_w align W post
                (layout_para adv sp_w align W before raw)) as [[rest Hl] Hn].
    destruct (layout_para_lines adv sp_w align W before raw)
      as (pl & Hpl & Elines & Hcases).
    rewrite Hsub in Hcases. fold para in Hcases.
    split.
    + rewrite El, Hn by (rewrite Elines, length_app; destruct pl;
                         [congruence | simpl; lia]).
      rewrite layout_para_notes, Hsearch. simpl. apply lookup_insert_eq.
    + exists pl, rest. split; [assumption|]. split; [|assumption].
      now rewrite El, Hl, Elines, <- app_assoc.
Qed.

(** ** More on the alpha fade table *)

Lemma alpha_lut_entry (d : nat) :
  (d < 512)%nat ->
  _ALPHA_LUT !! d = Some (Z.max 0 (255 - 3 * Z.of_nat d / 4)).
Proof.
  intros Hd. pose proof alpha_lut_check as H.
  rewrite forallb_forall in H. specialize (H d).
  assert (Hin : In d (seq 0 512)) by (apply in_seq; lia).
  apply H in Hin. clear H.
  destruct (_ALPHA_LUT !! d) as [a|]; [|discriminate].
  apply andb_prop in Hin as [Ha _]. apply Z.eqb_eq in Ha. now subst a.
Qed.

(** X1: the fade table starts at full opacity, every entry is a valid
    alpha value in 0..255, and the entries never increase with the
    distance. *)
Theorem alpha_lut_fades (i j : nat) (a b : Z) :
  (i <= j)%nat ->
  _ALPHA_LUT !! i = Some a -> _ALPHA_LUT !! j = Some b ->
  0 <= b /\ b <= a /\ a <= 255 /\ _ALPHA_LUT !! 0%nat = Some 255.
Proof.
  intros Hij Ha Hb.
  assert (Hi : (i < 512)%nat)
    by (apply lookup_lt_Some in Ha; now rewrite alpha_lut_length in Ha).
  assert (Hj : (j < 512)%nat)
    by (apply lookup_lt_Some in Hb; now rewrite alpha_lut_length in Hb).
  rewrite (alpha_lut_entry i Hi) in Ha. rewrite (alpha_lut_entry j Hj) in Hb.
  injection Ha as <-. injection Hb as <-.
  assert (3 * Z.of_nat i / 4 <= 3 * Z.of_nat j / 4)
    by (apply Z.div_le_mono; lia).
  assert (0 <= 3 * Z.of_nat i / 4) by (apply Z.div_pos; lia).
  split; [lia|]. split; [lia|]. split; [lia|].
  exact (alpha_lut_entry 0 ltac:(lia)).
Qed.

(** ** Line geometry *)

(** X2: [_line_x] never returns a negative position for a margin that is
    not negative.  A left-aligned line starts at the margin; a
    right-aligned line that fits ends exactly at the right margin; a
    centred line that fits has gaps to the left and right that differ by
    at most one pixel. *)
Theorem line_x_placement (line_w win_w margin : Z) (align : Align) :
  0 <= margin ->
  0 <= _line_x line_w align win_w margin
  /\ _line_x line_w AlignLeft win_w margin = margin
  /\ (line_w <= win_w - margin ->
      _line_x line_w AlignRight win_w margin + line_w = win_w - margin)
  /\ (line_w <= win_w ->
      let x := _line_x line_w AlignHCenter win_w margin in
      let right := win_w - (x + line_w) in
      x <= right <= x + 1).
Proof.
  intros Hm. unfold _line_x. rewrite !Z.shiftr_div_pow2 by lia.
  change (2 ^ 1) with 2.
  pose proof (Z.div_mod (win_w - line_w) 2 ltac:(lia)).
  pose proof (Z.mod_pos_bound (win_w - line_w) 2 ltac:(lia)).
  split; [destruct align; lia|]. split; [reflexivity|].
  split; [intros; lia|]. intros Hfit. cbv zeta. lia.
Qed.

Lemma line_x_nonneg_gap (lw W : Z) (align : Align) :
  lw <= W - 80 ->
  40 <= _line_x lw align W 40 /\ _line_x lw align W 40 + lw <= W - 40.
Proof.
  intros H. unfold _line_x. rewrite Z.shiftr_div_pow2 by lia.
  change (2 ^ 1) with 2.
  pose proof (Z.div_mod (W - lw) 2 ltac:(lia)).
  pose proof (Z.mod_pos_bound (W - lw) 2 ltac:(lia)).
  destruct align; lia.
Qed.
(** ** Word offsets stay inside the margins *)

Lemma sum_advance_nonneg (adv : string -> Z) (ws : list string) :
  (forall s, 0 <= adv s) -> 0 <= sum_advance adv ws.
Proof.
  intros Hadv. unfold sum_advance.
  induction ws as [|w ws IH]; simpl; [lia|]. specialize (Hadv w). lia.
Qed.

Lemma word_xs_from_span (adv : string -> Z) (sp_w : Z) (ws : list string) :
  (forall s, 0 <= adv s) -> 0 <= sp_w ->
  forall x0 w x,
    In (w, x) (word_xs_from adv sp_w x0 ws) ->
    x0 <= x /\ x + adv w <= x0 + line_width adv sp_w ws.
Proof.
  intros Hadv Hsp. unfold line_width.
  induction ws as [|w0 ws IH]; intros x0 w x Hin; simpl in Hin; [easy|].
  pose proof (sum_advance_nonneg adv ws Hadv) as Hsum.
  unfold sum_advance in *. simpl.
  destruct Hin as [E|Hin].
  - injection E as <- <-. specialize (Hadv w0). nia.
  - apply IH in Hin. pose proof (Hadv w0). lia.
Qed.

(** X3: with advance widths and a space width that are not negative, in
    every alignment each word of a layout is drawn between the 40 px
    margins, [40 <= x] and [x + width <= W - 40]; the one exception is a
    word alone on its line that is wider than the text area [W - 80],
    which still starts at a position that is not negative. *)
Theorem words_inside_margins (adv : string -> Z) (sp_w W : Z) (align : Align)
    (text : string) :
  (forall s, 0 <= adv s) -> 0 <= sp_w ->
  Forall (fun e : list (string * Z) =>
            forall w x, In (w, x) e ->
              (40 <= x /\ x + adv w <= W - 40)
              \/ (e = [(w, x)] /\ W - 80 < adv w /\ 0 <= x))
         (wxs (build_layout adv sp_w align W text)).
Proof.
  intros Hadv Hsp. unfold build_layout.
  apply layout_paras_wxs_Forall; [intros w x [] | | constructor].
  intros words ws Hws w x Hin.
  pose proof (wrap_words_ok adv sp_w (W - 80) words [] 0 eq_refl) as Hok.
  rewrite Forall_forall in Hok.
  destruct (Hok ws ltac:(now apply list_elem_of_In)) as (Hne & Hfit & Hwide).
  unfold _word_xs in *. fold (line_width adv sp_w ws) in *.
  destruct (Z_le_gt_dec (line_width adv sp_w ws) (W - 80)) as [Hle|Hgt].
  - left. apply word_xs_from_span in Hin; [|assumption..].
    pose proof (line_x_nonneg_gap (line_width adv sp_w ws) W align Hle). lia.
  - right. destruct (Hwide Hne ltac:(lia)) as (w0 & -> & Hw0).
    rewrite line_width_single in *. simpl in Hin. destruct Hin as [E|[]].
    injection E as <- <-. split; [reflexivity|]. split; [lia|].
    unfold _line_x. destruct align; lia.
Qed.

(** ** Display lines and their words *)

Lemma split_ws_spaceless (s : string) :
  Forall (fun w => spaceless w = true /\ w <> EmptyString) (split_ws s).
Proof.
  induction s as [|c s IH]; simpl; [constructor|].
  destruct (is_space c) eqn:Ec; [exact IH|].
  destruct (starts_word s).
  - destruct (split_ws s) as [|w ws]; constructor.
    + simpl. now rewrite Ec.
    + constructor.
    + inversion IH as [|? ? [Hw _] _]; subst. simpl. now rewrite Ec, Hw.
    + now inversion IH.
  - constructor; [|exact IH]. simpl. now rewrite Ec.
Qed.

Lemma split_ws_word_then_space (w r : string) (c : ascii) :
  spaceless w = true -> w <> EmptyString -> is_space c = true ->
  split_ws (w +:+ String c r) = w :: split_ws r.
Proof.
  intros Hw Hne Hc. induction w as [|a w IH]; [congruence|].
  simpl in Hw. apply andb_prop in Hw as [Ha Hw]. apply negb_true_iff in Ha.
  change (String a w +:+ String c r) with (String a (w +:+ String c r)).
  cbn [split_ws]. rewrite Ha.
  destruct w as [|b w].
  - change (EmptyString +:+ String c r) with (String c r).
    cbn [starts_word split_ws]. now rewrite Hc.
  - assert (Hb : is_space b = false).
    { simpl in Hw. apply andb_prop in Hw as [Hb _].
      now apply negb_true_iff in Hb. }
    change (String b w +:+ String c r) with (String b (w +:+ String c r)).
    cbn [starts_word]. rewrite Hb. cbn [negb].
    change (String b (w +:+ String c r)) with (String b w +:+ String c r).
    rewrite IH by (assumption || discriminate). reflexivity.
Qed.

Lemma split_ws_word (w : string) :
  spaceless w = true -> w <> EmptyString -> split_ws w = [w].
Proof.
  intros Hw Hne. induction w as [|a w IH]; [congruence|].
  simpl in Hw. apply andb_prop in Hw as [Ha Hw]. apply negb_true_iff in Ha.
  cbn [split_ws]. rewrite Ha. destruct w as [|b w]; [reflexivity|].
  assert (Hb : is_space b = false).
  { simpl in Hw. apply andb_prop in Hw as [Hb _]. now apply negb_true_iff in Hb. }
  cbn [starts_word]. rewrite Hb. cbn [negb].
  rewrite IH by (assumption || discriminate). reflexivity.
Qed.

(** Joining words with single spaces and splitting again gives the words
    back. *)
Lemma split_ws_join (ws : list string) :
  Forall (fun w => spaceless w = true /\ w <> EmptyString) ws ->
  split_ws (join_sp ws) = ws.
Proof.
  induction ws as [|w ws IH]; intros H; [reflexivity|].
  inversion H as [|? ? [Hw Hne] Hrest]; subst.
  destruct ws as [|w' ws]; [now apply split_ws_word|].
  change (join_sp (w :: w' :: ws)) with (w +:+ String " " (join_sp (w' :: ws))).
  rewrite split_ws_word_then_space by (assumption || reflexivity).
  now rewrite IH.
Qed.

Lemma wrapped_words_spaceless (adv : string -> Z) (sp_w mw : Z) (s : string) :
  Forall (fun ws => ws <> []
                    /\ Forall (fun w => spaceless w = true /\ w <> EmptyString) ws)
         (wrap_words adv sp_w mw [] 0 (split_ws s)).
Proof.
  apply wrap_words_members; [constructor | apply split_ws_spaceless].
Qed.

Lemma line_matches_mono (ps ps' : gset Z) i line e :
  ps ⊆ ps' -> line_matches ps i line e -> line_matches ps' i line e.
Proof.
  intros Hsub [H|[(H1 & H2 & H3)|H]]; [now left | | now right; right].
  right. left. repeat split; try assumption. now apply Hsub.
Qed.

Lemma lines_match_app (l : Layout) (ls' : list string)
    (xs' : list (list (string * Z))) (ps' : gset Z) (nt : gmap Z string) :
  length (lines l) = length (wxs l) ->
  pauses l ⊆ ps' ->
  lines_match l ->
  (forall (j : nat) line e, ls' !! j = Some line -> xs' !! j = Some e ->
      line_matches ps' (length (lines l) + j) line e) ->
  lines_match (mkLayout (lines l ++ ls') (wxs l ++ xs') ps' nt).
Proof.
  intros Hlen Hsub Hm Hnew i line e Hl He. simpl in *.
  destruct (decide (i < length (lines l))%nat) as [Hlt|Hge].
  - rewrite lookup_app_l in Hl by assumption.
    rewrite lookup_app_l in He by (rewrite <- Hlen; assumption).
    eapply line_matches_mono; [exact Hsub | now apply Hm].
  - rewrite lookup_app_r in Hl by lia. rewrite lookup_app_r in He by lia.
    rewrite <- Hlen in He.
    replace i with (length (lines l) + (i - length (lines l)))%nat at 1 by lia.
    now apply Hnew.
Qed.

Lemma layout_para_match adv sp_w align W (acc : Layout) (raw : string) :
  length (lines acc) = length (wxs acc) ->
  lines_match acc ->
  lines_match (layout_para adv sp_w align W acc raw).
Proof.
  clear QFontMetrics.
  intros Hlen Hm.
  assert (Hnotes : forall l nt, lines_match l ->
             lines_match (mkLayout (lines l) (wxs l) (pauses l) nt))
    by (intros l nt H i line e Hl He; exact (H i line e Hl He)).
  assert (Hbody : lines_match
            (if is_empty (strip (note_sub raw)) then
               mkLayout (lines acc ++ [EmptyString]) (wxs acc ++ [[]])
                        (pauses acc) (notes acc)
             else if String.eqb (strip (note_sub raw)) _PAUSE_TAG then
               mkLayout (lines acc ++ [_PAUSE_TAG]) (wxs acc ++ [[]])
                        ({[ Z.of_nat (length (lines acc)) ]} ∪ pauses acc)
                        (notes acc)
             else
               mkLayout
                 (lines acc ++ map join_sp
                    (wrap_words adv sp_w (W - 80) [] 0
                                (split_ws (strip (note_sub raw)))))
                 (wxs acc ++ map (fun ws => _word_xs ws adv sp_w align W)
                    (wrap_words adv sp_w (W - 80) [] 0
                                (split_ws (strip (note_sub raw)))))
                 (pauses acc) (notes acc))).
  { destruct (is_empty _); [|destruct (String.eqb _ _)].
    - apply lines_match_app; [assumption | reflexivity | assumption|].
      intros [|j] line e Hl He; [|discriminate].
      injection Hl as <-. injection He as <-. now left.
    - apply lines_match_app; [assumption | set_solver | assumption|].
      intros [|j] line e Hl He; [|discriminate].
      injection Hl as <-. injection He as <-. right. left.
      rewrite Nat.add_0_r. repeat split. set_solver.
    - apply lines_match_app; [assumption | reflexivity | assumption|].
      intros j line e Hl He.
      change (map join_sp ?l) with (join_sp <$> l) in Hl.
      change (map ?f ?l) with (f <$> l) in He.
      rewrite list_lookup_fmap in Hl. rewrite list_lookup_fmap in He.
      destruct (_ !! j) as [ws|] eqn:Ews; [|discriminate].
      injection Hl as <-. injection He as <-.
      pose proof (wrapped_words_spaceless adv sp_w (W - 80)
                    (strip (note_sub raw))) as Hall.
      rewrite Forall_forall in Hall.
      destruct (Hall ws (list_elem_of_lookup_2 _ _ _ Ews)) as [Hne Hws].
      right. right. rewrite map_fst_word_xs. split; [|split].
      + now apply split_ws_join.
      + destruct ws; [congruence | discriminate].
      + reflexivity. }
  unfold layout_para. destruct (strip <$> note_search raw);
    [apply Hnotes|]; exact Hbody.
Qed.

Lemma layout_para_len adv sp_w align W (acc : Layout) (raw : string) :
  length (lines acc) = length (wxs acc) ->
  length (lines (layout_para adv sp_w align W acc raw))
  = length (wxs (layout_para adv sp_w align W acc raw)).
Proof.
  intros H. unfold layout_para.
  destruct (is_empty _); [|destruct (String.eqb _ _)];
    destruct (strip <$> note_search raw); simpl;
    rewrite !length_app, ?length_map, H; reflexivity.
Qed.

Lemma layout_para_table_words adv sp_w align W (acc : Layout) (raw : string) :
  concat (map (map fst) (wxs (layout_para adv sp_w align W acc raw)))
  = concat (map (map fst) (wxs acc)) ++ para_words raw.
Proof.
  unfold layout_para, para_words.
  destruct (is_empty (strip (note_sub raw))) eqn:Ee.
  - assert (E : strip (note_sub raw) = EmptyString)
      by (destruct (strip (note_sub raw)); [reflexivity | discriminate]).
    rewrite E. destruct (strip <$> note_search raw); simpl;
      rewrite map_app, concat_app; reflexivity.
  - destruct (String.eqb (strip (note_sub raw)) _PAUSE_TAG);
      destruct (strip <$> note_search raw); simpl;
      rewrite map_app, concat_app; try reflexivity;
      (f_equal; rewrite map_map;
       rewrite (map_ext _ (fun ws => ws))
         by (intros ws; apply map_fst_word_xs);
       rewrite map_id; apply wrap_words_concat).
Qed.

Lemma layout_paras_match adv sp_w align W (raws : list string) :
  forall acc,
    length (lines acc) = length (wxs acc) ->
    lines_match acc ->
    lines_match (layout_paras adv sp_w align W acc raws)
    /\ concat (map (map fst) (wxs (layout_paras adv sp_w align W acc raws)))
       = concat (map (map fst) (wxs acc)) ++ concat (map para_words raws).
Proof.
  clear QFontMetrics.
  unfold layout_paras.
  induction raws as [|raw raws IH]; intros acc Hlen Hm; simpl.
  - split; [assumption | now rewrite app_nil_r].
  - destruct (IH (layout_para adv sp_w align W acc raw)) as [Hm' Hc'].
    + now apply layout_para_len.
    + now apply layout_para_match.
    + split; [assumption|].
      now rewrite Hc', layout_para_table_words, <- app_assoc.
Qed.

(** X4: in the layout of any script, the text of a display line that is
    not a pause line splits at whitespace into exactly the words of its
    word-offset list, so the fast path (whole line) and the highlight path
    (word by word) draw the same words; a wrapped line is its words joined
    by single spaces.  Read in order, the word-offset table holds
    exactly the words of the script lines, notes cut out and pause lines
    left out: the wrapper drops, repeats or reorders nothing. *)
Theorem line_text_matches_words (adv : string -> Z) (sp_w W : Z)
    (align : Align) (text : string) :
  let l := build_layout adv sp_w align W text in
  (forall (i : nat) (line : string) (e : list (string * Z)),
      lines l !! i = Some line -> wxs l !! i = Some e ->
      Z.of_nat i ∉ pauses l ->
      split_ws line = map fst e
      /\ (e <> [] -> line = join_sp (map fst e)))
  /\ concat (map (map fst) (wxs l)) = concat (map para_words (split_nl text)).
Proof.
  clear QFontMetrics.
  intros l. unfold l, build_layout.
  destruct (layout_paras_match adv sp_w align W (split_nl text) empty_layout)
    as [Hm Hc]; [reflexivity | intros i line e Hl; discriminate Hl|].
  split; [|exact Hc].
  intros i line e Hl He Hp.
  destruct (Hm i line e Hl He) as [[-> ->]|[(_ & _ & Hin)|(Hs & Hne & Hj)]].
  - split; [reflexivity | congruence].
  - contradiction.
  - split; [assumption | intros _; assumption].
Qed.

(** ** Indices of a layout *)

Lemma split_nl_nonempty (s : string) : split_nl s <> [].
Proof.
  destruct s as [|c s]; simpl; [discriminate|].
  destruct (is_newline c); [discriminate|]. destruct (split_nl s); discriminate.
Qed.

Lemma layout_para_pauses adv sp_w align W (acc : Layout) (raw : string) :
  pauses (layout_para adv sp_w align W acc raw) = pauses acc
  \/ (pauses (layout_para adv sp_w align W acc raw)
      = {[ Z.of_nat (length (lines acc)) ]} ∪ pauses acc
      /\ lines (layout_para adv sp_w align W acc raw)
         = lines acc ++ [_PAUSE_TAG]).
Proof.
  unfold layout_para.
  destruct (is_empty _); [|destruct (String.eqb _ _)];
    destruct (strip <$> note_search raw); simpl; auto.
Qed.

Lemma layout_para_indices adv sp_w align W (acc : Layout) (raw : string) :
  indices_ok acc -> indices_ok (layout_para adv sp_w align W acc raw).
Proof.
  intros [Hn Hp].
  destruct (layout_para_lines adv sp_w align W acc raw) as (pl & Hpl & El & _).
  assert (Hlen : (length (lines acc)
                  < length (lines (layout_para adv sp_w align W acc raw)))%nat).
  { rewrite El, length_app. destruct pl; [congruence | simpl; lia]. }
  split.
  - intros k v. rewrite layout_para_notes.
    destruct (strip <$> note_search raw) as [n|].
    + rewrite lookup_insert. case_decide as Hk.
      * intros _. lia.
      * intros Hv. apply Hn in Hv. lia.
    + intros Hv. apply Hn in Hv. lia.
  - intros k Hk.
    assert (Hold : k ∈ pauses acc ->
              0 <= k /\ lines (layout_para adv sp_w align W acc raw)
                          !! Z.to_nat k = Some _PAUSE_TAG).
    { intros Hin. destruct (Hp k Hin) as [H0 Hl]. split; [assumption|].
      rewrite El, lookup_app_l; [assumption|].
      eapply lookup_lt_Some; eassumption. }
    destruct (layout_para_pauses adv sp_w align W acc raw) as [E|[E El']].
    + rewrite E in Hk. auto.
    + rewrite E in Hk. apply elem_of_union in Hk as [Hk|Hk]; [|auto].
      apply elem_of_singleton in Hk. subst k. split; [lia|].
      rewrite El', Nat2Z.id, lookup_app_r by lia.
      now rewrite Nat.sub_diag.
Qed.

Lemma layout_paras_indices adv sp_w align W (raws : list string) :
  forall acc,
    indices_ok acc ->
    indices_ok (layout_paras adv sp_w align W acc raws)
    /\ (length (lines acc) + length raws
        <= length (lines (layout_paras adv sp_w align W acc raws)))%nat.
Proof.
  unfold layout_paras.
  induction raws as [|raw raws IH]; intros acc H; simpl.
  - split; [assumption | lia].
  - destruct (IH _ (layout_para_indices adv sp_w align W acc raw H)) as [Hi Hl].
    split; [assumption|].
    destruct (layout_para_lines adv sp_w align W acc raw) as (pl & Hpl & El & _).
    rewrite El, length_app in Hl. destruct pl; [congruence | simpl in Hl; lia].
Qed.

(** X5: a layout has at least one display line for every line of the
    script, so it is never empty (the empty script gives one empty line);
    every key of its note map is the index of one of its lines, and every
    index of its pause set is the index of a line that holds the pause
    tag. *)
Theorem layout_indices_valid (adv : string -> Z) (sp_w W : Z) (align : Align)
    (text : string) :
  let l := build_layout adv sp_w align W text in
  (1 <= length (split_nl text) <= length (lines l))%nat
  /\ indices_ok l.
Proof.
  intros l. unfold l, build_layout.
  destruct (layout_paras_indices adv sp_w align W (split_nl text) empty_layout)
    as [Hi Hl].
  { split; [intros k v Hk; simpl in Hk; rewrite lookup_empty in Hk;
            discriminate|].
    intros k Hk. simpl in Hk. set_solver. }
  split; [|assumption]. simpl in Hl.
  pose proof (split_nl_nonempty text). destruct (split_nl text);
    [congruence | simpl in *; lia].
Qed.

(** ** The caches never hold a stale layout *)

Lemma py_int_nonpos (x : Q) : (x <= 0)%Q -> py_int x = - Qfloor (- x).
Proof.
  intros H. rewrite <- py_int_nonneg by lra.
  destruct x as [n d]. unfold py_int, Qopp. simpl.
  rewrite Z.quot_opp_l by lia. lia.
Qed.

Lemma py_int_Qeq (x y : Q) : (x == y)%Q -> py_int x = py_int y.
Proof.
  intros E. destruct (Qlt_le_dec x 0) as [Hneg|Hpos].
  - rewrite (py_int_nonpos x), (py_int_nonpos y) by lra. now rewrite E.
  - rewrite (py_int_nonneg x), (py_int_nonneg y) by lra. now rewrite E.
Qed.

Ltac cache_same := let H := fresh "H" in intros H; exact H.

Ltac cache_stale :=
  let Hf := fresh "Hf" in
  let Hk := fresh "Hk" in
  intros [Hf _]; split; [exact Hf | intros ? ? ? ? Hk; discriminate Hk].

Ltac cache_reset :=
  let Hk := fresh "Hk" in
  intros _; split; [intros ? ? ? Hk | intros ? ? ? ? Hk]; discriminate Hk.

Lemma ensure_font_caches w : caches_ok w -> caches_ok (_ensure_font w).
Proof.
  unfold _ensure_font. destruct (font_key_hit _ _); [auto|].
  intros _. split.
  - intros fam size fac Hk. simpl in Hk. unfold font_key_of in Hk.
    injection Hk as <- <- <-. repeat split.
  - intros ? ? ? ? Hk. discriminate Hk.
Qed.

Lemma rebuild_layout_caches w : caches_ok w -> caches_ok (rebuild_layout w).
Proof.
  intros [Hf _]. split; [exact Hf|].
  intros t W fk al Hk. simpl in Hk. unfold layout_key_of in Hk.
  injection Hk as <- <- <- <-. repeat split.
Qed.

Lemma ensure_layout_caches w : caches_ok w -> caches_ok (_ensure_layout w).
Proof.
  intros H. unfold _ensure_layout. apply ensure_font_caches in H.
  destruct (layout_key_hit _ _); [assumption | now apply rebuild_layout_caches].
Qed.

Lemma scroll_check_caches w : caches_ok w -> caches_ok (scroll_check w).
Proof.
  unfold scroll_check, _do_pause.
  destruct (pause_hit w); [cache_same|].
  destruct (focus_changed w), (at_end w) eqn:E; simpl; rewrite ?E; simpl;
    split_ifs; cache_same.
Qed.

Lemma scroll_step_caches e w : caches_ok w -> caches_ok (_scroll_step e w).
Proof.
  intros H. apply scroll_check_caches. unfold scroll_advance.
  apply ensure_layout_caches.
  destruct (auto_speed_enabled w) eqn:E; simpl; rewrite ?E; revert H;
    cache_same.
Qed.

Lemma toggle_play_caches w : caches_ok w -> caches_ok (toggle_play w).
Proof.
  unfold toggle_play, _start_countdown, _begin_play, _do_pause.
  destruct (_cd_val w); [cache_same|].
  destruct (is_playing w); simpl; [cache_same|].
  destruct (0 <? countdown_secs w); cache_same.
Qed.

Lemma cd_tick_caches w : caches_ok w -> caches_ok (_cd_tick w).
Proof.
  unfold _cd_tick, _begin_play. destruct (_cd_val w); [|auto].
  destruct (_ <=? 0); cache_same.
Qed.

Lemma key_caches k w : caches_ok w -> caches_ok (keyPressEvent k w).
Proof.
  destruct k; simpl; auto using toggle_play_caches;
    try (unfold _speed_up, _speed_dn, reset; cache_same).
Qed.

Lemma paint_caches w : caches_ok w -> caches_ok (fst (paintEvent w)).
Proof.
  intros H. unfold paintEvent.
  destruct (_cd_val w); [now apply ensure_font_caches|].
  destruct (is_empty (text w)); [assumption|].
  destruct (_f_line_h (_ensure_layout w) =? 0); now apply ensure_layout_caches.
Qed.

Lemma handle_caches e w : caches_ok w -> caches_ok (handle e w).
Proof.
  destruct e; simpl.
  - unfold set_text_. cache_stale.
  - apply toggle_play_caches.
  - unfold reset. cache_same.
  - destruct (_cd_timer w); [apply cd_tick_caches | auto].
  - destruct (_scroll_timer w); [apply scroll_step_caches | auto].
  - apply key_caches.
  - unfold wheelEvent, _speed_up, _speed_dn. destruct (0 <? dy); cache_same.
  - unfold resizeEvent. cache_stale.
  - apply paint_caches.
  - unfold _on_speed. cache_same.
  - cache_same.
  - unfold _on_font, invalidate_layout. cache_reset.
  - unfold _on_ls, invalidate_layout. cache_reset.
  - unfold on_font_family, invalidate_layout. cache_reset.
  - unfold _on_align. destruct (_ !! idx); [cache_stale | auto].
  - unfold on_focus_zone. destruct (_ !! i); [cache_same | auto].
  - cache_same.
  - destruct MIC_OK eqn:E; [|auto]. unfold _on_mic, start_mic, stop_mic.
    destruct b; simpl; [destruct (negb _ || _)|]; cache_same.
  - destruct MIC_OK eqn:E; [cache_same | auto].
  - unfold mic_callback. destruct (_mic_stream w); [cache_same | auto].
Qed.

Lemma reachable_caches w : reachable w -> caches_ok w.
Proof.
  intros (W & H & es & ->). unfold run.
  assert (J : caches_ok (init (Z.max 640 W) (Z.max 420 H)))
    by (split; [intros ? ? ? Hk | intros ? ? ? ? Hk]; discriminate Hk).
  revert J. generalize (init (Z.max 640 W) (Z.max 420 H)).
  induction es as [|e es IH]; intros w J; simpl; [assumption|].
  apply IH, handle_caches, J.
Qed.

Lemma ensure_layout_settings w :
  text (_ensure_layout w) = text w
  /\ width (_ensure_layout w) = width w
  /\ text_align (_ensure_layout w) = text_align w
  /\ font_family (_ensure_layout w) = font_family w
  /\ font_size (_ensure_layout w) = font_size w
  /\ line_spacing_factor (_ensure_layout w) = line_spacing_factor w.
Proof. repeat split; keeps. Qed.

Lemma Align_eqb_eq (a b : Align) : Align_eqb a b = true -> a = b.
Proof. destruct a, b; simpl; congruence. Qed.

(** X6: the layout cache is never stale.  In every state the window can
    be in, after [_ensure_layout] the cached lines, word offsets, pause
    set and note map are those of a fresh layout of the current text at
    the current width and alignment with the metrics of the current font
    family and size; the cached line height is
    [max(1, int(lineSpacing * line_spacing_factor))] for that font, and
    the total height is the number of lines times the line height. *)
Theorem layout_cache_never_stale (w : TeleprompterWindow) :
  reachable w ->
  let w' := _ensure_layout w in
  let fm := QFontMetrics (font_family w) (font_size w) in
  let l := build_layout (horizontalAdvance fm) (horizontalAdvance fm " ")
                        (text_align w) (width w) (text w) in
  _l_lines w' = lines l
  /\ _l_word_xs w' = wxs l
  /\ _l_pause w' = pauses l
  /\ _l_notes w' = notes l
  /\ _f_line_h w'
     = Z.max 1 (py_int (inject_Z (lineSpacing fm) * line_spacing_factor w))
  /\ _l_total w' = inject_Z (Z.of_nat (length (lines l)) * _f_line_h w').
Proof.
  intros Hr w' fm l.
  pose proof (ensure_layout_caches w (reachable_caches w Hr)) as [Hf Hl].
  pose proof (ensure_layout_current w) as Hhit. fold w' in Hf, Hl, Hhit.
  destruct (ensure_layout_settings w) as (Et & Ew & Ea & Eff & Efs & Els).
  fold w' in Et, Ew, Ea, Eff, Efs, Els.
  unfold layout_cache_hit in Hhit. apply andb_prop in Hhit as [Hfh Hlh].
  unfold font_key_hit in Hfh.
  destruct (_font_key w') as [[[fam size] fac]|] eqn:Efk; [|discriminate].
  unfold FontKey_eqb, font_key_of in Hfh.
  apply andb_prop in Hfh as [Hfh Hfac]. apply andb_prop in Hfh as [Hfam Hsize].
  apply String.eqb_eq in Hfam. apply Z.eqb_eq in Hsize.
  apply Qeq_bool_iff in Hfac.
  rewrite Eff in Hfam. rewrite Efs in Hsize. rewrite Els in Hfac.
  subst fam size.
  destruct (Hf _ _ _ Efk) as (Hfm & _ & Hlh' & Hsp). fold fm in Hfm, Hlh', Hsp.
  unfold layout_key_hit in Hlh.
  destruct (_layout_key w') as [[[[t W] fk] al]|] eqn:Elk; [|discriminate].
  unfold LayoutKey_eqb, layout_key_of in Hlh.
  apply andb_prop in Hlh as [Hlh Hal]. apply andb_prop in Hlh as [Hlh _].
  apply andb_prop in Hlh as [Ht HW].
  apply String.eqb_eq in Ht. apply Z.eqb_eq in HW. apply Align_eqb_eq in Hal.
  rewrite Et in Ht. rewrite Ew in HW. rewrite Ea in Hal. subst t W al.
  destruct (Hl _ _ _ _ Elk) as (H1 & H2 & H3 & H4 & H5).
  rewrite Hfm, Hsp in H1, H2, H3, H4, H5. simpl in H1, H2, H3, H4, H5.
  fold l in H1, H2, H3, H4, H5.
  repeat split; try assumption.
  rewrite Hlh'. f_equal. apply py_int_Qeq. now rewrite Hfac.
Qed.

(** ** Playback states *)

Ltac pb_same :=
  let H := fresh "H" in intros H; exact H.

Lemma toggle_play_playback w : playback_ok w -> playback_ok (toggle_play w).
Proof.
  unfold toggle_play, _start_countdown, _begin_play, _do_pause, playback_ok.
  destruct (_cd_val w) as [n|] eqn:E; simpl.
  - intros (Hc & _). split; [assumption | reflexivity].
  - destruct (is_playing w) eqn:Ep; simpl; rewrite ?E.
    + intros J; exact J.
    + destruct (Z.ltb_spec 0 (countdown_secs w)); simpl; rewrite ?E.
      * intros (Hc & _). repeat split; try lia; try reflexivity; assumption.
      * intros J; exact J.
Qed.

Lemma cd_tick_playback w : playback_ok w -> playback_ok (_cd_tick w).
Proof.
  unfold _cd_tick, _begin_play, playback_ok.
  destruct (_cd_val w) as [n|] eqn:E; [|rewrite E; auto].
  destruct (Z.leb_spec (n - 1) 0); simpl.
  - intros (Hc & _). split; [assumption | reflexivity].
  - intros (Hc & Ht & Hn & Hp). repeat split; try assumption; lia.
Qed.

Lemma scroll_check_playback w : playback_ok w -> playback_ok (scroll_check w).
Proof.
  unfold scroll_check, _do_pause, playback_ok.
  destruct (pause_hit w).
  - simpl. destruct (_cd_val w); intros (Hc & J); split; try assumption.
    destruct J as (? & ? & ?).
    split; [assumption | split; [assumption | reflexivity]].
  - destruct (focus_changed w), (at_end w) eqn:E; simpl; rewrite ?E; simpl;
      split_ifs; simpl; destruct (_cd_val w); intros (Hc & J); split;
      try assumption; destruct J as (? & ? & ?);
      (split; [assumption | split; [assumption | (assumption || reflexivity)]]).
Qed.

Lemma ensure_font_playback w : playback_ok w -> playback_ok (_ensure_font w).
Proof. unfold _ensure_font. destruct (font_key_hit _ _); [auto | pb_same]. Qed.

Lemma ensure_layout_playback w : playback_ok w -> playback_ok (_ensure_layout w).
Proof.
  intros H. unfold _ensure_layout. apply ensure_font_playback in H.
  destruct (layout_key_hit _ _); [assumption|]. revert H.
  unfold rebuild_layout. pb_same.
Qed.

Lemma scroll_step_playback e w : playback_ok w -> playback_ok (_scroll_step e w).
Proof.
  intros H. apply scroll_check_playback. unfold scroll_advance.
  apply ensure_layout_playback.
  destruct (auto_speed_enabled w) eqn:E; simpl; rewrite ?E; revert H; pb_same.
Qed.

Lemma reset_playback w : playback_ok w -> playback_ok (reset w).
Proof. unfold reset, playback_ok. simpl. intros (Hc & _). now split. Qed.

Lemma key_playback k w : playback_ok w -> playback_ok (keyPressEvent k w).
Proof.
  destruct k; simpl; auto using toggle_play_playback, reset_playback;
    try (unfold _speed_up, _speed_dn; pb_same).
Qed.

Lemma paint_playback w : playback_ok w -> playback_ok (fst (paintEvent w)).
Proof.
  intros H. unfold paintEvent.
  destruct (_cd_val w) eqn:E; [now apply ensure_font_playback|].
  destruct (is_empty (text w)); [assumption|].
  destruct (_f_line_h (_ensure_layout w) =? 0); now apply ensure_layout_playback.
Qed.

Lemma handle_playback e w : playback_ok w -> playback_ok (handle e w).
Proof.
  destruct e; simpl.
  - unfold set_text_. pb_same.
  - apply toggle_play_playback.
  - apply reset_playback.
  - destruct (_cd_timer w); [apply cd_tick_playback | auto].
  - destruct (_scroll_timer w); [apply scroll_step_playback | auto].
  - apply key_playback.
  - unfold wheelEvent, _speed_up, _speed_dn. destruct (0 <? dy); pb_same.
  - unfold resizeEvent. pb_same.
  - apply paint_playback.
  - unfold _on_speed. pb_same.
  - unfold playback_ok. simpl. intros (_ & H). split; [|exact H].
    unfold bounded. lia.
  - unfold _on_font, invalidate_layout. pb_same.
  - unfold _on_ls, invalidate_layout. pb_same.
  - unfold on_font_family, invalidate_layout. pb_same.
  - unfold _on_align. destruct (_ !! idx); [pb_same | auto].
  - unfold on_focus_zone. destruct (_ !! i); [pb_same | auto].
  - pb_same.
  - destruct MIC_OK eqn:E; [|auto]. unfold _on_mic, start_mic, stop_mic.
    destruct b; simpl; [destruct (negb _ || _)|]; pb_same.
  - destruct MIC_OK eqn:E; [pb_same | auto].
  - unfold mic_callback. destruct (_mic_stream w); [pb_same | auto].
Qed.

Lemma reachable_playback w : reachable w -> playback_ok w.
Proof.
  intros (W & H & es & ->). unfold run.
  assert (J : playback_ok (init (Z.max 640 W) (Z.max 420 H)))
    by (unfold playback_ok; simpl; split; [lia | reflexivity]).
  revert J. generalize (init (Z.max 640 W) (Z.max 420 H)).
  induction es as [|e es IH]; intros w J; simpl; [assumption|].
  apply IH, handle_playback, J.
Qed.

(** X7: in every state the window can be in, the playback state is
    well formed: the scroll timer runs exactly while playing; the
    countdown timer runs exactly while a countdown value is set, that
    value is between 1 and 10, and the window is not playing during a
    countdown. *)
Theorem playback_state_well_formed (w : TeleprompterWindow) :
  reachable w ->
  is_playing w = _scroll_timer w
  /\ match _cd_val w with
     | Some n => _cd_timer w = true /\ 1 <= n <= 10 /\ is_playing w = false
     | None => _cd_timer w = false
     end.
Proof.
  intros Hr. split; [apply (reachable_inv w Hr) | apply (reachable_playback w Hr)].
Qed.

(** ** Countdown *)

Lemma cd_timeouts_S n w : cd_timeouts (S n) w = handle EvCdTimeout (cd_timeouts n w).
Proof. reflexivity. Qed.

(** X8: starting play from rest with a countdown of [n >= 1] seconds
    counts down: after [k < n] timeouts of the countdown timer the value
    is [n - k] and the window is still not playing; after exactly [n]
    timeouts it plays and the countdown is over; pressing play during the
    countdown cancels it and the window stays at rest.  None of this moves
    the scroll offset. *)
Theorem countdown_runs (w : TeleprompterWindow) (n : Z) :
  _cd_val w = None -> is_playing w = false ->
  countdown_secs w = n -> 1 <= n ->
  (forall k : nat, Z.of_nat k < n ->
      let c := cd_timeouts k (toggle_play w) in
      _cd_val c = Some (n - Z.of_nat k)
      /\ _cd_timer c = true
      /\ is_playing c = false
      /\ scroll_y c = scroll_y w
      /\ _cd_val (toggle_play c) = None
      /\ _cd_timer (toggle_play c) = false
      /\ is_playing (toggle_play c) = false
      /\ scroll_y (toggle_play c) = scroll_y w)
  /\ (let p := cd_timeouts (Z.to_nat n) (toggle_play w) in
      _cd_val p = None
      /\ _cd_timer p = false
      /\ is_playing p = true
      /\ _scroll_timer p = true
      /\ scroll_y p = scroll_y w).
Proof.
  intros Hcd Hplay Hn Hpos.
  assert (Hstep : forall k : nat, Z.of_nat k < n ->
             let c := cd_timeouts k (toggle_play w) in
             _cd_val c = Some (n - Z.of_nat k) /\ _cd_timer c = true
             /\ is_playing c = false /\ scroll_y c = scroll_y w).
  { induction k as [|k IH]; intros Hk.
    - unfold cd_timeouts. simpl. unfold toggle_play.
      rewrite Hcd, Hplay. simpl.
      destruct (Z.ltb_spec 0 (countdown_secs w)); [|lia].
      unfold _start_countdown. simpl. rewrite Hn, Z.sub_0_r. repeat split.
      assumption.
    - destruct (IH ltac:(lia)) as (E1 & E2 & E3 & E4).
      cbv zeta. rewrite cd_timeouts_S. simpl. rewrite E2.
      unfold _cd_tick. rewrite E1.
      destruct (Z.leb_spec (n - Z.of_nat k - 1) 0); [lia|]. simpl.
      repeat split; try assumption. f_equal. lia. }
  split.
  - intros k Hk c. destruct (Hstep k Hk) as (E1 & E2 & E3 & E4). fold c in E1, E2, E3, E4.
    repeat split; try assumption; unfold toggle_play; rewrite E1; simpl;
      try reflexivity; assumption.
  - cbv zeta. replace (Z.to_nat n) with (S (Z.to_nat (n - 1))) by lia.
    destruct (Hstep (Z.to_nat (n - 1)) ltac:(lia)) as (E1 & E2 & E3 & E4).
    rewrite cd_timeouts_S. simpl. rewrite E2. unfold _cd_tick. rewrite E1.
    destruct (Z.leb_spec (n - Z.of_nat (Z.to_nat (n - 1)) - 1) 0); [|lia].
    unfold _begin_play. simpl. repeat split. assumption.
Qed.

(** ** How far a tick moves *)

Ltac mic_same := let H := fresh "H" in intros _ H; exact H.

Lemma scroll_step_mic e w : mic_ok w -> mic_ok (_scroll_step e w).
Proof.
  unfold mic_ok. rewrite scroll_step_target, scroll_step_smooth.
  intros ([Ht1 Ht2] & [Hs1 Hs2]).
  destruct (auto_speed_enabled w); repeat split; lra.
Qed.

Lemma ensure_font_mic w : mic_ok w -> mic_ok (_ensure_font w).
Proof.
  unfold _ensure_font. destruct (font_key_hit _ _); [auto|].
  intros H; exact H.
Qed.

Lemma ensure_layout_mic w : mic_ok w -> mic_ok (_ensure_layout w).
Proof.
  unfold mic_ok. now rewrite ensure_layout_target, ensure_layout_smooth.
Qed.

Lemma handle_mic e w : engine_inv w -> mic_ok w -> mic_ok (handle e w).
Proof.
  destruct e; simpl.
  - unfold set_text_. mic_same.
  - unfold toggle_play, _start_countdown, _begin_play, _do_pause.
    destruct (_cd_val w); [mic_same|].
    destruct (is_playing w); simpl; [mic_same|].
    destruct (0 <? countdown_secs w); mic_same.
  - unfold reset. mic_same.
  - destruct (_cd_timer w); [|auto]. unfold _cd_tick, _begin_play.
    destruct (_cd_val w); [|auto]. destruct (_ <=? 0); mic_same.
  - destruct (_scroll_timer w); [intros _; apply scroll_step_mic | auto].
  - destruct k; simpl;
      unfold toggle_play, _start_countdown, _begin_play, _do_pause,
        _speed_up, _speed_dn, reset;
      try mic_same;
      (destruct (_cd_val w); [mic_same|];
       destruct (is_playing w); simpl; [mic_same|];
       destruct (0 <? countdown_secs w); mic_same).
  - unfold wheelEvent, _speed_up, _speed_dn. destruct (0 <? dy); mic_same.
  - unfold resizeEvent. mic_same.
  - intros _ H. unfold paintEvent.
    destruct (_cd_val w); [now apply ensure_font_mic|].
    destruct (is_empty (text w)); [assumption|].
    destruct (_f_line_h (_ensure_layout w) =? 0); now apply ensure_layout_mic.
  - unfold _on_speed. mic_same.
  - mic_same.
  - unfold _on_font, invalidate_layout. mic_same.
  - unfold _on_ls, invalidate_layout. mic_same.
  - unfold on_font_family, invalidate_layout. mic_same.
  - unfold _on_align. destruct (_ !! idx); [mic_same | auto].
  - unfold on_focus_zone. destruct (_ !! i); [mic_same | auto].
  - mic_same.
  - destruct MIC_OK eqn:E; [|auto]. unfold _on_mic, start_mic, stop_mic.
    destruct b; simpl; [destruct (negb _ || _)|]; mic_same.
  - destruct MIC_OK eqn:E; [mic_same | auto].
  - unfold mic_callback. destruct (_mic_stream w); [|auto].
    intros (_ & Hs & _) (_ & Hsm). unfold mic_ok. simpl.
    split; [|exact Hsm]. destruct (negb _); lra.
Qed.

Lemma reachable_mic w : reachable w -> mic_ok w.
Proof.
  intros (W & H & es & ->). unfold run.
  assert (J : engine_inv (init (Z.max 640 W) (Z.max 420 H))
              /\ mic_ok (init (Z.max 640 W) (Z.max 420 H))).
  { split; [apply engine_inv_init|]. unfold mic_ok. simpl. lra. }
  revert J. generalize (init (Z.max 640 W) (Z.max 420 H)).
  induction es as [|e es IH]; intros w [J1 J2]; simpl; [assumption|].
  apply IH. split; [now apply handle_inv | now apply handle_mic].
Qed.

Lemma scroll_advance_bound (e : Z) (w : TeleprompterWindow) :
  reachable w ->
  (scroll_y w <= scroll_y (scroll_advance e w) < scroll_y w + 120)%Q.
Proof.
  intros Hr. rewrite scroll_advance_scroll_y.
  pose proof (reachable_inv w Hr) as (_ & Hs & _).
  pose proof (reachable_mic w Hr) as (Ht & Hsm).
  set (eff := if auto_speed_enabled w
              then Qmax 0 (_mic_smooth w + 0.10 * (_mic_target w - _mic_smooth w))
              else speed w).
  assert (Heff : (0 <= eff <= 20)%Q).
  { unfold eff. destruct (auto_speed_enabled w); [|lra].
    split; [apply Q.le_max_l|]. apply Q.max_lub; lra. }
  set (dt := Z.max 1 (Z.min e 100)).
  assert (Hdt : (1 <= inject_Z dt <= 100)%Q).
  { change 1%Q with (inject_Z 1). change 100%Q with (inject_Z 100).
    rewrite <- !Zle_Qle. unfold dt. lia. }
  assert (E : (eff / 16.667 * inject_Z dt == eff * inject_Z dt * (1000 # 16667))%Q)
    by (field).
  rewrite E. nra.
Qed.

(** ** Pause lines are not passed by a short tick *)




(** ** The focus line moves one line at a time *)

Lemma py_int_one_step (y y' : Q) (lh : Z) :
  1 <= lh -> (0 <= y)%Q -> (y <= y')%Q -> (y' < y + inject_Z lh)%Q ->
  py_int (y / inject_Z lh) <= py_int (y' / inject_Z lh)
  <= py_int (y / inject_Z lh) + 1.
Proof.
  intros Hlh Hy Hle Hlt.
  assert (Hpos : (0 < inject_Z lh)%Q)
    by (change 0%Q with (inject_Z 0); rewrite <- Zlt_Qlt; lia).
  assert (H0 : (0 <= y / inject_Z lh)%Q) by (apply Qle_shift_div_l; lra).
  assert (H0' : (0 <= y' / inject_Z lh)%Q) by (apply Qle_shift_div_l; lra).
  assert (Hd : (y / inject_Z lh <= y' / inject_Z lh)%Q).
  { apply Qle_shift_div_l; [assumption|].
    assert (E : (y / inject_Z lh * inject_Z lh == y)%Q) by (field; lra).
    now rewrite E. }
  assert (Hd' : (y' / inject_Z lh < y / inject_Z lh + 1)%Q).
  { apply Qlt_shift_div_r; [assumption|].
    assert (E : ((y / inject_Z lh + 1) * inject_Z lh == y + inject_Z lh)%Q)
      by (field; lra).
    now rewrite E. }
  rewrite !py_int_nonneg by assumption.
  split; [now apply Qfloor_resp_le|].
  pose proof (Qfloor_le (y' / inject_Z lh)) as Hf'.
  pose proof (Qlt_floor (y / inject_Z lh)) as Hf.
  assert (Hz : (inject_Z (Qfloor (y' / inject_Z lh))
                < inject_Z (Qfloor (y / inject_Z lh) + 1 + 1))%Q).
  { rewrite (inject_Z_plus (_ + 1) 1). change (inject_Z 1) with 1%Q. lra. }
  rewrite <- Zlt_Qlt in Hz. lia.
Qed.

(** X10: in every state the window can be in, a tick that advances by
    less than one line height moves the focus-line index by at most one
    line, so it cannot jump over a line; this is every tick when the line
    height is 120 pixels or more. *)
Theorem focus_moves_one_line (e : Z) (w : TeleprompterWindow) :
  reachable w ->
  let a := scroll_advance e w in
  let lh := _f_line_h a in
  let before := py_int (scroll_y w / inject_Z lh) in
  ((scroll_y a < scroll_y w + inject_Z lh)%Q ->
   before <= focus_line a <= before + 1)
  /\ (120 <= lh -> before <= focus_line a <= before + 1).
Proof.
  intros Hr a lh before.
  pose proof (reachable_inv w Hr) as Hinv.
  pose proof (scroll_advance_inv e w Hinv) as (_ & _ & Hl & _).
  destruct Hinv as (Hy & _).
  pose proof (scroll_advance_bound e w Hr) as [Hlo Hhi].
  fold a in Hl, Hlo, Hhi. fold lh in Hl.
  assert (Hgen : (scroll_y a < scroll_y w + inject_Z lh)%Q ->
                 before <= focus_line a <= before + 1).
  { intros Hlt. unfold before, focus_line. fold lh.
    apply py_int_one_step; assumption || lia. }
  split; [exact Hgen|]. intros H120. apply Hgen.
  assert ((120 <= inject_Z lh)%Q)
    by (change 120%Q with (inject_Z 120); now rewrite <- Zle_Qle).
  lra.
Qed.

(** ** The end of the content *)

(** X11: in every state the window can be in, when the advanced offset
    of a tick has reached the total height, the tick does not snap to a
    pause line: it clamps the offset to the total height and stops
    playing.  After any tick the offset lies between 0 and the total
    height. *)
Theorem end_of_content_stops (e : Z) (w : TeleprompterWindow) :
  reachable w ->
  let a := scroll_advance e w in
  let r := _scroll_step e w in
  (0 <= scroll_y r <= _l_total r)%Q
  /\ (at_end a = true ->
      pause_hit a = false
      /\ scroll_y r = _l_total r
      /\ is_playing r = false
      /\ _scroll_timer r = false).
Proof.
  intros Hr a r. split; [apply scroll_step_in_range; assumption|].
  intros Hend.
  pose proof (scroll_advance_inv e w (reachable_inv w Hr))
    as (Hya & _ & Hl & _ & _ & (Hlen & Hp & _)).
  assert (Jt : total_current a).
  { unfold a, scroll_advance. apply ensure_layout_total.
    pose proof (reachable_total w Hr) as J.
    destruct (auto_speed_enabled w) eqn:E; simpl; rewrite ?E; revert J;
      same_layout. }
  assert (Hcur : layout_cache_hit a = true)
    by (unfold a, scroll_advance; apply ensure_layout_current).
  specialize (Jt Hcur). fold a in Hya, Hl, Hlen, Hp.
  assert (Hno : pause_hit a = false).
  { unfold pause_hit. apply andb_false_iff. right.
    apply bool_decide_eq_false. intros Hin.
    destruct (Hp _ Hin) as [H0 Hx]. apply lookup_lt_Some in Hx.
    rewrite <- Hlen in Hx.
    unfold at_end in Hend. apply Qle_bool_iff in Hend. rewrite Jt in Hend.
    assert (Hfl : Z.of_nat (length (_l_lines a)) <= focus_line a).
    { unfold focus_line.
      assert (Hpos : (0 < inject_Z (_f_line_h a))%Q)
        by (change 0%Q with (inject_Z 0); rewrite <- Zlt_Qlt; lia).
      assert (Hq : (inject_Z (Z.of_nat (length (_l_lines a)))
                    <= scroll_y a / inject_Z (_f_line_h a))%Q).
      { apply Qle_shift_div_l; [assumption|]. now rewrite <- inject_Z_mult. }
      rewrite py_int_nonneg
        by (apply Qle_shift_div_l; [assumption | lra]).
      apply Qfloor_resp_le in Hq. now rewrite Qfloor_Z in Hq. }
    lia. }
  split; [assumption|].
  unfold r, _scroll_step. fold a.
  rewrite scroll_check_l_total, (scroll_check_no_pause a Hno), Hend.
  split; [reflexivity|].
  unfold scroll_check, _do_pause. rewrite Hno.
  assert (He : at_end (if focus_changed a
                       then set_notes_window
                              (set_current (_l_notes (set_last_fl (focus_line a) a)
                                              !! focus_line a)
                                 (notes_window (set_last_fl (focus_line a) a)))
                              (set_last_fl (focus_line a) a)
                       else a) = true)
    by (destruct (focus_changed a); exact Hend).
  rewrite He. split_ifs; split; reflexivity.
Qed.

(** ** Skip and speed keys *)

(** X12: the Left key never leaves a negative offset and goes to 0 from
    an offset of 80 or less.  In every state the window can be in, Up
    followed by Down restores a speed of 19.5 or less, and Down followed
    by Up one of 1 or more (the speeds of such states are whole numbers
    of half units, on which the steps of 0.5 are exact).  The skip keys
    do not change the playback state, the speed keys do not move the
    offset. *)
Theorem skip_and_speed_keys (w : TeleprompterWindow) :
  (0 <= scroll_y (keyPressEvent Key_Left w))%Q
  /\ ((scroll_y w <= 80)%Q -> (scroll_y (keyPressEvent Key_Left w) == 0)%Q)
  /\ (reachable w ->
      ((speed w <= 19.5)%Q ->
          (speed (keyPressEvent Key_Down (keyPressEvent Key_Up w))
           == speed w)%Q)
      /\ ((1 <= speed w)%Q ->
          (speed (keyPressEvent Key_Up (keyPressEvent Key_Down w))
           == speed w)%Q))
  /\ (forall k, k = Key_Left \/ k = Key_Right ->
        is_playing (keyPressEvent k w) = is_playing w
        /\ _cd_val (keyPressEvent k w) = _cd_val w
        /\ _last_fl (keyPressEvent k w) = _last_fl w)
  /\ (forall k, k = Key_Up \/ k = Key_Down ->
        scroll_y (keyPressEvent k w) = scroll_y w).
Proof.
  split; [simpl; apply Q.le_max_l|].
  split.
  { simpl. intros H.
    destruct (Q.max_spec 0 (scroll_y w - 80)) as [[L E]|[L E]];
      rewrite E; lra. }
  split.
  { intros Hr. pose proof (reachable_inv w Hr) as (_ & [Hs1 Hs2] & _).
    simpl. unfold _speed_up, _speed_dn. simpl. split.
    - intros H.
      destruct (Q.min_spec (speed w + 0.5) 20) as [[L E]|[L E]];
      destruct (Q.max_spec (Qmin (speed w + 0.5) 20 - 0.5) 0.5)
        as [[L' E']|[L' E']];
        rewrite E'; rewrite ?E in *; lra.
    - intros H.
      destruct (Q.max_spec (speed w - 0.5) 0.5) as [[L E]|[L E]];
      destruct (Q.min_spec (Qmax (speed w - 0.5) 0.5 + 0.5) 20)
        as [[L' E']|[L' E']];
        rewrite E'; rewrite ?E in *; lra. }
  split; intros k [-> | ->]; repeat split.
Qed.


(** ** Painting: the visible range and the draw calls *)

Lemma py_range_complete (a b i : Z) : a <= i < b -> In i (py_range a b).
Proof.
  intros H. unfold py_range. apply in_map_iff.
  exists (Z.to_nat (i - a)). split; [lia|]. apply in_seq. lia.
Qed.

(** X13: the visible range leaves out only lines that are off screen.
    For a line height of at least 1, a line of the layout that
    [paintEvent] does not visit has its top edge at least three line
    heights above the top of the window or more than one line height
    below its bottom. *)
Theorem hidden_lines_off_screen (w : TeleprompterWindow) (i : Z) :
  1 <= _f_line_h w ->
  0 <= i < Z.of_nat (length (_l_lines w)) ->
  ~ In i (visible_range w) ->
  let lh := _f_line_h w in
  let focus_y := py_int (inject_Z (height w) * focus_ratio w) in
  let start_y := focus_y - py_int (scroll_y w) in
  let y := start_y + i * lh in
  y <= - 3 * lh \/ height w + lh < y.
Proof.
  intros Hlh Hi Hout lh focus_y start_y y.
  unfold visible_range in Hout. fold lh focus_y start_y in Hout.
  set (first_i := Z.max 0 ((- start_y - lh * 2) / lh)) in *.
  set (span := (height w + lh * 4) / lh) in *.
  assert (Hcase : i < first_i \/ first_i + span + 1 <= i).
  { destruct (Z_lt_ge_dec i first_i) as [|Hge]; [now left|]. right.
    destruct (Z_lt_ge_dec i (first_i + span + 1)) as [Hlt|]; [|lia].
    exfalso. apply Hout. apply py_range_complete. lia. }
  pose proof (Z.mul_div_le (- start_y - lh * 2) lh ltac:(lia)) as H1.
  pose proof (Z.mul_succ_div_gt (- start_y - lh * 2) lh ltac:(lia)) as H2.
  pose proof (Z.mul_succ_div_gt (height w + lh * 4) lh ltac:(lia)) as H3.
  fold span in H3. unfold y.
  destruct Hcase as [Hlo|Hhi].
  - left. unfold first_i in Hlo. nia.
  - right. unfold first_i in Hhi. nia.
Qed.








(** ** The list of all notes *)

Lemma sorted_keys_spec (m : gmap Z string) (k : Z) :
  k ∈ sorted_keys m <-> is_Some (m !! k).
Proof.
  unfold sorted_keys. rewrite merge_sort_Permutation.
  rewrite list_elem_of_fmap. split.
  - intros ([k' v] & -> & Hin). apply elem_of_map_to_list in Hin. now exists v.
  - intros [v Hv]. exists (k, v). split; [reflexivity|].
    now apply elem_of_map_to_list.
Qed.

Lemma sorted_keys_increasing (m : gmap Z string) :
  StronglySorted Z.lt (sorted_keys m).
Proof.
  assert (Hs : StronglySorted Z.le (sorted_keys m))
    by (apply StronglySorted_merge_sort; apply _).
  assert (Hd : NoDup (sorted_keys m)).
  { unfold sorted_keys. rewrite merge_sort_Permutation.
    apply NoDup_fst_map_to_list. }
  induction Hs as [|k ks Hs IH Hall]; [constructor|].
  apply NoDup_cons in Hd as [Hk Hd]. constructor; [now apply IH|].
  rewrite Forall_forall in Hall |- *. intros j Hj.
  specialize (Hall j Hj). assert (j <> k) by (intros ->; contradiction). lia.
Qed.

Lemma succ_sorted (ks : list Z) :
  StronglySorted Z.lt ks -> StronglySorted Z.lt (map (fun k => k + 1) ks).
Proof.
  induction 1 as [|k ks Hs IH Hall]; simpl; constructor; [assumption|].
  apply Forall_forall. intros j Hj.
  apply list_elem_of_In, in_map_iff in Hj as (j' & <- & Hj').
  rewrite Forall_forall in Hall.
  specialize (Hall j' ltac:(now apply list_elem_of_In)). lia.
Qed.

(** X15: for the note map and the lines of any layout, [set_all] raises
    no exception and writes one block per note, in strictly increasing
    line order; each block shows the line number [index + 1], the first 55
    characters of the display line the note is anchored to (never the
    empty fallback context), and the note. *)
Theorem notes_listing (adv : string -> Z) (sp_w W : Z) (align : Align)
    (text : string) :
  let l := build_layout adv sp_w align W text in
  exists entries,
    set_all_parts (notes l) (lines l) = Some entries
    /\ length entries = size (notes l)
    /\ StronglySorted Z.lt (map ne_line entries)
    /\ Forall (fun en =>
                 1 <= ne_line en
                 /\ notes l !! (ne_line en - 1) = Some (ne_note en)
                 /\ exists line,
                     lines l !! Z.to_nat (ne_line en - 1) = Some line
                     /\ ne_ctx en = Some (take_str 55 line)) entries
    /\ (forall k v, notes l !! k = Some v ->
          exists en, In en entries /\ ne_line en = k + 1 /\ ne_note en = v).
Proof.
  intros l.
  destruct (layout_paras_indices adv sp_w align W (split_nl text) empty_layout)
    as [[Hn _] _].
  { split; [intros k v Hk; simpl in Hk; rewrite lookup_empty in Hk;
            discriminate|].
    intros k Hk. simpl in Hk. set_solver. }
  fold (build_layout adv sp_w align W text) in Hn. fold l in Hn.
  assert (Hentry : forall k, k ∈ sorted_keys (notes l) ->
            exists v line,
              notes l !! k = Some v /\ 0 <= k
              /\ lines l !! Z.to_nat k = Some line
              /\ note_entry (notes l) (lines l) k
                 = Some (mkNoteEntry (k + 1) (Some (take_str 55 line)) v)).
  { intros k Hk. apply sorted_keys_spec in Hk as [v Hv].
    destruct (Hn k v Hv) as [H0 Hlt].
    destruct (lookup_lt_is_Some_2 (lines l) (Z.to_nat k) ltac:(lia)) as [line Hl].
    exists v, line. repeat split; try assumption.
    unfold note_entry, py_getitem.
    destruct (Z.ltb_spec k (Z.of_nat (length (lines l)))); [|lia].
    destruct (Z.leb_spec 0 k); [|lia]. now rewrite Hl, Hv. }
  destruct (mapM_is_Some_2 (note_entry (notes l) (lines l))
              (sorted_keys (notes l))) as [entries He].
  { apply Forall_forall. intros k Hk.
    destruct (Hentry k Hk) as (v & line & _ & _ & _ & E).
    eexists. exact E. }
  exists entries. split; [exact He|].
  apply mapM_Some_1 in He.
  assert (Hlines : map ne_line entries = map (fun k => k + 1) (sorted_keys (notes l))).
  { clear Hentry. induction He as [|k en ks ens E _ IH]; [reflexivity|].
    simpl. rewrite IH. f_equal. unfold note_entry in E.
    destruct (if k <? _ then _ else _); [|discriminate].
    destruct (notes l !! k); [|discriminate]. now injection E as <-. }
  split; [|split; [|split]].
  - rewrite <- (Forall2_length _ _ _ He). unfold sorted_keys.
    rewrite merge_sort_Permutation, length_fmap.
    apply length_map_to_list.
  - rewrite Hlines. apply succ_sorted, sorted_keys_increasing.
  - clear Hlines. induction He as [|k en ks ens E _ IH]; constructor.
    + destruct (Hentry k ltac:(left)) as (v & line & Hv & H0 & Hl & E').
      rewrite E' in E. injection E as <-. simpl.
      replace (k + 1 - 1) with k by lia.
      split; [lia|]. split; [assumption|]. now exists line.
    + apply IH. intros j Hj. apply Hentry. now right.
  - intros k v Hv.
    assert (Hk : k ∈ sorted_keys (notes l))
      by (apply sorted_keys_spec; now exists v).
    clear Hlines. induction He as [|k' en ks ens E _ IH]; [inversion Hk|].
    apply elem_of_cons in Hk as [->|Hk].
    + exists en. split; [now left|].
      destruct (Hentry k' ltac:(left)) as (v' & line & Hv' & _ & _ & E').
      rewrite E' in E. injection E as <-. simpl.
      split; [reflexivity | congruence].
    + destruct IH as (en' & Hin & H1 & H2);
        [intros j Hj; apply Hentry; now right | assumption|].
      exists en'. split; [now right | now split].
Qed.

(** ** The speed slider stays in sync *)

Lemma handle_speed_cases e w :
  speed (handle e w) = speed w
  \/ speed (handle e w) = Qmin (speed w + 0.5) 20
  \/ speed (handle e w) = Qmax (speed w - 0.5) 0.5
  \/ exists v, speed (handle e w) = (inject_Z (bounded 1 40 v) / 2)%Q.
Proof.
  destruct e; simpl;
    try (left; reflexivity);
    try (unfold _on_font, _on_ls, on_font_family, invalidate_layout;
         left; reflexivity).
  - left. unfold toggle_play, _start_countdown, _begin_play, _do_pause.
    split_ifs; destruct (_cd_val w); reflexivity.
  - left. destruct (_cd_timer w); [|reflexivity].
    unfold _cd_tick, _begin_play. destruct (_cd_val w); [|reflexivity].
    destruct (_ <=? 0); reflexivity.
  - left. destruct (_scroll_timer w); [apply scroll_step_speed | reflexivity].
  - destruct k; simpl; auto;
      left; unfold toggle_play, _start_countdown, _begin_play, _do_pause;
      split_ifs; destruct (_cd_val w); reflexivity.
  - unfold wheelEvent. destruct (0 <? dy); auto.
  - left. unfold paintEvent.
    destruct (_cd_val w);
      [unfold _ensure_font; destruct (font_key_hit _ _); reflexivity|].
    destruct (is_empty (text w)); [reflexivity|].
    destruct (_ =? 0); apply ensure_layout_speed.
  - right. right. right. now exists v.
  - left. unfold _on_align. destruct (_ !! idx); reflexivity.
  - left. unfold on_focus_zone. destruct (_ !! i); reflexivity.
  - left. destruct MIC_OK eqn:E; [|reflexivity].
    unfold _on_mic, start_mic, stop_mic.
    destruct b; simpl; [destruct (negb _ || _)|]; reflexivity.
  - left. destruct MIC_OK eqn:E; reflexivity.
  - left. unfold mic_callback. destruct (_mic_stream w); reflexivity.
Qed.

Lemma half_step_intro (k : Z) (q : Q) :
  1 <= k <= 40 -> (q == inject_Z k / 2)%Q -> exists k', 1 <= k' <= 40 /\ (q == inject_Z k' / 2)%Q.
Proof. intros H E. now exists k. Qed.

Lemma handle_half_step e w : half_step w -> half_step (handle e w).
Proof.
  intros (k & Hk & E). unfold half_step.
  assert (Hinj : forall a b : Z, (inject_Z (a + b) == inject_Z a + inject_Z b)%Q)
    by (intros; rewrite inject_Z_plus; reflexivity).
  assert (Hk1 : (1 <= inject_Z k <= 40)%Q).
  { change 1%Q with (inject_Z 1). change 40%Q with (inject_Z 40).
    rewrite <- !Zle_Qle. lia. }
  destruct (handle_speed_cases e w) as [-> | [-> | [-> | [v ->]]]].
  - now exists k.
  - destruct (Z.eq_dec k 40) as [->|Hne].
    + exists 40. split; [lia|].
      assert (E' : (speed w == 20)%Q) by (rewrite E; reflexivity).
      change (inject_Z 40 / 2)%Q with (40 / 2)%Q.
      destruct (Q.min_spec (speed w + 0.5) 20) as [[L Em]|[L Em]];
        rewrite Em; first [clear - L E'; lra | reflexivity | now vm_compute].
    + exists (k + 1). split; [lia|].
      assert ((inject_Z k <= 39)%Q)
        by (change 39%Q with (inject_Z 39); rewrite <- Zle_Qle; lia).
      rewrite (Hinj k 1). change (inject_Z 1) with 1%Q.
      destruct (Q.min_spec (speed w + 0.5) 20) as [[L Em]|[L Em]];
        rewrite Em; rewrite E in *; clear E Hk1 Hinj;
        generalize dependent (inject_Z k); intros;
        unfold Qdiv in *; change (/ 2)%Q with (1 # 2)%Q in *; lra.
  - destruct (Z.eq_dec k 1) as [->|Hne].
    + exists 1. split; [lia|].
      assert (E' : (speed w == 0.5)%Q) by (rewrite E; reflexivity).
      change (inject_Z 1 / 2)%Q with (1 / 2)%Q.
      destruct (Q.max_spec (speed w - 0.5) 0.5) as [[L Em]|[L Em]];
        rewrite Em; first [clear - L E'; lra | reflexivity | now vm_compute].
    + exists (k - 1). split; [lia|].
      assert ((2 <= inject_Z k)%Q)
        by (change 2%Q with (inject_Z 2); rewrite <- Zle_Qle; lia).
      replace (k - 1) with (k + -1) by lia.
      rewrite (Hinj k (-1)). change (inject_Z (-1)) with (-1)%Q.
      destruct (Q.max_spec (speed w - 0.5) 0.5) as [[L Em]|[L Em]];
        rewrite Em; rewrite E in *; clear E Hk1 Hinj;
        generalize dependent (inject_Z k); intros;
        unfold Qdiv in *; change (/ 2)%Q with (1 # 2)%Q in *; lra.
  - exists (bounded 1 40 v). split; [apply bounded_range; lia | reflexivity].
Qed.

Lemma reachable_half_step w : reachable w -> half_step w.
Proof.
  intros (W & H & es & ->). unfold run.
  assert (J : half_step (init (Z.max 640 W) (Z.max 420 H)))
    by (exists 4; split; [lia | reflexivity]).
  revert J. generalize (init (Z.max 640 W) (Z.max 420 H)).
  induction es as [|e es IH]; intros w J; simpl; [assumption|].
  apply IH, handle_half_step, J.
Qed.

(** X16: in every state the window can be in, the manual speed is a
    whole number of half units, so the value [int(speed * 2)] that
    [_sync_play_btn] hands to the speed slider lies in the slider's range
    1..40 and stands for exactly the current speed: moving the slider to
    it would set the same speed again. *)
Theorem speed_slider_in_sync (w : TeleprompterWindow) :
  reachable w ->
  1 <= sync_slider_request w <= 40
  /\ sync_slider_value w = sync_slider_request w
  /\ (inject_Z (sync_slider_value w) / 2 == speed w)%Q
  /\ (speed (_on_speed (sync_slider_value w) w) == speed w)%Q.
Proof.
  intros Hr. destruct (reachable_half_step w Hr) as (k & Hk & E).
  assert (Ereq : sync_slider_request w = k).
  { unfold sync_slider_request.
    assert (E2 : (speed w * 2 == inject_Z k)%Q) by (rewrite E; field).
    rewrite (py_int_Qeq _ _ E2).
    unfold py_int, inject_Z. simpl. apply Z.quot_1_r. }
  assert (Eval : sync_slider_value w = k)
    by (unfold sync_slider_value, bounded; rewrite Ereq; lia).
  rewrite Eval, Ereq. unfold _on_speed. simpl.
  repeat split; try lia; now rewrite E.
Qed.

(** ** Progress bar and time label *)

Lemma py_int_lt (x : Q) (n : Z) :
  (0 <= x)%Q -> (x < inject_Z n)%Q -> py_int x < n.
Proof.
  intros H0 Hlt. pose proof (py_int_le x H0) as Hle.
  assert (Hq : (inject_Z (py_int x) < inject_Z n)%Q) by lra.
  now rewrite <- Zlt_Qlt in Hq.
Qed.

Lemma py_int_inject (n : Z) : py_int (inject_Z n) = n.
Proof. unfold py_int, inject_Z. simpl. apply Z.quot_1_r. Qed.

Lemma py_int_mono (x y : Q) : (0 <= x)%Q -> (x <= y)%Q -> py_int x <= py_int y.
Proof.
  intros H0 Hxy. rewrite !py_int_nonneg by lra. now apply Qfloor_resp_le.
Qed.

(** X17: the report a tick makes to the control panel.  When the total
    height is not positive [_sync_progress] returns without touching the
    panel.  Otherwise, in every state the window can be in, the value
    set on the progress bar lies in the bar's range 0..1000 and is 1000
    exactly when the offset has reached the total height; the time label
    shows minutes and seconds with 0 <= seconds < 60 that add up to the
    remaining whole seconds [int((total - sy) / (speed * 60))], and the
    fallback for a zero speed is never used. *)
Theorem progress_report_in_range (e : Z) (w : TeleprompterWindow) :
  reachable w ->
  let r := _scroll_step e w in
  ((_l_total r <= 0)%Q -> _sync_progress (scroll_y r) (_l_total r) r = None)
  /\ ((0 < _l_total r)%Q ->
      exists v m s,
        _sync_progress (scroll_y r) (_l_total r) r = Some (v, m, s)
        /\ 0 <= v <= 1000
        /\ (v = 1000 <-> (scroll_y r == _l_total r)%Q)
        /\ 0 <= m /\ 0 <= s < 60
        /\ m * 60 + s
           = py_int ((_l_total r - scroll_y r) / (speed r * 60))%Q
        /\ ((scroll_y r == _l_total r)%Q -> m = 0 /\ s = 0)).
Proof.
  intros Hr r.
  pose proof (scroll_step_in_range e w Hr) as [Hy0 Hyt].
  pose proof (scroll_step_inv e w (reachable_inv w Hr))
    as (_ & [Hs1 Hs2] & _).
  fold r in Hy0, Hyt, Hs1, Hs2.
  generalize dependent (scroll_y r). intros sy Hy0 Hyt.
  generalize dependent (_l_total r). intros tot Hyt.
  unfold _sync_progress. split.
  - intros Hle. apply Qle_bool_iff in Hle. now rewrite Hle.
  - intros Hpos.
    assert (Hb : Qle_bool tot 0 = false).
    { destruct (Qle_bool tot 0) eqn:E; [|reflexivity].
      apply Qle_bool_iff in E. lra. }
    assert (Hz : Qeq_bool (speed r) 0 = false).
    { destruct (Qeq_bool (speed r) 0) eqn:E; [|reflexivity].
      apply Qeq_bool_iff in E. lra. }
    rewrite Hb, Hz. cbv zeta.
    set (q := (Qmin (sy / tot) 1 * 1000)%Q).
    set (secs := ((tot - sy) / (speed r * 60))%Q).
    assert (Hfrac0 : (0 <= sy / tot)%Q).
    { apply Qle_shift_div_l; [assumption | lra]. }
    assert (Hfrac1 : (sy / tot <= 1)%Q).
    { apply Qle_shift_div_r; [assumption | lra]. }
    assert (Hmin : (Qmin (sy / tot) 1 == sy / tot)%Q)
      by (apply Q.min_l; assumption).
    assert (Hq0 : (0 <= q)%Q) by (unfold q; rewrite Hmin; lra).
    assert (Hq1 : (q <= 1000)%Q) by (unfold q; rewrite Hmin; lra).
    assert (Hsecs : (0 <= secs)%Q).
    { unfold secs. apply Qle_shift_div_l; lra. }
    exists (py_int q), (py_int secs / 60), (py_int secs mod 60).
    pose proof (py_int_ge0 secs Hsecs) as Ht0.
    split; [reflexivity|].
    split.
    { split; [now apply py_int_ge0|].
      change 1000 with (py_int (inject_Z 1000)) at 1.
      apply py_int_mono; assumption. }
    split.
    { split.
      - intros Hv.
        destruct (Qlt_le_dec q (inject_Z 1000)) as [Hlt|Hge].
        + pose proof (py_int_lt q 1000 Hq0 Hlt). lia.
        + change (inject_Z 1000) with 1000%Q in Hge.
          assert (Hone : (1 <= sy / tot)%Q)
            by (unfold q in Hge; rewrite Hmin in Hge; lra).
          assert (E1 : (sy / tot == 1)%Q) by lra.
          assert (E2 : (sy == sy / tot * tot)%Q) by (field; lra).
          rewrite E2, E1. ring.
      - intros E.
        assert (Eq : (q == inject_Z 1000)%Q).
        { unfold q. rewrite Hmin, E.
          change (inject_Z 1000) with 1000%Q. field. lra. }
        rewrite (py_int_Qeq _ _ Eq). apply py_int_inject. }
    split; [apply Z.div_pos; lia|].
    split; [apply Z.mod_pos_bound; lia|].
    split.
    { pose proof (Z.div_mod (py_int secs) 60). lia. }
    intros E.
    assert (Es : (secs == inject_Z 0)%Q).
    { unfold secs. rewrite E. change (inject_Z 0) with 0%Q. field. lra. }
    rewrite (py_int_Qeq _ _ Es), py_int_inject. split; reflexivity.
Qed.

(** ** Words per minute *)

(** X18: the words-per-minute estimate is 0 when the total height is not
    positive or when the script has no countable word; it is never
    negative for a non-negative speed, never counts more words than the
    script has, and for the same script and total height a higher manual
    speed never gives a lower estimate. *)
Theorem wpm_estimate (total : Q) (w w' : TeleprompterWindow) :
  ((total <= 0)%Q -> _calc_wpm total w = 0)
  /\ (wpm_words (text w) = 0 -> _calc_wpm total w = 0)
  /\ 0 <= wpm_words (text w) <= Z.of_nat (length (split_ws (text w)))
  /\ ((0 <= speed w)%Q -> 0 <= _calc_wpm total w)
  /\ (text w' = text w -> (0 <= speed w)%Q -> (speed w <= speed w')%Q ->
      _calc_wpm total w <= _calc_wpm total w').
Proof.
  assert (Hw : forall t, 0 <= wpm_words t <= Z.of_nat (length (split_ws t))).
  { intros t. unfold wpm_words. split; [lia|].
    apply inj_le, List.filter_length_le. }
  unfold _calc_wpm. split; [|split; [|split; [|split]]].
  - intros Hle. apply Qle_bool_iff in Hle. now rewrite Hle.
  - intros E. rewrite E. destruct (Qle_bool total 0); [reflexivity|].
    apply (py_int_Qeq _ (inject_Z 0)).
    change (inject_Z 0) with 0%Q. unfold Qdiv. ring.
  - apply Hw.
  - intros Hs. destruct (Qle_bool total 0) eqn:E; [lia|].
    assert (Hpos : (0 < total)%Q).
    { destruct (Qlt_le_dec 0 total) as [H|H]; [assumption|].
      apply Qle_bool_iff in H. congruence. }
    apply py_int_ge0.
    assert (H1 : (0 <= inject_Z (wpm_words (text w)))%Q).
    { change 0%Q with (inject_Z 0). rewrite <- Zle_Qle. apply Hw. }
    apply Qmult_le_0_compat.
    + assert (E1 : (speed w * 60 / 16.667 * 60 == speed w * (3600 / 16.667))%Q)
        by (field; discriminate).
      rewrite E1. apply Qmult_le_0_compat; [assumption|]. now vm_compute.
    + apply Qle_shift_div_l; [assumption | lra].
  - intros Et Hs Hle. rewrite Et.
    destruct (Qle_bool total 0) eqn:E; [lia|].
    assert (Hpos : (0 < total)%Q).
    { destruct (Qlt_le_dec 0 total) as [H|H]; [assumption|].
      apply Qle_bool_iff in H. congruence. }
    assert (H1 : (0 <= inject_Z (wpm_words (text w)))%Q).
    { change 0%Q with (inject_Z 0). rewrite <- Zle_Qle. apply Hw. }
    assert (H2 : (0 <= inject_Z (wpm_words (text w)) / total)%Q)
      by (apply Qle_shift_div_l; [assumption | lra]).
    assert (E1 : forall s, (s * 60 / 16.667 * 60 == s * (3600 / 16.667))%Q)
      by (intros; field; discriminate).
    assert (Hc : (0 <= 3600 / 16.667)%Q) by now vm_compute.
    apply py_int_mono.
    + apply Qmult_le_0_compat; [|assumption].
      rewrite E1. apply Qmult_le_0_compat; assumption.
    + apply Qmult_le_compat_r; [|assumption].
      rewrite !E1. apply Qmult_le_compat_r; assumption.
Qed.

(** ** Script slots *)

Lemma dict_get_set_same k v d : dict_get k (dict_set k v d) = Some v.
Proof.
  unfold dict_get. induction d as [|[k' v'] d IH]; simpl.
  - now rewrite String.eqb_refl.
  - destruct (String.eqb k' k) eqn:E; simpl; rewrite E; [reflexivity|apply IH].
Qed.

Lemma dict_get_set_other k k' v d :
  k' <> k -> dict_get k' (dict_set k v d) = dict_get k' d.
Proof.
  intros Hne. unfold dict_get. induction d as [|[k0 v0] d IH]; simpl.
  - apply String.eqb_neq in Hne. rewrite String.eqb_sym, Hne. reflexivity.
  - destruct (String.eqb k0 k) eqn:E; simpl.
    + apply String.eqb_eq in E. subst k0.
      destruct (String.eqb k k') eqn:E'; [|reflexivity].
      apply String.eqb_eq in E'. congruence.
    + destruct (String.eqb k0 k'); [reflexivity|apply IH].
Qed.

Lemma dict_keys_set k v d :
  dict_keys (dict_set k v d)
  = if dict_in k d then dict_keys d else dict_keys d ++ [k].
Proof.
  induction d as [|[k' v'] d IH]; simpl; [reflexivity|].
  destruct (String.eqb k' k) eqn:E; simpl; [reflexivity|].
  rewrite IH. destruct (dict_in k d); reflexivity.
Qed.

Lemma dict_in_keys k d : dict_in k d = true <-> In k (dict_keys d).
Proof.
  unfold dict_in, dict_keys. rewrite existsb_exists, in_map_iff. split.
  - intros ([k' v'] & Hin & E). apply String.eqb_eq in E.
    exists (k', v'). split; [exact E|exact Hin].
  - intros ([k' v'] & E & Hin). exists (k', v'). split; [exact Hin|].
    now apply String.eqb_eq.
Qed.

Lemma dict_set_NoDup k v d :
  NoDup (dict_keys d) -> NoDup (dict_keys (dict_set k v d)).
Proof.
  intros H. rewrite dict_keys_set. destruct (dict_in k d) eqn:E; [assumption|].
  apply NoDup_ListNoDup, List.NoDup_app.
  - now apply NoDup_ListNoDup.
  - constructor; [intros []|constructor].
  - intros x Hx [<-|[]]. apply dict_in_keys in Hx. congruence.
Qed.

Lemma dict_in_set k v d : In k (dict_keys (dict_set k v d)).
Proof.
  rewrite dict_keys_set. destruct (dict_in k d) eqn:E.
  - now apply dict_in_keys.
  - apply in_or_app. right. now left.
Qed.

Lemma dict_get_del_same k d : dict_get k (dict_del k d) = None.
Proof.
  unfold dict_get, dict_del. induction d as [|[k' v'] d IH]; simpl;
    [reflexivity|].
  destruct (String.eqb k' k) eqn:E; simpl; [apply IH|].
  rewrite E. apply IH.
Qed.

Lemma dict_get_del_other k k' d :
  k' <> k -> dict_get k' (dict_del k d) = dict_get k' d.
Proof.
  intros Hne. unfold dict_get, dict_del.
  induction d as [|[k0 v0] d IH]; simpl; [reflexivity|].
  destruct (String.eqb k0 k) eqn:E; simpl.
  - apply String.eqb_eq in E. subst k0.
    destruct (String.eqb k k') eqn:E'; [|apply IH].
    apply String.eqb_eq in E'. congruence.
  - destruct (String.eqb k0 k'); [reflexivity|apply IH].
Qed.

Lemma dict_keys_del k d :
  dict_keys (dict_del k d)
  = List.filter (fun n => negb (String.eqb n k)) (dict_keys d).
Proof.
  unfold dict_keys, dict_del. induction d as [|[k' v'] d IH]; simpl;
    [reflexivity|].
  destruct (String.eqb k' k); simpl; now rewrite IH.
Qed.

Lemma add_items_spec (ks : list string) (cb : QComboBox) :
  cb_items (fold_left (fun cb n => cb_addItem n cb) ks cb) = cb_items cb ++ ks
  /\ cb_index (fold_left (fun cb n => cb_addItem n cb) ks cb)
     = match cb_items cb, ks with
       | [], _ :: _ => 0
       | _, _ => cb_index cb
       end.
Proof.
  revert cb. induction ks as [|k ks IH]; intros cb; simpl.
  - rewrite app_nil_r. destruct (cb_items cb); split; reflexivity.
  - destruct (IH (cb_addItem k cb)) as [-> ->]. simpl.
    rewrite <- app_assoc. split; [reflexivity|].
    destruct (cb_items cb); simpl; destruct ks; reflexivity.
Qed.

Lemma refresh_slots_items p :
  cb_items (_slot_cb (_refresh_slots p)) = dict_keys (slots_of p)
  /\ cb_index (_slot_cb (_refresh_slots p))
     = match dict_keys (slots_of p) with [] => -1 | _ :: _ => 0 end
  /\ _save_data (_refresh_slots p) = _save_data p
  /\ _editor (_refresh_slots p) = _editor p.
Proof.
  unfold _refresh_slots. simpl.
  destruct (add_items_spec (dict_keys (slots_of p)) cb_clear) as [-> ->].
  simpl. repeat split; reflexivity.
Qed.

Lemma find_index_spec n l i :
  In n l ->
  i <= find_index n l i < i + Z.of_nat (length l)
  /\ l !! Z.to_nat (find_index n l i - i) = Some n.
Proof.
  revert i. induction l as [|x l IH]; intros i Hin; [destruct Hin|].
  simpl find_index. destruct (String.eqb x n) eqn:E.
  - apply String.eqb_eq in E. subst x. rewrite Z.sub_diag. simpl.
    split; [lia|reflexivity].
  - destruct Hin as [->|Hin]; [rewrite String.eqb_refl in E; discriminate|].
    destruct (IH (i + 1) Hin) as [Hr Hl]. simpl length. split; [lia|].
    replace (Z.to_nat (find_index n l (i + 1) - i))
      with (S (Z.to_nat (find_index n l (i + 1) - (i + 1)))) by lia.
    exact Hl.
Qed.

Lemma find_index_none n l i : ~ In n l -> find_index n l i = -1.
Proof.
  revert i. induction l as [|x l IH]; intros i Hn; simpl; [reflexivity|].
  destruct (String.eqb x n) eqn:E.
  - apply String.eqb_eq in E. subst. exfalso. apply Hn. now left.
  - apply IH. intros H. apply Hn. now right.
Qed.

(** X19: saving a slot.  When the dialog is cancelled or the name is
    blank, nothing changes.  Otherwise the editor's text is stored under
    the stripped name, all other slots keep their scripts, the selector
    lists every slot name once with the saved slot current, and loading
    right away, or after the editor was changed to any other text, puts
    the saved text back into the editor. *)
Theorem slot_save_load (name : string) (ok : bool) (p : ControlPanel) :
  NoDup (dict_keys (slots_of p)) ->
  let q := _save_slot name ok true p in
  (ok = false \/ strip name = EmptyString -> q = p)
  /\ (ok = true -> strip name <> EmptyString ->
      dict_get (strip name) (slots_of q) = Some (_editor p)
      /\ (forall n, n <> strip name ->
            dict_get n (slots_of q) = dict_get n (slots_of p))
      /\ slots_synced q
      /\ cb_currentText (_slot_cb q) = strip name
      /\ _editor q = _editor p
      /\ forall t, _editor (_load_slot (mkPanel (_save_data q) (_slot_cb q) t))
                   = _editor p).
Proof.
  intros Hnd q. split.
  - intros [-> | E]; unfold q, _save_slot; [reflexivity|].
    rewrite E. simpl. now rewrite andb_false_r.
  - intros -> Hne. unfold q, _save_slot.
    assert (Hn : is_empty (strip name) = false)
      by (destruct (strip name); [congruence|reflexivity]).
    rewrite Hn. simpl andb. cbv iota zeta.
    set (p1 := mkPanel (Some (dict_set (strip name) (_editor p) (slots_of p)))
                       (_slot_cb p) (_editor p)).
    destruct (refresh_slots_items p1) as (Hit & Hix & Hsd & Hed).
    assert (Hs1 : slots_of p1 = dict_set (strip name) (_editor p) (slots_of p))
      by reflexivity.
    assert (Hin : In (strip name) (cb_items (_slot_cb (_refresh_slots p1))))
      by (rewrite Hit, Hs1; apply dict_in_set).
    destruct (find_index_spec _ _ 0 Hin) as [Hr Hl].
    unfold cb_findText.
    set (i := find_index (strip name)
                (cb_items (_slot_cb (_refresh_slots p1))) 0) in *.
    destruct (0 <=? i) eqn:E0; [|apply Z.leb_gt in E0; lia].
    assert (Hcur : cb_currentText
                     (cb_setCurrentIndex i (_slot_cb (_refresh_slots p1)))
                   = strip name).
    { unfold cb_currentText, cb_setCurrentIndex.
      cbn [cb_index cb_items].
      destruct (i <? 0) eqn:E1; [apply Z.ltb_lt in E1; lia|].
      rewrite Z.sub_0_r in Hl. now rewrite Hl. }
    set (q' := mkPanel (_save_data (_refresh_slots p1))
                       (cb_setCurrentIndex i (_slot_cb (_refresh_slots p1)))
                       (_editor (_refresh_slots p1))).
    assert (Hsq : slots_of q' = dict_set (strip name) (_editor p) (slots_of p)).
    { unfold slots_of at 1. unfold q'. cbn [_save_data]. rewrite Hsd.
      reflexivity. }
    rewrite Hsq.
    split; [apply dict_get_set_same|].
    split; [intros n Hn'; now apply dict_get_set_other|].
    split.
    { unfold slots_synced. rewrite Hsq. split; [now apply dict_set_NoDup|].
      unfold q'. cbn [_slot_cb cb_setCurrentIndex cb_items].
      rewrite Hit, Hs1. reflexivity. }
    split; [exact Hcur|].
    split; [exact Hed|].
    intros t. unfold _load_slot, q'. cbn [_slot_cb _save_data].
    rewrite Hcur.
    replace (slots_of _) with (dict_set (strip name) (_editor p) (slots_of p))
      by (unfold slots_of at 2; cbn [_save_data]; rewrite Hsd; reflexivity).
    now rewrite dict_get_set_same.
Qed.

(** X20: deleting a slot.  When the selector mirrors the slots, deleting
    removes exactly the current slot: the other slots keep their scripts
    and their order, the selector lists the names that are left, and its
    current item is the first of them, so that a load right after loads
    that slot.  With no current slot nothing changes.  The editor is
    never changed. *)
Theorem slot_delete (p : ControlPanel) :
  slots_synced p ->
  let n := cb_currentText (_slot_cb p) in
  let q := _del_slot true p in
  (dict_get n (slots_of p) = None -> q = p)
  /\ _editor q = _editor p
  /\ (dict_get n (slots_of p) <> None ->
      dict_get n (slots_of q) = None
      /\ (forall k, k <> n -> dict_get k (slots_of q) = dict_get k (slots_of p))
      /\ dict_keys (slots_of q)
         = List.filter (fun k => negb (String.eqb k n)) (dict_keys (slots_of p))
      /\ slots_synced q
      /\ cb_currentText (_slot_cb q)
         = default EmptyString (head (dict_keys (slots_of q)))).
Proof.
  clear QFontMetrics.
  intros [Hnd Hit] n q.
  assert (Hget : forall k d, dict_get k d = None <-> dict_in k d = false).
  { intros k d. unfold dict_get, dict_in.
    induction d as [|[k' v'] d IH]; simpl; [tauto|].
    destruct (String.eqb k' k); simpl; [split; discriminate|exact IH]. }
  unfold q, _del_slot. fold n.
  destruct (dict_in n (slots_of p)) eqn:E.
  - set (p1 := mkPanel (dict_del n <$> _save_data p) (_slot_cb p) (_editor p)).
    destruct (refresh_slots_items p1) as (Hi1 & Hx1 & Hsd & Hed).
    assert (Hs1 : slots_of p1 = dict_del n (slots_of p)).
    { unfold slots_of, p1. simpl. destruct (_save_data p); reflexivity. }
    assert (Hsq : slots_of (_refresh_slots p1) = dict_del n (slots_of p))
      by (unfold slots_of at 1; rewrite Hsd; exact Hs1).
    split; [intros H; apply Hget in H; congruence|].
    split; [exact Hed|]. intros _. rewrite Hsq.
    split; [apply dict_get_del_same|].
    split; [intros k Hk; now apply dict_get_del_other|].
    split; [apply dict_keys_del|].
    split.
    { split.
      - rewrite Hsq, dict_keys_del. apply NoDup_ListNoDup, List.NoDup_filter.
        now apply NoDup_ListNoDup.
      - rewrite Hsq, Hi1, Hs1. reflexivity. }
    unfold cb_currentText. rewrite Hx1, Hi1, Hs1.
    destruct (dict_keys (dict_del n (slots_of p))); reflexivity.
  - split; [reflexivity|]. split; [reflexivity|].
    intros H. exfalso. apply H. now apply Hget.
Qed.

(** ** Notes are cut out line by line *)

Lemma split_nl_cons (c : ascii) (s : string) :
  is_newline c = false ->
  split_nl (String c s) = String c (head_line s) :: tl (split_nl s).
Proof.
  intros Hc. unfold head_line. simpl. rewrite Hc.
  pose proof (split_nl_nonempty s). destruct (split_nl s); [congruence|].
  reflexivity.
Qed.

Lemma head_line_cons (c : ascii) (s : string) :
  is_newline c = false -> head_line (String c s) = String c (head_line s).
Proof.
  intros Hc. unfold head_line at 1. now rewrite split_nl_cons.
Qed.

Lemma head_line_newline (c : ascii) (s : string) :
  is_newline c = true -> head_line (String c s) = EmptyString.
Proof. intros Hc. unfold head_line. simpl. now rewrite Hc. Qed.

Lemma head_line_inv (s : string) (a : ascii) (x : string) :
  head_line s = String a x ->
  exists y, s = String a y /\ is_newline a = false /\ head_line y = x.
Proof.
  destruct s as [|c s]; [discriminate|].
  destruct (is_newline c) eqn:Ec.
  - rewrite head_line_newline by assumption. discriminate.
  - rewrite head_line_cons by assumption. intros H. injection H as -> <-.
    now exists s.
Qed.

Lemma prefix_close_inv (s : string) :
  String.prefix "]]" s = true -> exists b, s = String "]" (String "]" b).
Proof.
  destruct s as [|a [|b s]]; cbn [String.prefix]; try discriminate.
  - destruct (ascii_dec "]" a); discriminate.
  - destruct (ascii_dec "]" a); [|discriminate].
    destruct (ascii_dec "]" b); [|discriminate]. subst. now exists s.
Qed.

Lemma prefix_close_head (s : string) :
  String.prefix "]]" (head_line s) = String.prefix "]]" s
  /\ (String.prefix "]]" s = true ->
      head_line (drop_str 2 s) = drop_str 2 (head_line s)).
Proof.
  destruct (String.prefix "]]" s) eqn:E.
  - apply prefix_close_inv in E as [b ->].
    rewrite !head_line_cons by reflexivity. split; [apply close_prefix|].
    intros _. reflexivity.
  - split; [|discriminate].
    destruct (String.prefix "]]" (head_line s)) eqn:E'; [|reflexivity].
    apply prefix_close_inv in E' as [b Hb].
    apply head_line_inv in Hb as (y & -> & _ & Hy).
    apply head_line_inv in Hy as (z & -> & _ & _).
    now rewrite close_prefix in E.
Qed.

Lemma lazy_group_head (s : string) :
  match lazy_group s with
  | Some (g, r) =>
      lazy_group (head_line s) = Some (g, head_line r)
      /\ skip_ok (String.length g + 2) s = true
  | None => lazy_group (head_line s) = None
  end.
Proof.
  induction s as [|c s IH]; [reflexivity|].
  cbn [lazy_group]. destruct (is_newline c) eqn:Ec.
  - now rewrite head_line_newline.
  - rewrite head_line_cons by assumption. cbn [lazy_group]. rewrite Ec.
    destruct (prefix_close_head s) as [Hp Hd]. rewrite Hp.
    destruct (String.prefix "]]" s) eqn:Epre.
    + rewrite Hd by reflexivity. split; [reflexivity|].
      cbn [String.length Nat.add skip_ok]. rewrite Ec.
      apply prefix_close_inv in Epre as [b ->]. reflexivity.
    + destruct (lazy_group s) as [[g r]|].
      * destruct IH as [-> Hk]. split; [reflexivity|].
        cbn [String.length Nat.add skip_ok]. rewrite Ec. exact Hk.
      * now rewrite IH.
Qed.

Lemma note_match_head (c : ascii) (s : string) :
  is_newline c = false ->
  match note_match (String c s) with
  | Some (g, r) =>
      note_match (String c (head_line s)) = Some (g, head_line r)
      /\ skip_ok (String.length g + 3) s = true
  | None => note_match (String c (head_line s)) = None
  end.
Proof.
  intros Hc. unfold note_match.
  destruct (Ascii.eqb_spec c "[") as [->|Hne].
  - destruct s as [|b s]; [reflexivity|].
    destruct (is_newline b) eqn:Eb.
    + rewrite head_line_newline by assumption.
      destruct (Ascii.eqb_spec b "[") as [->|Hb]; [discriminate Eb|].
      destruct b as [[] [] [] [] [] [] [] []]; try reflexivity.
      exfalso. now apply Hb.
    + rewrite head_line_cons by assumption.
      destruct (Ascii.eqb_spec b "[") as [->|Hb].
      * pose proof (lazy_group_head s) as H.
        destruct (lazy_group s) as [[g r]|]; [|exact H].
        destruct H as [H1 H2]. split; [exact H1|].
        replace (String.length g + 3)%nat with (S (String.length g + 2))
          by lia.
        cbn [skip_ok]. rewrite Eb. exact H2.
      * destruct b as [[] [] [] [] [] [] [] []]; try reflexivity.
        exfalso. now apply Hb.
  - destruct c as [[] [] [] [] [] [] [] []]; try reflexivity.
    exfalso. now apply Hne.
Qed.

Lemma note_sub_no_match (c : ascii) (r : string) :
  note_match (String c r) = None ->
  note_sub_from 0 (String c r) = String c (note_sub_from 0 r).
Proof.
  intros H.
  change (note_sub_from 0 (String c r))
    with (match note_match (String c r) with
          | Some (g, _) => note_sub_from (String.length g + 3) r
          | None => String c (note_sub_from 0 r)
          end).
  now rewrite H.
Qed.

Lemma note_sub_lines (s : string) :
  forall n, skip_ok n s = true ->
  split_nl (note_sub_from n s)
  = note_sub_from n (head_line s) :: map note_sub (tl (split_nl s)).
Proof.
  induction s as [|c s IH]; intros n Hn.
  - destruct n; reflexivity.
  - destruct n as [|k].
    + destruct (is_newline c) eqn:Ec.
      * assert (Hm : note_match (String c s) = None).
        { unfold note_match.
          destruct (Ascii.eqb_spec c "[") as [->|Hne]; [discriminate Ec|].
          destruct c as [[] [] [] [] [] [] [] []]; try reflexivity.
          exfalso. now apply Hne. }
        rewrite (note_sub_no_match _ _ Hm).
        rewrite head_line_newline by assumption.
        cbn [split_nl]. rewrite Ec. cbn [tl note_sub_from].
        f_equal. rewrite (IH 0%nat) by reflexivity.
        unfold head_line, note_sub.
        pose proof (split_nl_nonempty s).
        destruct (split_nl s); [congruence|]. reflexivity.
      * rewrite split_nl_cons, head_line_cons by assumption. cbn [tl].
        pose proof (note_match_head c s Ec) as H.
        destruct (note_match (String c s)) as [[g r]|] eqn:Em.
        -- destruct H as [Hh Hk].
           rewrite (note_sub_match _ _ _ _ Em), (note_sub_match _ _ _ _ Hh).
           now apply IH.
        -- rewrite (note_sub_no_match _ _ Em), (note_sub_no_match _ _ H).
           rewrite split_nl_cons by assumption. f_equal.
           ++ f_equal. unfold head_line at 1. now rewrite (IH 0%nat).
           ++ now rewrite (IH 0%nat).
    + cbn [skip_ok] in Hn. apply andb_true_iff in Hn as [Hc Hk].
      apply negb_true_iff in Hc.
      rewrite split_nl_cons, head_line_cons by assumption.
      cbn [note_sub_from tl]. now apply IH.
Qed.

Lemma note_sub_split_nl (t : string) :
  split_nl (note_sub t) = map note_sub (split_nl t).
Proof.
  unfold note_sub at 1. rewrite (note_sub_lines t 0) by reflexivity.
  unfold head_line. pose proof (split_nl_nonempty t).
  destruct (split_nl t); [congruence|]. reflexivity.
Qed.

(** ** PDF export *)

Lemma pdf_flush_lines_app pr s l1 l2 :
  pdf_flush_lines pr s (l1 ++ l2)
  = pdf_flush_lines pr (pdf_flush_lines pr s l1) l2.
Proof. apply fold_left_app. Qed.

(** The word loop of the export flushes the lines [wrap_words] gives,
    all but the one still in [cur]. *)
Lemma pdf_words_spec pr sp_w (ws : list string) :
  forall cur cur_w s,
  exists mid cur' cur_w',
    fold_left (pdf_word pr sp_w) ws (cur, cur_w, s)
    = (cur', cur_w', pdf_flush_lines pr s mid)
    /\ wrap_words (horizontalAdvance (bfm pr)) sp_w (pdf_mw pr) cur cur_w ws
       = mid ++ flush cur'
    /\ (cur <> [] \/ ws <> [] -> cur' <> []).
Proof.
  induction ws as [|word rest IH]; intros cur cur_w s.
  - exists [], cur, cur_w. split; [reflexivity|]. split; [reflexivity|].
    intros [H|H]; [exact H|congruence].
  - cbn [fold_left wrap_words]. unfold pdf_word at 2. cbv zeta.
    destruct (_ <=? pdf_mw pr).
    + destruct (IH (cur ++ [word])
                  (cur_w + match cur with
                           | [] => horizontalAdvance (bfm pr) word
                           | _ :: _ => sp_w + horizontalAdvance (bfm pr) word
                           end) s) as (mid & c' & w' & E1 & E2 & E3).
      exists mid, c', w'. split; [exact E1|]. split; [exact E2|].
      intros _. apply E3. left. destruct cur; discriminate.
    + destruct cur as [|c0 cur].
      * destruct (IH [word] (horizontalAdvance (bfm pr) word) s)
          as (mid & c' & w' & E1 & E2 & E3).
        exists mid, c', w'. split; [exact E1|]. split; [exact E2|].
        intros _. apply E3. left. discriminate.
      * destruct (IH [word] (horizontalAdvance (bfm pr) word)
                    (pdf_flush_line pr s (c0 :: cur)))
          as (mid & c' & w' & E1 & E2 & E3).
        exists ((c0 :: cur) :: mid), c', w'. split; [exact E1|].
        split; [cbn [flush]; rewrite E2; reflexivity|].
        intros _. apply E3. left. discriminate.
Qed.

Lemma pdf_para_text pr sp_w s raw :
  is_empty (strip raw) = false ->
  String.eqb (strip raw) _PAUSE_TAG = false ->
  exists mid cur,
    wrap_words (horizontalAdvance (bfm pr)) sp_w (pdf_mw pr) [] 0
               (split_ws (strip raw)) = mid ++ flush cur
    /\ pdf_para pr sp_w s raw
       = pdf_last_line pr
           (pdf_flush_lines pr (pdf_break pr (pdf_lh pr * 2) s) mid) cur
    /\ (cur = [] -> mid = []).
Proof.
  intros He Hp. unfold pdf_para. rewrite He, Hp. cbv zeta.
  destruct (pdf_words_spec pr sp_w (split_ws (strip raw)) [] 0
              (pdf_break pr (pdf_lh pr * 2) s))
    as (mid & cur & cw & E1 & E2 & E3).
  exists mid, cur. split; [exact E2|]. split; [rewrite E1; reflexivity|].
  intros ->. destruct (split_ws (strip raw)) as [|x xs] eqn:Ew.
  - cbn in E2. symmetry in E2. now apply app_eq_nil in E2 as [-> _].
  - exfalso. apply E3; [right; discriminate|reflexivity].
Qed.

(** *** What is drawn *)

Lemma pdf_items_app o1 o2 : pdf_items (o1 ++ o2) = pdf_items o1 ++ pdf_items o2.
Proof. unfold pdf_items. now rewrite map_app, concat_app. Qed.

Lemma pdf_break_out pr need s : pdf_out (pdf_break pr need s) = pdf_out s.
Proof. unfold pdf_break. destruct (_ <? _); reflexivity. Qed.

Lemma pdf_break_pen pr need s : pdf_pen (pdf_break pr need s) = pdf_pen s.
Proof. unfold pdf_break. destruct (_ <? _); reflexivity. Qed.

Lemma pdf_flush_lines_items pr (mid : list (list string)) :
  forall s,
  pdf_items (pdf_out (pdf_flush_lines pr s mid))
  = pdf_items (pdf_out s) ++ map (fun ws => Some (join_sp ws)) mid.
Proof.
  induction mid as [|l mid IH]; intros s; cbn [pdf_flush_lines fold_left map].
  - now rewrite app_nil_r.
  - change (fold_left (pdf_flush_line pr) mid (pdf_flush_line pr s l))
      with (pdf_flush_lines pr (pdf_flush_line pr s l) mid).
    rewrite IH. unfold pdf_flush_line at 1, pdf_draw_text. cbn [pdf_out].
    unfold pdf_set_pen. cbn [pdf_out]. rewrite pdf_break_out, pdf_items_app.
    rewrite <- app_assoc. reflexivity.
Qed.

Lemma pdf_last_line_items pr s cur :
  pdf_items (pdf_out (pdf_last_line pr s cur))
  = pdf_items (pdf_out s) ++ map (fun ws => Some (join_sp ws)) (flush cur).
Proof.
  destruct cur as [|c cur]; cbn [pdf_last_line flush map].
  - now rewrite app_nil_r.
  - unfold pdf_draw_text. cbn [pdf_out].
    rewrite pdf_break_out, pdf_items_app. reflexivity.
Qed.

Lemma pdf_para_items pr sp_w s raw :
  pdf_items (pdf_out (pdf_para pr sp_w s raw))
  = pdf_items (pdf_out s)
    ++ (if is_empty (strip raw) then []
        else if String.eqb (strip raw) _PAUSE_TAG then [None]
        else map (fun ws => Some (join_sp ws))
                 (wrap_words (horizontalAdvance (bfm pr)) sp_w (pdf_mw pr)
                             [] 0 (split_ws (strip raw)))).
Proof.
  destruct (is_empty (strip raw)) eqn:He.
  - unfold pdf_para. rewrite He. cbn [pdf_out]. now rewrite app_nil_r.
  - destruct (String.eqb (strip raw) _PAUSE_TAG) eqn:Hp.
    + unfold pdf_para. rewrite He, Hp. cbv zeta. cbn [pdf_out].
      rewrite pdf_break_out, pdf_items_app. reflexivity.
    + destruct (pdf_para_text pr sp_w s raw He Hp) as (mid & cur & E1 & E2 & _).
      rewrite E2, E1, pdf_last_line_items, pdf_flush_lines_items.
      rewrite pdf_break_out, map_app, app_assoc. reflexivity.
Qed.

Lemma pdf_paras_items pr sp_w (raws : list string) :
  forall s,
  pdf_items (pdf_out (fold_left (pdf_para pr sp_w) raws s))
  = pdf_items (pdf_out s)
    ++ concat (map (fun raw =>
                      if is_empty (strip raw) then []
                      else if String.eqb (strip raw) _PAUSE_TAG then [None]
                      else map (fun ws => Some (join_sp ws))
                               (wrap_words (horizontalAdvance (bfm pr)) sp_w
                                           (pdf_mw pr) [] 0
                                           (split_ws (strip raw)))) raws).
Proof.
  induction raws as [|raw raws IH]; intros s; cbn [fold_left map concat].
  - now rewrite app_nil_r.
  - rewrite IH, pdf_para_items, <- app_assoc. reflexivity.
Qed.

(** X21: the PDF export draws, in order, exactly the lines the prompter's
    wrapping gives for each paragraph of the editor's text at the page's
    content width, with a pause mark for each pause paragraph and nothing
    for a blank one; notes are cut out of each paragraph first.  The
    export returns without drawing when printing support is missing, the
    file dialog is cancelled or the painter does not start. *)
Theorem pdf_export_matches_wrapping
    (ok : bool) (path : string) (begin_ok : bool) (pr : Printer)
    (editor_text : string) :
  (ok = false \/ path = EmptyString \/ begin_ok = false ->
   _export_pdf ok path begin_ok pr editor_text = None)
  /\ (ok = true -> path <> EmptyString -> begin_ok = true ->
      exists out,
        _export_pdf ok path begin_ok pr editor_text = Some out
        /\ pdf_items out
           = concat (map (para_items (horizontalAdvance (bfm pr))
                                     (horizontalAdvance (bfm pr) " ")
                                     (pdf_mw pr))
                         (split_nl editor_text))).
Proof.
  unfold _export_pdf. split.
  - intros [-> | [-> | ->]]; [reflexivity| |].
    + destruct (negb ok); reflexivity.
    + destruct (negb ok); [reflexivity|]. destruct (is_empty path); reflexivity.
  - intros -> Hp ->. destruct path; [congruence|]. cbn [negb is_empty].
    eexists. split; [reflexivity|].
    unfold pdf_body. cbv zeta. rewrite pdf_paras_items, note_sub_split_nl.
    rewrite map_map. reflexivity.
Qed.

(** *** Where it is drawn *)

Lemma pdf_inv_break pr base need s :
  pdf_inv pr base s ->
  pdf_inv pr base (pdf_break pr need s)
  /\ (pdf_y (pdf_break pr need s) + need <= PH pr - pdf_marg pr
      \/ pdf_y (pdf_break pr need s) = pdf_marg pr).
Proof.
  intros (Hy & Hb & Hp & Hs). unfold pdf_break.
  destruct (_ <? _) eqn:E.
  - split; [|right; reflexivity].
    split; [cbn; lia|]. split; [exact Hb|]. split; [|exact Hs].
    cbn [pdf_out pdf_page]. eapply Forall_impl; [exact Hp|].
    intros c Hc. cbn beta in *. lia.
  - apply Z.ltb_ge in E. split; [|left; lia].
    split; [exact Hy|]. split; [exact Hb|]. split; assumption.
Qed.

Lemma sorted_snoc (l : list nat) (n : nat) :
  StronglySorted le l -> Forall (fun k => (k <= n)%nat) l ->
  StronglySorted le (l ++ [n]).
Proof.
  induction 1 as [|a l Hs IH Ha]; intros Hn; cbn [app].
  - constructor; constructor.
  - apply Forall_cons in Hn as [Han Hn]. constructor; [now apply IH|].
    apply Forall_app. split; [exact Ha|]. constructor; [exact Han|constructor].
Qed.

Lemma pdf_inv_emit pr base s (y' : Z) (pen : Color) (c : PdfCmd) :
  pdf_inv pr base s -> cmd_page c = pdf_page s -> cmd_on_page pr c ->
  pdf_marg pr <= y' ->
  pdf_inv pr base (mkPdf (pdf_page s) y' pen (pdf_out s ++ [c])).
Proof.
  intros (Hy & (body & Eb & Hb) & Hp & Hs) Hc Hon Hy'.
  split; [exact Hy'|]. cbn [pdf_out pdf_page]. split; [|split].
  - exists (body ++ [c]). split; [rewrite Eb; symmetry; apply app_assoc|].
    apply Forall_app. split; [exact Hb|]. constructor; [exact Hon|constructor].
  - apply Forall_app. split; [exact Hp|].
    constructor; [rewrite Hc; lia|constructor].
  - rewrite map_app. cbn [map]. rewrite Hc. apply sorted_snoc; [exact Hs|].
    apply Forall_fmap. exact Hp.
Qed.

Lemma pdf_inv_set_pen pr base c s :
  pdf_inv pr base s -> pdf_inv pr base (pdf_set_pen c s).
Proof. intros H. exact H. Qed.

Lemma pdf_inv_draw_text pr base txt s :
  0 <= pdf_lh pr -> 2 * pdf_marg pr + pdf_lh pr <= PH pr ->
  pdf_inv pr base s ->
  pdf_inv pr base (pdf_draw_text pr txt (pdf_break pr (pdf_lh pr) s)).
Proof.
  intros Hlh Hfit H.
  destruct (pdf_inv_break pr base (pdf_lh pr) s H) as [Hi Hy].
  unfold pdf_draw_text. apply pdf_inv_emit; [exact Hi|reflexivity| |].
  - cbn [cmd_on_page]. destruct Hi as (Hm & _). lia.
  - destruct Hi as (Hm & _). lia.
Qed.

Lemma pdf_inv_flush_line pr base s l :
  0 <= pdf_lh pr -> 2 * pdf_marg pr + pdf_lh pr <= PH pr ->
  pdf_inv pr base s -> pdf_inv pr base (pdf_flush_line pr s l).
Proof.
  intros Hlh Hfit H. unfold pdf_flush_line.
  destruct (pdf_inv_break pr base (pdf_lh pr) s H) as [Hi Hy].
  unfold pdf_draw_text, pdf_set_pen. cbn [pdf_page pdf_y pdf_pen pdf_out].
  apply pdf_inv_emit; [exact Hi|reflexivity| |].
  - cbn [cmd_on_page]. destruct Hi as (Hm & _). lia.
  - destruct Hi as (Hm & _). lia.
Qed.

Lemma pdf_inv_flush_lines pr base (mid : list (list string)) :
  0 <= pdf_lh pr -> 2 * pdf_marg pr + pdf_lh pr <= PH pr ->
  forall s, pdf_inv pr base s -> pdf_inv pr base (pdf_flush_lines pr s mid).
Proof.
  intros Hlh Hfit. induction mid as [|l mid IH]; intros s H; [exact H|].
  apply IH. now apply pdf_inv_flush_line.
Qed.

Lemma pdf_inv_para pr base sp_w s raw :
  0 <= pdf_lh pr -> 2 * pdf_marg pr + pdf_lh pr <= PH pr ->
  pdf_inv pr base s -> pdf_inv pr base (pdf_para pr sp_w s raw).
Proof.
  intros Hlh Hfit H.
  assert (Hhalf : 0 <= pdf_lh pr / 2 <= pdf_lh pr).
  { split; [apply Z.div_pos; lia|].
    apply Z.div_le_upper_bound; lia. }
  destruct (is_empty (strip raw)) eqn:He.
  - unfold pdf_para. rewrite He. destruct H as (Hy & Hb & Hp & Hs).
    split; [cbn; lia|]. split; [exact Hb|]. split; assumption.
  - destruct (String.eqb (strip raw) _PAUSE_TAG) eqn:Hp.
    + unfold pdf_para. rewrite He, Hp. cbv zeta.
      destruct (pdf_inv_break pr base (pdf_lh pr * 2) s H) as [Hi Hy].
      set (s1 := pdf_break pr (pdf_lh pr * 2) s) in *.
      pose proof Hi as (Hm & _).
      change (pdf_out s1 ++ [?a; ?b]) with (pdf_out s1 ++ [a] ++ [b]).
      rewrite app_assoc.
      apply (pdf_inv_emit pr base
               (mkPdf (pdf_page s1) (pdf_y s1) pause_pen (pdf_out s1 ++ [_])));
        [|reflexivity|reflexivity|lia].
      apply pdf_inv_emit; [exact Hi|reflexivity| |exact Hm].
      cbn [cmd_on_page]. repeat split; lia.
    + destruct (pdf_para_text pr sp_w s raw He Hp) as (mid & cur & _ & -> & _).
      destruct (pdf_inv_break pr base (pdf_lh pr * 2) s H) as [Hi _].
      pose proof (pdf_inv_flush_lines pr base mid Hlh Hfit _ Hi) as Hf.
      destruct cur as [|c cur]; [exact Hf|].
      cbn [pdf_last_line]. now apply pdf_inv_draw_text.
Qed.

(** X22: when a body line fits between the margins of a page
    ([2 * marg + lh <= PH]), every text line and pause mark the export
    draws below the heading lies on its page: its band of one line
    height is between the top and the bottom margin and it starts at the
    left margin.  Pages only go forward in the drawing. *)
Theorem pdf_lines_on_page (pr : Printer) (editor_text : string) :
  0 <= lineSpacing (bfm pr) -> 0 <= lineSpacing (tfm pr) ->
  2 * pdf_marg pr + pdf_lh pr <= PH pr ->
  let s := pdf_body pr editor_text in
  (exists body,
      pdf_out s = pdf_out (pdf_heading pr) ++ body
      /\ Forall (cmd_on_page pr) body)
  /\ Forall (fun c => (cmd_page c <= pdf_page s)%nat) (pdf_out s)
  /\ StronglySorted le (map cmd_page (pdf_out s))
  /\ pdf_marg pr <= pdf_y s.
Proof.
  intros Hb Ht Hfit s.
  assert (Hlh : 0 <= pdf_lh pr) by (unfold pdf_lh; lia).
  assert (Hhalf : 0 <= pdf_lh pr / 2) by (apply Z.div_pos; lia).
  assert (H0 : pdf_inv pr (pdf_out (pdf_heading pr)) (pdf_heading pr)).
  { split; [cbn; lia|]. split; [|split].
    - exists []. split; [now rewrite app_nil_r|constructor].
    - cbn. repeat constructor.
    - cbn. repeat constructor. }
  assert (H : pdf_inv pr (pdf_out (pdf_heading pr)) s).
  { unfold s, pdf_body. cbv zeta. revert H0.
    generalize (pdf_heading pr) at 2 4.
    induction (split_nl (note_sub editor_text)) as [|raw raws IH];
      intros s0 H0; [exact H0|].
    cbn [fold_left]. apply IH. now apply pdf_inv_para. }
  destruct H as (Hy & Hbody & Hp & Hs).
  split; [exact Hbody|]. split; [exact Hp|]. split; [exact Hs|exact Hy].
Qed.

(** *** With which pen *)

Lemma pdf_flush_lines_pens pr (mid : list (list string)) :
  forall s,
  exists cmds,
    pdf_out (pdf_flush_lines pr s mid) = pdf_out s ++ cmds
    /\ map cmd_pen cmds = repeat text_pen (length mid)
    /\ pdf_pen (pdf_flush_lines pr s mid)
       = match mid with [] => pdf_pen s | _ :: _ => text_pen end.
Proof.
  induction mid as [|l mid IH]; intros s.
  - exists []. cbn. now rewrite app_nil_r.
  - cbn [pdf_flush_lines fold_left].
    destruct (IH (pdf_flush_line pr s l)) as (cmds & E1 & E2 & E3).
    unfold pdf_flush_lines in E1, E3. rewrite E1, E3.
    unfold pdf_flush_line, pdf_draw_text, pdf_set_pen.
    cbn [pdf_out pdf_pen pdf_page pdf_y]. rewrite pdf_break_out.
    eexists. split; [rewrite <- app_assoc; reflexivity|].
    split; [cbn [map app cmd_pen length repeat]; now rewrite E2|].
    destruct mid; reflexivity.
Qed.

(** X23: the pens of a text paragraph in the PDF export.  The lines
    flushed inside the word loop are drawn with the text pen, but the
    pen is not set for the line flushed after the loop: a paragraph that
    fits on one line is drawn with the pen left by what was drawn before
    it, which is the rule's pen right after the heading and the pause
    pen right after a pause mark. *)
Theorem pdf_last_line_pen (pr : Printer) (sp_w : Z) (s : Pdf) (raw : string) :
  is_empty (strip raw) = false ->
  String.eqb (strip raw) _PAUSE_TAG = false ->
  let flushed := wrap_words (horizontalAdvance (bfm pr)) sp_w (pdf_mw pr) [] 0
                            (split_ws (strip raw)) in
  (exists cmds,
      pdf_out (pdf_para pr sp_w s raw) = pdf_out s ++ cmds
      /\ map cmd_pen cmds
         = match flushed with
           | [_] => [pdf_pen s]
           | _ => repeat text_pen (length flushed)
           end)
  /\ pdf_pen (pdf_heading pr) = rule_pen
  /\ (forall s0 raw0, String.eqb (strip raw0) _PAUSE_TAG = true ->
        pdf_pen (pdf_para pr sp_w s0 raw0) = pause_pen)
  /\ (forall s0 raw0, is_empty (strip raw0) = true ->
        pdf_pen (pdf_para pr sp_w s0 raw0) = pdf_pen s0).
Proof.
  intros He Hp flushed. split; [|split; [reflexivity|split]].
  - destruct (pdf_para_text pr sp_w s raw He Hp) as (mid & cur & E1 & E2 & E3).
    fold flushed in E1. rewrite E2, E1.
    destruct (pdf_flush_lines_pens pr mid (pdf_break pr (pdf_lh pr * 2) s))
      as (cmds & O1 & O2 & O3).
    rewrite pdf_break_out in O1. rewrite pdf_break_pen in O3.
    destruct cur as [|c cur]; cbn [pdf_last_line flush].
    + rewrite (E3 eq_refl) in *. exists cmds. split; [exact O1|].
      rewrite O2. reflexivity.
    + unfold pdf_draw_text. cbn [pdf_out]. rewrite pdf_break_out, O1.
      eexists. split; [rewrite <- app_assoc; reflexivity|].
      rewrite map_app, O2. cbn [map cmd_pen]. rewrite pdf_break_pen, O3.
      destruct mid as [|l mid]; [reflexivity|].
      cbn [app]. destruct (mid ++ [c :: cur]) as [|y ys] eqn:Em;
        [destruct mid; discriminate|].
      assert (El : length (l :: y :: ys) = S (length (l :: mid))).
      { change (length (l :: y :: ys)) with (S (length (y :: ys))).
        rewrite <- Em, length_app. cbn [length]. lia. }
      rewrite El, <- repeat_cons. reflexivity.
  - intros s0 raw0 H. unfold pdf_para. rewrite H.
    destruct (strip raw0); [discriminate H|reflexivity].
  - intros s0 raw0 H. unfold pdf_para. now rewrite H.
Qed.

(** ** The microphone stream *)

Lemma ensure_layout_stream w :
  _mic_stream (_ensure_layout w) = _mic_stream w
  /\ mic_threshold (_ensure_layout w) = mic_threshold w.
Proof. split; keeps. Qed.

Lemma scroll_check_stream w :
  _mic_stream (scroll_check w) = _mic_stream w
  /\ mic_threshold (scroll_check w) = mic_threshold w.
Proof. split; keeps. Qed.

Lemma scroll_step_stream e w :
  _mic_stream (_scroll_step e w) = _mic_stream w
  /\ mic_threshold (_scroll_step e w) = mic_threshold w.
Proof.
  unfold _scroll_step, scroll_advance.
  destruct (scroll_check_stream
              (_ensure_layout
                 (set_scroll_y
                    (scroll_y
                       (if auto_speed_enabled w
                        then set_mic_smooth
                               (_mic_smooth w
                                + 0.10 * (_mic_target w - _mic_smooth w))%Q w
                        else w)
                     + (if auto_speed_enabled w
                        then Qmax 0 (_mic_smooth w
                                     + 0.10 * (_mic_target w - _mic_smooth w))
                        else speed w) / 16.667
                       * inject_Z (Z.max 1 (Z.min e 100)))%Q
                    (if auto_speed_enabled w
                     then set_mic_smooth
                            (_mic_smooth w
                             + 0.10 * (_mic_target w - _mic_smooth w))%Q w
                     else w)))) as [_ _].
  split.
  - rewrite (proj1 (scroll_check_stream _)), (proj1 (ensure_layout_stream _)).
    destruct (auto_speed_enabled w) eqn:E; simpl; rewrite ?E; reflexivity.
  - rewrite (proj2 (scroll_check_stream _)), (proj2 (ensure_layout_stream _)).
    destruct (auto_speed_enabled w) eqn:E; simpl; rewrite ?E; reflexivity.
Qed.

Ltac stream_same := let H := fresh "H" in intros H; exact H.

Lemma handle_stream e w : stream_ok w -> stream_ok (handle e w).
Proof.
  destruct e; simpl.
  - unfold set_text_. stream_same.
  - unfold toggle_play, _start_countdown, _begin_play, _do_pause.
    destruct (_cd_val w); [stream_same|].
    destruct (is_playing w); simpl; [stream_same|].
    destruct (0 <? countdown_secs w); stream_same.
  - unfold reset. stream_same.
  - destruct (_cd_timer w); [|auto]. unfold _cd_tick, _begin_play.
    destruct (_cd_val w); [|auto]. destruct (_ <=? 0); stream_same.
  - destruct (_scroll_timer w); [|auto]. unfold stream_ok.
    destruct (scroll_step_stream elapsed w) as [-> ->]. auto.
  - destruct k; simpl;
      unfold toggle_play, _start_countdown, _begin_play, _do_pause,
        _speed_up, _speed_dn, reset;
      try stream_same;
      (destruct (_cd_val w); [stream_same|];
       destruct (is_playing w); simpl; [stream_same|];
       destruct (0 <? countdown_secs w); stream_same).
  - unfold wheelEvent, _speed_up, _speed_dn. destruct (0 <? dy); stream_same.
  - unfold resizeEvent. stream_same.
  - intros H. unfold paintEvent.
    destruct (_cd_val w).
    { unfold _ensure_font. destruct (font_key_hit _ _); exact H. }
    destruct (is_empty (text w)); [assumption|].
    destruct (_f_line_h (_ensure_layout w) =? 0); unfold stream_ok; simpl;
      destruct (ensure_layout_stream w) as [-> ->]; exact H.
  - unfold _on_speed. stream_same.
  - stream_same.
  - unfold _on_font, invalidate_layout. stream_same.
  - unfold _on_ls, invalidate_layout. stream_same.
  - unfold on_font_family, invalidate_layout. stream_same.
  - unfold _on_align. destruct (_ !! idx); [stream_same | auto].
  - unfold on_focus_zone. destruct (_ !! i); [stream_same | auto].
  - stream_same.
  - destruct MIC_OK eqn:E; [|auto]. unfold _on_mic, start_mic, stop_mic.
    intros [Ht Hs]. destruct b; simpl.
    + rewrite E. simpl.
      destruct (bool_decide _) eqn:Eb; simpl; [split; assumption|].
      split; [exact Ht|]. simpl. intros thr [= <-]. split; [exact E|exact Ht].
    + split; [exact Ht|]. simpl. intros thr [=].
  - destruct MIC_OK eqn:E; [|auto]. intros [Ht Hs]. split; [|exact Hs].
    simpl. pose proof (bounded_range 1 20 v ltac:(lia)) as Hb.
    assert (H1 : (1 <= inject_Z (bounded 1 20 v))%Q)
      by (change 1%Q with (inject_Z 1); rewrite <- Zle_Qle; lia).
    assert (H2 : (inject_Z (bounded 1 20 v) <= 20)%Q)
      by (change 20%Q with (inject_Z 20); rewrite <- Zle_Qle; lia).
    clear Hb. generalize dependent (inject_Z (bounded 1 20 v)).
    intros q H1 H2. unfold Qdiv. change (/ 200)%Q with (1 # 200)%Q.
    change (/ 10)%Q with (1 # 10)%Q. lra.
  - unfold mic_callback. destruct (_mic_stream w) eqn:E; [|auto].
    intros [Ht Hs]. split; [exact Ht|]. simpl. intros thr Hthr.
    apply Hs. exact Hthr.
Qed.

Lemma reachable_stream w : reachable w -> stream_ok w.
Proof.
  intros (W & H & es & ->). unfold run.
  assert (J : stream_ok (init (Z.max 640 W) (Z.max 420 H))).
  { split; [simpl; split; now vm_compute|]. simpl. intros thr [=]. }
  revert J. generalize (init (Z.max 640 W) (Z.max 420 H)).
  induction es as [|e es IH]; intros w J; simpl; [assumption|].
  apply IH, handle_stream, J.
Qed.

(** X24: the input stream keeps the threshold it was started with.  In
    every state the window can be in with the stream open, that
    threshold is one the slider can set; moving the threshold slider
    changes the setting but not the open stream, whose callback goes on
    comparing the level with the old threshold; switching the microphone
    on again does not restart the stream; only after it is switched off
    and on does the stream use the new setting. *)
Theorem mic_threshold_captured (w : TeleprompterWindow) (thr : Q) (v : Z)
    (rms : Q) :
  reachable w -> _mic_stream w = Some thr ->
  let w1 := handle (EvThresholdSlider v) w in
  (1 / 200 <= thr <= 1 / 10)%Q
  /\ mic_threshold w1 = (inject_Z (bounded 1 20 v) / 200)%Q
  /\ _mic_stream w1 = Some thr
  /\ _mic_target (handle (EvAudio rms) w1)
     = (if Qle_bool rms thr then 0%Q else speed w)
  /\ _mic_stream (handle (EvMic true) w1) = Some thr
  /\ _mic_stream (handle (EvMic true) (handle (EvMic false) w1))
     = Some (inject_Z (bounded 1 20 v) / 200)%Q.
Proof.
  intros Hr Hs w1.
  destruct (reachable_stream w Hr) as [_ Hst].
  destruct (Hst thr Hs) as [Hm Hthr].
  split; [exact Hthr|]. unfold w1. simpl. rewrite Hm. simpl.
  split; [reflexivity|]. split; [exact Hs|].
  split.
  { unfold mic_callback. simpl. rewrite Hs. simpl.
    destruct (Qle_bool rms thr); reflexivity. }
  unfold _on_mic, start_mic, stop_mic. rewrite Hm. simpl. rewrite Hs.
  rewrite (bool_decide_eq_true_2 (is_Some (Some thr))) by eauto.
  simpl. split; [exact Hs|reflexivity].
Qed.

(** ** Window placement *)

(** X25: the start-up placement.  Without a screen nothing is placed.
    Otherwise the panel is 20 px from the left edge and centred
    vertically with at least 20 px above and below; the prompter starts
    12 px right of the panel at the same top edge, is at least 640 wide
    and at most 560 high; it ends 20 px before the right edge of the
    screen whenever there is room for 640 px, and it stays above the
    bottom edge whenever it is not higher than the panel. *)
Theorem arrange_windows_side_by_side (sg : QRect) (panel_w panel_h : Z) :
  _arrange_windows None panel_w panel_h = None
  /\ exists p t,
      _arrange_windows (Some sg) panel_w panel_h = Some (p, t)
      /\ r_x p = r_x sg + 20
      /\ (let top := r_y p - r_y sg in
          let bottom := r_y sg + r_h sg - (r_y p + r_h p) in
          20 <= top /\ top <= bottom <= top + 1)
      /\ r_x t = r_x p + r_w p + 12
      /\ r_y t = r_y p
      /\ 640 <= r_w t
      /\ r_h t <= 560
      /\ (panel_w + 692 <= r_w sg -> r_x t + r_w t = r_x sg + r_w sg - 20)
      /\ (r_h t <= r_h p -> r_y t + r_h t <= r_y sg + r_h sg - 20).
Proof.
  split; [reflexivity|]. eexists. eexists. split; [reflexivity|].
  cbn [r_x r_y r_w r_h].
  pose proof (Z.div_mod (r_h sg - Z.min panel_h (r_h sg - 40)) 2 ltac:(lia)).
  pose proof (Z.mod_pos_bound (r_h sg - Z.min panel_h (r_h sg - 40)) 2
                ltac:(lia)).
  repeat match goal with |- _ /\ _ => split end; cbv zeta; try lia.
Qed.

(** ** Colours and opacity *)

Lemma themes_opacity (name : string) (t : Theme) :
  theme_get name = Some t ->
  (0.70 <= th_opacity t <= 0.97)%Q
  /\ (inject_Z (py_int (th_opacity t * 100)) == th_opacity t * 100)%Q
  /\ (py_int (th_opacity t * 100) <= 95 <-> name <> "High Contrast").
Proof.
  unfold theme_get, THEMES. cbn [List.find fst snd].
  destruct (String.eqb_spec "Dark" name) as [<-|_].
  { intros [= <-]. split; [split; now vm_compute|].
    split; [now vm_compute|]. split; [discriminate|]. intros _. now vm_compute. }
  destruct (String.eqb_spec "Light" name) as [<-|_].
  { intros [= <-]. split; [split; now vm_compute|].
    split; [now vm_compute|]. split; [discriminate|]. intros _. now vm_compute. }
  destruct (String.eqb_spec "High Contrast" name) as [<-|_].
  { intros [= <-]. split; [split; now vm_compute|].
    split; [now vm_compute|]. split; [|congruence].
    intros H. vm_compute in H. exfalso. now apply H. }
  destruct (String.eqb_spec "Solarized" name) as [<-|_].
  { intros [= <-]. split; [split; now vm_compute|].
    split; [now vm_compute|]. split; [discriminate|]. intros _. now vm_compute. }
  destruct (String.eqb_spec "Cinema Blue" name) as [<-|_].
  { intros [= <-]. split; [split; now vm_compute|].
    split; [now vm_compute|]. split; [discriminate|]. intros _. now vm_compute. }
  discriminate.
Qed.

Lemma handle_display_ok e d : display_ok d -> display_ok (handle_display e d).
Proof.
  clear QFontMetrics.
  intros (Hc & Ho & Hl & Hs). destruct e; cbn [handle_display].
  - pose proof (bounded_range 0 95 v ltac:(lia)) as Hb.
    destruct (_ =? _); [repeat split; tauto|].
    unfold _on_opacity, _rebuild_color_cache, display_ok.
    cbn [_c_bg bg_color bg_opacity _opa_sl _opa_lbl].
    assert (H0 : (0 <= inject_Z (bounded 0 95 v))%Q)
      by (change 0%Q with (inject_Z 0); rewrite <- Zle_Qle; lia).
    assert (H1 : (inject_Z (bounded 0 95 v) <= 95)%Q)
      by (change 95%Q with (inject_Z 95); rewrite <- Zle_Qle; lia).
    split; [reflexivity|]. split; [|split; [|lia]].
    + clear Hb. generalize dependent (inject_Z (bounded 0 95 v)).
      intros q H0 H1.
      unfold Qdiv. change (/ 100)%Q with (1 # 100)%Q. lra.
    + field.
  - unfold _apply_theme. destruct (theme_get name) as [t|] eqn:E;
      [|repeat split; tauto].
    destruct (themes_opacity name t E) as (Hr & Hi & _).
    unfold _rebuild_color_cache, display_ok.
    cbn [_c_bg bg_color bg_opacity _opa_sl _opa_lbl].
    split; [reflexivity|]. split; [lra|]. split; [exact Hi|].
    assert (0 <= py_int (th_opacity t * 100)) by (apply py_int_ge0; lra).
    unfold bounded. lia.
  - destruct c; cbn; repeat split; tauto.
  - destruct c; cbn; repeat split; try tauto.
  - cbn. repeat split; tauto.
Qed.

(** X26: whatever is done with the opacity slider, the themes and the
    colour dialogs, the cached background colour is the background
    colour at the current opacity, the opacity lies between 0 and 0.97
    (a valid alpha, never fully opaque), the label shows the opacity in
    percent and the slider shows the same value cut to its range
    0..95. *)
Theorem display_settings_coherent (es : list DisplayEvent) :
  let d := run_display es in
  _c_bg d = (bg_color d, bg_opacity d)
  /\ (0 <= bg_opacity d <= 0.97)%Q
  /\ (inject_Z (_opa_lbl d) == bg_opacity d * 100)%Q
  /\ _opa_sl d = Z.min 95 (_opa_lbl d).
Proof.
  clear QFontMetrics.
  cbv zeta. unfold run_display.
  assert (J : display_ok init_display).
  { split; [reflexivity|]. split; [split; now vm_compute|].
    split; [now vm_compute|reflexivity]. }
  revert J. generalize init_display.
  induction es as [|e es IH]; intros d J; cbn [fold_left]; [exact J|].
  apply IH, handle_display_ok, J.
Qed.

(** X27: applying a theme.  An unknown name changes nothing.  A theme of
    the table sets both colours and the opacity of the theme and
    rebuilds the cache; the slider then agrees with the opacity for
    every theme but High Contrast, whose opacity 0.97 is beyond the
    slider's range: there the slider shows 95 while the label shows 97
    and the opacity is 0.97. *)
Theorem theme_applied (name : string) (d : Display) :
  match theme_get name with
  | None => _apply_theme name d = d
  | Some t =>
      let d' := _apply_theme name d in
      text_color d' = th_text t /\ bg_color d' = th_bg t
      /\ bg_opacity d' = th_opacity t
      /\ _c_bg d' = (th_bg t, th_opacity t)
      /\ ((inject_Z (_opa_sl d') / 100 == bg_opacity d')%Q
          <-> name <> "High Contrast")
      /\ (name = "High Contrast" ->
          _opa_sl d' = 95 /\ _opa_lbl d' = 97 /\ (bg_opacity d' == 0.97)%Q)
  end.
Proof.
  unfold _apply_theme. destruct (theme_get name) as [t|] eqn:E; [|reflexivity].
  destruct (themes_opacity name t E) as (Hr & Hi & Hn).
  cbv zeta. unfold _rebuild_color_cache.
  cbn [text_color bg_color bg_opacity _c_bg _opa_sl _opa_lbl].
  assert (H0 : 0 <= py_int (th_opacity t * 100)) by (apply py_int_ge0; lra).
  split; [reflexivity|]. split; [reflexivity|]. split; [reflexivity|].
  split; [reflexivity|]. split.
  - rewrite <- Hn. split.
    + intros Hq. destruct (Z.le_gt_cases (py_int (th_opacity t * 100)) 95)
        as [Hle|Hgt]; [exact Hle|]. exfalso.
      assert (Eb : bounded 0 95 (py_int (th_opacity t * 100)) = 95)
        by (unfold bounded; lia).
      rewrite Eb in Hq.
      assert (Hq' : (th_opacity t * 100 == 95)%Q).
      { rewrite <- Hq. change (inject_Z 95) with 95%Q. field. }
      assert (H95 : (inject_Z (py_int (th_opacity t * 100)) == inject_Z 95)%Q)
        by (eapply Qeq_trans; [exact Hi|exact Hq']).
      rewrite inject_Z_injective in H95. rewrite H95 in Hgt. lia.
    + intros Hle.
      assert (Eb : bounded 0 95 (py_int (th_opacity t * 100))
                   = py_int (th_opacity t * 100))
        by (unfold bounded; lia).
      rewrite Eb, Hi. field.
  - intros ->. vm_compute in E. injection E as <-.
    split; [now vm_compute|]. split; [now vm_compute|reflexivity].
Qed.

End Engine.

(** * Worked examples

    The theorems above at the example runs, with the fixed-pitch font. *)



(** C3 on a script without pause lines. *)
Lemma frame_rate_independent_witness :
  let w := run QFontMetrics10 true plain_play_events (init 640 420) in
  (scroll_y (_scroll_step QFontMetrics10 32 w)
   == scroll_y (_scroll_step QFontMetrics10 16 (_scroll_step QFontMetrics10 16 w)))%Q.
Proof.
  intros w. apply (frame_rate_independent QFontMetrics10 w);
    vm_compute; reflexivity.
Defined.

(** C5 on a paragraph that wraps into three lines at width 300. *)
Lemma wrap_invariant_holds_witness :
  Forall (fun ws => ws <> []
                    /\ wrap_invariant (horizontalAdvance fixed10) 10 (300 - 80) ws)
         (wrap_words (horizontalAdvance fixed10) 10 (300 - 80) [] 0
                     (split_ws "more text is here and it is long enough to wrap")).
Proof.
  apply (proj1 (wrap_invariant_holds (horizontalAdvance fixed10) 10 300)).
Defined.

(** C6 on the window after a first layout of scenario 1. *)
Lemma ensure_layout_idempotent_witness :
  let w := _ensure_layout QFontMetrics10 (set_text_ scenario1 (init 640 420)) in
  _ensure_layout QFontMetrics10 w = w.
Proof.
  intros w. apply (proj1 (ensure_layout_idempotent QFontMetrics10 w)).
  vm_compute. reflexivity.
Defined.


(** C8 with the fixed-pitch font in a window 640 wide. *)
Lemma note_directive_parsed_witness :
  lines (build_layout (horizontalAdvance fixed10) 10 AlignLeft 640 scenario2)
    !! 0%nat = Some "Note here"
  /\ notes (build_layout (horizontalAdvance fixed10) 10 AlignLeft 640 scenario2)
       !! Z.of_nat (length (lines (layout_paras (horizontalAdvance fixed10) 10
                                                AlignLeft 640 empty_layout [])))
     = Some (strip "remember this").
Proof.
  destruct (note_directive_parsed QFontMetrics10 (horizontalAdvance fixed10)
                                  10 AlignLeft 640) as [(_ & _ & Hline) Hgen].
  split.
  - apply Hline. apply Z.leb_le. vm_compute. reflexivity.
  - assert (Hs : split_nl scenario2
                 = [] ++ ("Note here " +:+ "[[" +:+ "remember this" +:+ "]]"
                          +:+ EmptyString) :: ["more text"])
      by reflexivity.
    assert (Hne : "remember this" <> EmptyString) by discriminate.
    destruct (Hgen scenario2 [] ["more text"] "Note here " "remember this"
                   EmptyString Hs eq_refl eq_refl Hne eq_refl) as [Hnote _].
    exact Hnote.
Defined.

(** C9 at both ends of the slider. *)
Lemma manual_speed_clamped_witness :
  (speed (_speed_dn (_on_speed 1 (init 640 420))) == 0.5)%Q
  /\ (speed (_speed_up (_on_speed 40 (init 640 420))) == 20)%Q.
Proof.
  split.
  - apply (proj1 (manual_speed_clamped (_on_speed 1 (init 640 420)))).
    vm_compute. reflexivity.
  - apply (proj1 (proj2 (manual_speed_clamped (_on_speed 40 (init 640 420))))).
    vm_compute. reflexivity.
Defined.

(** C10 at scenario 1. *)
Lemma layout_tables_consistent_witness :
  let w := run QFontMetrics10 true before_pause_events (init 640 420) in
  layout_ok (_l_lines w) (_l_word_xs w) (_l_pause w)
  /\ exists cmds,
      snd (paintEvent QFontMetrics10 w) = Some cmds
      /\ Forall (highlight_ok (fst (paintEvent QFontMetrics10 w))) cmds.
Proof.
  intros w. apply (proj2 (layout_tables_consistent QFontMetrics10 true w)).
  exists 640, 420, before_pause_events. reflexivity.
Defined.

(** C4 fails on the code: after the one-line script ["Hi"] has been laid
    out (total height 60, layout cache current), one press of the Right
    key leaves [scroll_y = 80], above the total height.  [Key_Right] adds
    80 without the upper clamp that [_scroll_step] applies, where
    [Key_Left] clamps at 0. *)
Lemma key_right_exceeds_total :
  let w := run QFontMetrics10 true key_right_events (init 640 420) in
  reachable QFontMetrics10 true w
  /\ layout_cache_hit w = true
  /\ _l_total w = 60%Q
  /\ scroll_y w = 80%Q
  /\ ~ (scroll_y w <= _l_total w)%Q.
Proof.
  intros w. split; [exists 640, 420, key_right_events; reflexivity|].
  split; [vm_compute; reflexivity|].
  split; [vm_compute; reflexivity|].
  split; [vm_compute; reflexivity|].
  vm_compute. intros H. apply H. reflexivity.
Qed.

(** * Worked examples for the further properties *)

Lemma alpha_lut_fades_witness :
  0 <= 30 /\ 30 <= 180 /\ 180 <= 255 /\ _ALPHA_LUT !! 0%nat = Some 255.
Proof.
  apply (alpha_lut_fades 100 300 180 30); [lia | reflexivity | reflexivity].
Defined.

Lemma line_x_placement_witness :
  _line_x 100 AlignRight 640 40 + 100 = 640 - 40.
Proof.
  destruct (line_x_placement 100 640 40 AlignRight) as (_ & _ & H & _);
    [lia|]. apply H. lia.
Defined.

Lemma words_inside_margins_witness :
  Forall (fun e : list (string * Z) =>
            forall w x, In (w, x) e ->
              (40 <= x /\ x + horizontalAdvance fixed10 w <= 640 - 40)
              \/ (e = [(w, x)] /\ 640 - 80 < horizontalAdvance fixed10 w
                  /\ 0 <= x))
         (wxs (build_layout (horizontalAdvance fixed10) 10 AlignHCenter 640
                            scenario1)).
Proof.
  apply (words_inside_margins (horizontalAdvance fixed10) 10 640 AlignHCenter
                              scenario1).
  - intros s. simpl. lia.
  - lia.
Defined.

(** X4 at scenario 1: the first display line. *)
Lemma line_text_matches_words_witness :
  split_ws "Hello world" = map fst [("Hello", 40); ("world", 100)]
  /\ "Hello world" = join_sp (map fst [("Hello", 40); ("world", 100)]).
Proof.
  destruct (proj1 (line_text_matches_words (horizontalAdvance fixed10) 10 640
                     AlignLeft scenario1)
              0%nat "Hello world" [("Hello", 40); ("world", 100)])
    as [H1 H2].
  - vm_compute. reflexivity.
  - vm_compute. reflexivity.
  - apply (bool_decide_eq_false_1
             (Z.of_nat 0 ∈ pauses (build_layout (horizontalAdvance fixed10) 10
                                                AlignLeft 640 scenario1))).
    vm_compute. reflexivity.
  - split; [exact H1|]. apply H2. discriminate.
Defined.

(** X6 after scenario 1 has been set and not yet painted. *)
Lemma layout_cache_never_stale_witness :
  let w := run QFontMetrics10 true [EvSetText scenario1] (init 640 420) in
  _l_lines (_ensure_layout QFontMetrics10 w)
  = lines (build_layout (horizontalAdvance fixed10)
                        (horizontalAdvance fixed10 " ")
                        (text_align w) (width w) (text w)).
Proof.
  intros w.
  apply (layout_cache_never_stale QFontMetrics10 true w).
  exists 640, 420, [EvSetText scenario1]. reflexivity.
Defined.

(** X7 while scenario 1 is playing. *)
Lemma playback_state_well_formed_witness :
  let w := run QFontMetrics10 true before_pause_events (init 640 420) in
  is_playing w = _scroll_timer w
  /\ match _cd_val w with
     | Some n => _cd_timer w = true /\ 1 <= n <= 10 /\ is_playing w = false
     | None => _cd_timer w = false
     end.
Proof.
  intros w. apply (playback_state_well_formed QFontMetrics10 true w).
  exists 640, 420, before_pause_events. reflexivity.
Defined.

(** X8 with the initial countdown of three seconds. *)
Lemma countdown_runs_witness :
  let w := init 640 420 in
  _cd_val (cd_timeouts QFontMetrics10 true 1 (toggle_play w)) = Some (3 - 1)
  /\ is_playing (cd_timeouts QFontMetrics10 true (Z.to_nat 3) (toggle_play w))
     = true.
Proof.
  intros w.
  destruct (countdown_runs QFontMetrics10 true w 3) as [H1 H2];
    [reflexivity | reflexivity | reflexivity | lia |].
  split.
  - apply (H1 1%nat). lia.
  - apply H2.
Defined.


(** X10 on a tick of 16 ms at line height 60. *)
Lemma focus_moves_one_line_witness :
  let w := run QFontMetrics10 true plain_play_events (init 640 420) in
  let a := scroll_advance QFontMetrics10 16 w in
  let before := py_int (scroll_y w / inject_Z (_f_line_h a)) in
  before <= focus_line a <= before + 1.
Proof.
  intros w a before.
  destruct (focus_moves_one_line QFontMetrics10 true 16 w) as [H _].
  - exists 640, 420, plain_play_events. reflexivity.
  - apply H. vm_compute. reflexivity.
Defined.

(** X11: a one-line script at full speed ends within one stalled tick. *)
Lemma end_of_content_stops_witness :
  let w := run QFontMetrics10 true
               [EvSetText "Hi"; EvCountdownSpin 0; EvSpeedSlider 40;
                EvTogglePlay] (init 640 420) in
  let r := _scroll_step QFontMetrics10 100 w in
  scroll_y r = _l_total r /\ is_playing r = false.
Proof.
  intros w r.
  destruct (end_of_content_stops QFontMetrics10 true 100 w) as [_ H].
  - exists 640, 420, [EvSetText "Hi"; EvCountdownSpin 0; EvSpeedSlider 40;
                      EvTogglePlay]. reflexivity.
  - destruct H as (_ & H2 & H3 & _); [vm_compute; reflexivity|].
    split; assumption.
Defined.

(** X12 at the start of the script and at the initial speed. *)
Lemma skip_and_speed_keys_witness :
  let w := init 640 420 in
  (scroll_y (keyPressEvent Key_Left w) == 0)%Q
  /\ (speed (keyPressEvent Key_Down (keyPressEvent Key_Up w)) == speed w)%Q
  /\ (speed (keyPressEvent Key_Up (keyPressEvent Key_Down w)) == speed w)%Q.
Proof.
  intros w.
  destruct (skip_and_speed_keys QFontMetrics10 true w) as (_ & H2 & H3 & _).
  split; [apply H2; vm_compute; discriminate|].
  destruct H3 as (H4 & H5).
  - exists 0, 0, []. reflexivity.
  - split; [apply H4 | apply H5]; vm_compute; discriminate.
Defined.

(** X13: line 39 of forty lines is far below a window 420 high. *)
Lemma hidden_lines_off_screen_witness :
  let w := set_l_lines (repeat "a" 40) (set_f_line_h 60 (init 640 420)) in
  let y := py_int (inject_Z (height w) * focus_ratio w) - py_int (scroll_y w)
           + 39 * _f_line_h w in
  y <= - 3 * _f_line_h w \/ height w + _f_line_h w < y.
Proof.
  intros w y.
  apply (hidden_lines_off_screen w 39).
  - vm_compute. discriminate.
  - vm_compute. split; [discriminate | reflexivity].
  - intros H. apply list_elem_of_In in H. revert H.
    apply (bool_decide_eq_false_1 (39 ∈ visible_range w)).
    vm_compute. reflexivity.
Defined.


(** X15 on the script with one note. *)
Lemma notes_listing_witness :
  let l := build_layout (horizontalAdvance fixed10) 10 AlignLeft 640 scenario2 in
  exists entries,
    set_all_parts (notes l) (lines l) = Some entries
    /\ length entries = size (notes l).
Proof.
  intros l.
  destruct (notes_listing (horizontalAdvance fixed10) 10 640 AlignLeft scenario2)
    as (entries & H1 & H2 & _).
  exists entries. split; assumption.
Defined.

(** X16 after the speed slider was moved to 20. *)
Lemma speed_slider_in_sync_witness :
  let w := run QFontMetrics10 true before_pause_events (init 640 420) in
  1 <= sync_slider_request w <= 40
  /\ sync_slider_value w = sync_slider_request w
  /\ (inject_Z (sync_slider_value w) / 2 == speed w)%Q
  /\ (speed (_on_speed (sync_slider_value w) w) == speed w)%Q.
Proof.
  intros w. apply (speed_slider_in_sync QFontMetrics10 true w).
  exists 640, 420, before_pause_events. reflexivity.
Defined.

(** X17 on a tick of the script without pause lines. *)
Lemma progress_report_in_range_witness :
  let w := run QFontMetrics10 true plain_play_events (init 640 420) in
  let r := _scroll_step QFontMetrics10 16 w in
  exists v m s,
    _sync_progress (scroll_y r) (_l_total r) r = Some (v, m, s)
    /\ 0 <= v <= 1000 /\ 0 <= s < 60.
Proof.
  intros w r.
  destruct (progress_report_in_range QFontMetrics10 true 16 w) as [_ H].
  - exists 640, 420, plain_play_events. reflexivity.
  - destruct H as (v & m & s & H1 & H2 & _ & _ & H5 & _);
      [vm_compute; reflexivity|].
    exists v, m, s. split; [exact H1|]. split; assumption.
Defined.

(** X18: a faster manual speed on the same script. *)
Lemma wpm_estimate_witness :
  let w := set_text_ "one two three" (init 640 420) in
  _calc_wpm 180 w <= _calc_wpm 180 (_speed_up w).
Proof.
  intros w.
  destruct (wpm_estimate 180 w (_speed_up w)) as (_ & _ & _ & _ & H).
  apply H; [reflexivity | vm_compute; discriminate | vm_compute; discriminate].
Defined.

(** X19: a first slot saved under a padded name. *)
Lemma slot_save_load_witness :
  let p := mkPanel None cb_clear "hello" in
  let q := _save_slot " a " true true p in
  dict_get (strip " a ") (slots_of q) = Some "hello"
  /\ cb_currentText (_slot_cb q) = strip " a ".
Proof.
  intros p q.
  destruct (slot_save_load " a " true p) as [_ H];
    [apply NoDup_nil_2|].
  destruct H as (H1 & _ & _ & H4 & _);
    [reflexivity | vm_compute; discriminate |].
  split; assumption.
Defined.

(** X20: the only slot is deleted. *)
Lemma slot_delete_witness :
  let p := _save_slot "a" true true (mkPanel None cb_clear "hello") in
  dict_get (cb_currentText (_slot_cb p)) (slots_of (_del_slot true p)) = None.
Proof.
  intros p.
  destruct (slot_delete p) as (_ & _ & H).
  - split; [vm_compute; apply NoDup_singleton | reflexivity].
  - apply H. vm_compute. discriminate.
Defined.

(** X21 for scenario 1 on a page 1000 by 1400. *)
Lemma pdf_export_matches_wrapping_witness :
  let pr := mkPrinter 1000 1400 fixed10 fixed10 fixed10 in
  exists out,
    _export_pdf true "out.pdf" true pr scenario1 = Some out
    /\ pdf_items out
       = concat (map (para_items (horizontalAdvance fixed10)
                                 (horizontalAdvance fixed10 " ") (pdf_mw pr))
                     (split_nl scenario1)).
Proof.
  intros pr.
  apply (proj2 (pdf_export_matches_wrapping true "out.pdf" true pr scenario1));
    [reflexivity | discriminate | reflexivity].
Defined.

(** X22 for scenario 1 on a page 1000 by 1400. *)
Lemma pdf_lines_on_page_witness :
  let pr := mkPrinter 1000 1400 fixed10 fixed10 fixed10 in
  let s := pdf_body pr scenario1 in
  StronglySorted le (map cmd_page (pdf_out s)) /\ pdf_marg pr <= pdf_y s.
Proof.
  intros pr s.
  destruct (pdf_lines_on_page pr scenario1) as (_ & _ & H3 & H4).
  - vm_compute. discriminate.
  - vm_compute. discriminate.
  - vm_compute. discriminate.
  - split; assumption.
Defined.

(** X23: a one-line paragraph right after the heading is drawn with the
    pen of the rule. *)
Lemma pdf_last_line_pen_witness :
  let pr := mkPrinter 1000 1400 fixed10 fixed10 fixed10 in
  exists cmds,
    pdf_out (pdf_para pr 10 (pdf_heading pr) "Hello world")
    = pdf_out (pdf_heading pr) ++ cmds
    /\ map cmd_pen cmds = [rule_pen].
Proof.
  intros pr.
  destruct (pdf_last_line_pen pr 10 (pdf_heading pr) "Hello world")
    as [(cmds & H1 & H2) _]; [reflexivity | reflexivity |].
  exists cmds. split; [exact H1 | exact H2].
Defined.

(** X24 with the microphone on at the initial threshold. *)
Lemma mic_threshold_captured_witness :
  let w := run QFontMetrics10 true mic_events (init 640 420) in
  let w1 := handle QFontMetrics10 true (EvThresholdSlider 10) w in
  _mic_stream w1 = Some (mic_threshold w)
  /\ _mic_stream (handle QFontMetrics10 true (EvMic true)
                    (handle QFontMetrics10 true (EvMic false) w1))
     = Some (inject_Z (bounded 1 20 10) / 200)%Q.
Proof.
  intros w w1.
  destruct (mic_threshold_captured QFontMetrics10 true w (mic_threshold w) 10 1)
    as (_ & _ & H3 & _ & _ & H6).
  - exists 640, 420, mic_events. reflexivity.
  - reflexivity.
  - split; [exact H3 | exact H6].
Defined.

(** X25 on a screen 1920 by 1040 with a panel 400 by 700. *)
Lemma arrange_windows_side_by_side_witness :
  exists p t,
    _arrange_windows (Some (mkRect 0 0 1920 1040)) 400 700 = Some (p, t)
    /\ r_x t + r_w t = 1920 - 20
    /\ r_y t + r_h t <= 1040 - 20.
Proof.
  destruct (arrange_windows_side_by_side (mkRect 0 0 1920 1040) 400 700)
    as (_ & p & t & H1 & _ & _ & _ & _ & _ & _ & H8 & H9).
  exists p, t. split; [exact H1|]. split.
  - apply H8. vm_compute. discriminate.
  - apply H9. injection H1 as <- <-. vm_compute. discriminate.
Defined.

(** X27 for the theme whose opacity is beyond the slider. *)
Lemma theme_applied_witness :
  let d := _apply_theme "High Contrast" init_display in
  _opa_sl d = 95 /\ _opa_lbl d = 97 /\ (bg_opacity d == 0.97)%Q.
Proof.
  intros d.
  pose proof (theme_applied "High Contrast" init_display) as H.
  assert (E : theme_get "High Contrast"
              = Some (mkTheme (0, 0, 0) (255, 255, 0) 0.97%Q)) by reflexivity.
  rewrite E in H. destruct H as (_ & _ & _ & _ & _ & H). apply H. reflexivity.
Defined.

(** X5 at scenario 1. *)
Lemma layout_indices_valid_witness :
  let l := build_layout (horizontalAdvance fixed10) 10 AlignLeft 640 scenario1 in
  (1 <= length (split_nl scenario1) <= length (lines l))%nat /\ indices_ok l.
Proof.
  intros l.
  apply (layout_indices_valid (horizontalAdvance fixed10) 10 640 AlignLeft
                              scenario1).
Defined.

(** X26 after a theme and a move of the opacity slider. *)
Lemma display_settings_coherent_witness :
  let d := run_display [DispTheme "High Contrast"; DispOpacitySlider 50] in
  _c_bg d = (bg_color d, bg_opacity d)
  /\ (0 <= bg_opacity d <= 0.97)%Q
  /\ (inject_Z (_opa_lbl d) == bg_opacity d * 100)%Q
  /\ _opa_sl d = Z.min 95 (_opa_lbl d).
Proof.
  intros d.
  apply (display_settings_coherent [DispTheme "High Contrast";
                                    DispOpacitySlider 50]).
Defined.
